(** * Photography.AI: the text cleaner, the chunker, the corpus builder and
    the retrieval-augmented answerer, embedded from [clean_reviews.py] and
    [app.py].

    Python [str] values are sequences of Unicode code points and Python
    [int]s are unbounded, so texts are lists of code points ([N]) and every
    index, offset and count is a [Z], with Python's negative-index rules
    written out where the source slices or searches. *)

From Stdlib Require Import String Ascii Bool ZArith NArith Lia List.
From Stdlib Require DecimalString DecimalZ.
Import ListNotations.
Open Scope Z_scope.

(** ** Python string primitives *)

Module Py.

Definition cp := N.
Definition str := list cp.

(** An ASCII literal of the source as a sequence of code points. *)
Definition lit (s : string) : str := map N_of_ascii (list_ascii_of_string s).

Definition len (s : str) : Z := Z.of_nat (length s).

Definition newline : cp := 10%N.
Definition period : cp := 46%N.

(** [str.isspace] on one code point (CPython's [_PyUnicode_IsWhitespace]);
    it is the set [str.strip()] removes. *)
Definition isspace (c : cp) : bool :=
  ((9 <=? c) && (c <=? 13) || (28 <=? c) && (c <=? 32)
   || (c =? 133) || (c =? 160) || (c =? 5760)
   || (8192 <=? c) && (c <=? 8202)
   || (c =? 8232) || (c =? 8233) || (c =? 8239) || (c =? 8287)
   || (c =? 12288))%N.

Fixpoint lstrip (s : str) : str :=
  match s with
  | c :: s' => if isspace c then lstrip s' else s
  | [] => []
  end.

Definition rstrip (s : str) : str := rev (lstrip (rev s)).

(** [s.strip()] *)
Definition strip (s : str) : str := rstrip (lstrip s).

(** Truthiness of a string: [if chunk:], [if not content:]. *)
Definition truthy (s : str) : bool :=
  match s with [] => false | _ :: _ => true end.

(** Slice-index normalisation: a negative index counts from the end, and
    the result is clamped to [0, n]. *)
Definition clip (n i : Z) : Z :=
  if i <? 0 then Z.max 0 (i + n) else Z.min i n.

(** [s[start:stop]] *)
Definition slice (s : str) (start stop : Z) : str :=
  let a := clip (len s) start in
  let b := clip (len s) stop in
  firstn (Z.to_nat (b - a)) (skipn (Z.to_nat a) s).

(** Does [s] start with [sub]? *)
Fixpoint prefixb (sub s : str) : bool :=
  match sub, s with
  | [], _ => true
  | _ :: _, [] => false
  | a :: sub', b :: s' => (a =? b)%N && prefixb sub' s'
  end.

(** Scan of the suffix [s] (whose head has index [i]) for the lowest index
    at which [sub] occurs; [-1] when there is none. *)
Fixpoint find_from (sub s : str) (i : Z) : Z :=
  if prefixb sub s then i
  else match s with
       | [] => -1
       | _ :: s' => find_from sub s' (i + 1)
       end.

(** [s.find(sub)] *)
Definition find (s sub : str) : Z := find_from sub s 0.

(** Scan of the suffix [s] (whose head has index [i]) for the highest index
    in [lo, hi] at which [sub] occurs; [best] is the result so far. *)
Fixpoint rfind_from (sub s : str) (i lo hi best : Z) : Z :=
  let best' := if (lo <=? i) && (i <=? hi) && prefixb sub s then i else best in
  match s with
  | [] => best'
  | _ :: s' => rfind_from sub s' (i + 1) lo hi best'
  end.

(** [s.rfind(sub, start, stop)] for a non-empty [sub]: the highest index [i]
    with [start <= i] and [i + len(sub) <= stop] (both normalised as slice
    indices) at which [sub] occurs, or [-1]. *)
Definition rfind (s sub : str) (start stop : Z) : Z :=
  rfind_from sub s 0 (clip (len s) start) (clip (len s) stop - len sub) (-1).

End Py.

(** ** Regular expressions: the fragment of Python's [re] the cleaner uses

    A backtracking matcher with the priorities of [re]: alternatives are
    tried left to right, a greedy repetition tries one more iteration before
    it tries to stop, a lazy one the other way round, and the first success
    is the match. *)

Module Regex.
Import Py.

Inductive regex :=
| Eps
| Chr (c : cp)                  (* a literal character *)
| Dot                           (* [.]: any character but a newline *)
| Cls (p : cp -> bool)          (* a class: [\d], [\s], [[-_]] *)
| Bol                           (* [^] *)
| Eol                           (* [$] *)
| Seq (r1 r2 : regex)
| Alt (r1 r2 : regex)
| Rep (greedy : bool) (lo : nat) (hi : option nat) (r : regex).

(** [flags=re.MULTILINE | re.IGNORECASE] *)
Record flags := mk_flags { ignorecase : bool; multiline : bool }.

Definition no_flags : flags := mk_flags false false.
Definition IGNORECASE : flags := mk_flags true false.
Definition MULTILINE_IGNORECASE : flags := mk_flags true true.

(** A literal string, and a sequence of sub-patterns. *)
Definition seq (rs : list regex) : regex := fold_right Seq Eps rs.
Definition Lit (s : str) : regex := seq (map Chr s).

Definition under (hi : option nat) (n : nat) : bool :=
  match hi with
  | None => true
  | Some h => (n <? h)%nat
  end.

Section Matcher.
(** The comparison of a literal character of the pattern with a character
    of the text under [re.IGNORECASE]: a table of the Python runtime. *)
Variable ieq : cp -> cp -> bool.
Variable fl : flags.

Definition chr_eqb (p c : cp) : bool :=
  if ignorecase fl then ieq p c else (p =? c)%N.

(** [^]: at the start of the text, and with MULTILINE after a newline;
    [prev] is the character before the position. *)
Definition at_bol (prev : option cp) : bool :=
  match prev with
  | None => true
  | Some c => multiline fl && (c =? newline)%N
  end.

(** [$]: at the end of the text and before a newline that ends the text;
    with MULTILINE before every newline. *)
Definition at_eol (rest : str) : bool :=
  match rest with
  | [] => true
  | c :: rest' =>
      (c =? newline)%N && (multiline fl || negb (truthy rest'))
  end.

(** A repetition of [body]: [n] iterations are done, [fuel] bounds the ones
    to come.  A greedy repetition tries one more iteration before it tries
    to stop, a lazy one the other way round.  An iteration has to consume a
    character (every repeated sub-pattern of the source does), so the
    length of the remaining text bounds the number of iterations. *)
Fixpoint rep_iter
    (body : option cp -> str -> (option cp -> str -> option str) -> option str)
    (greedy : bool) (lo : nat) (hi : option nat)
    (k : option cp -> str -> option str)
    (fuel n : nat) (prev : option cp) (rest : str) {struct fuel}
    : option str :=
  let stop := if (lo <=? n)%nat then k prev rest else None in
  let more :=
    match fuel with
    | O => None
    | S fuel' =>
        if under hi n then
          body prev rest
               (fun pv rs =>
                  if (length rs <? length rest)%nat
                  then rep_iter body greedy lo hi k fuel' (S n) pv rs
                  else None)
        else None
    end in
  if greedy
  then match more with Some rs => Some rs | None => stop end
  else match stop with Some rs => Some rs | None => more end.

(** [mt r prev rest k] matches [r] at the position whose remaining text is
    [rest] and hands the position after it to [k]; the result is the text
    that remains after the whole match. *)
Fixpoint mt (r : regex) (prev : option cp) (rest : str)
    (k : option cp -> str -> option str) {struct r} : option str :=
  match r with
  | Eps => k prev rest
  | Chr p =>
      match rest with
      | c :: rest' => if chr_eqb p c then k (Some c) rest' else None
      | [] => None
      end
  | Dot =>
      match rest with
      | c :: rest' => if (c =? newline)%N then None else k (Some c) rest'
      | [] => None
      end
  | Cls p =>
      match rest with
      | c :: rest' => if p c then k (Some c) rest' else None
      | [] => None
      end
  | Bol => if at_bol prev then k prev rest else None
  | Eol => if at_eol rest then k prev rest else None
  | Seq r1 r2 => mt r1 prev rest (fun pv rs => mt r2 pv rs k)
  | Alt r1 r2 =>
      match mt r1 prev rest k with
      | Some rs => Some rs
      | None => mt r2 prev rest k
      end
  | Rep greedy lo hi r1 =>
      rep_iter (mt r1) greedy lo hi k (length rest) O prev rest
  end.

(** The length of the match of [r] that starts at this position. *)
Definition match_at (r : regex) (prev : option cp) (rest : str) : option nat :=
  match mt r prev rest (fun _ rs => Some rs) with
  | Some rs => Some (length rest - length rs)%nat
  | None => None
  end.

(** [re.sub]: left to right; at a position where the pattern matches, the
    replacement is written and the scan resumes after the match ([skip]
    counts the matched characters still to be dropped), elsewhere the
    character is copied.  The replacements of the source contain no
    backslash, so they are written as they are. *)
Fixpoint sub_go (r : regex) (repl : str) (prev : option cp) (rest : str)
    (skip : nat) : str :=
  match skip, rest with
  | S n, c :: rest' => sub_go r repl (Some c) rest' n
  | S _, [] => []
  | O, [] =>
      match match_at r prev [] with
      | Some _ => repl
      | None => []
      end
  | O, c :: rest' =>
      match match_at r prev rest with
      | Some O => repl ++ c :: sub_go r repl (Some c) rest' O
      | Some (S n) => repl ++ sub_go r repl (Some c) rest' n
      | None => c :: sub_go r repl (Some c) rest' O
      end
  end.

Definition re_sub (r : regex) (repl s : str) : str := sub_go r repl None s O.

(** [re.split(r, s, maxsplit=1)] for a pattern without groups: the text
    before the first match and the text after it, or the text alone;
    [before] is the text passed so far, reversed. *)
Fixpoint split_go (r : regex) (before : str) (prev : option cp) (rest : str)
    : list str :=
  match match_at r prev rest with
  | Some n => [rev before; skipn n rest]
  | None =>
      match rest with
      | [] => [rev before]
      | c :: rest' => split_go r (c :: before) (Some c) rest'
      end
  end.

Definition re_split1 (r : regex) (s : str) : list str := split_go r [] None s.

End Matcher.
End Regex.

(** ** The text cleaner ([clean_reviews.py], [clean_review_text]) *)

Module Cleaner.
Import Py Regex.

(** The ASCII tables: [A]-[Z] lower to [a]-[z], [0]-[9] are the digits. *)
Definition is_ascii (c : cp) : bool := (c <? 128)%N.

Definition ascii_lower (c : cp) : cp :=
  if ((65 <=? c) && (c <=? 90))%N then (c + 32)%N else c.

Definition ascii_digit (c : cp) : bool := ((48 <=? c) && (c <=? 57))%N.

(** What the cleaner takes from the Unicode tables of the Python runtime:
    [str.lower], a function from texts to texts (it may change the length
    of a text, as it does on U+0130, and the image of a letter may depend
    on its neighbours, as for the capital sigma); the comparison of
    characters under [re.IGNORECASE]; and the decimal digits of [\d].  They
    are parameters of the development.  All that is taken for granted about
    [str.lower] is what it does on ASCII text. *)
Class Unicode := mk_unicode {
  lower : str -> str;
  ieq : cp -> cp -> bool;
  is_decimal : cp -> bool;
  lower_ascii :
    forall s, forallb is_ascii s = true -> lower s = map ascii_lower s
}.

Section WithUnicode.
Context {U : Unicode}.

(** The right single quotation mark of "Here's" in the source patterns. *)
Definition rsquo : cp := 8217%N.

Definition end_markers : list str :=
  [ lit "Pros:";
    lit "Cons:";
    lit "Conclusion";
    lit "GEAR USED:";
    lit "Purchase the";
    lit "Keywords:";
    lit "Share on Facebook";
    lit "Want to support this channel?";
    lit "Buy DA Merchandise";
    repeat 95%N 73 ].

(** One pass of the [for marker in end_markers] loop. *)
Definition marker_step (text : str) (first_end_pos : Z) (marker : str) : Z :=
  let pos := find (lower text) (lower marker) in
  if negb (pos =? -1) && (pos <? first_end_pos) then pos else first_end_pos.

Definition first_end_pos (text : str) : Z :=
  fold_left (marker_step text) end_markers (len text).

(** [text[:first_end_pos].strip()] *)
Definition truncated (text : str) : str :=
  strip (slice text 0 (first_end_pos text)).

(** [\n\n[-_]{20,}\n\n] *)
Definition dash_or_underscore (c : cp) : bool := ((c =? 45) || (c =? 95))%N.

Definition separator_re : regex :=
  seq [Chr newline; Chr newline;
       Rep true 20 None (Cls dash_or_underscore);
       Chr newline; Chr newline].

(** [meaningful_text] after the fallback of lines 47 to 54. *)
Definition meaningful_text (text : str) : str :=
  let meaningful := truncated text in
  if len meaningful <? 300 then
    let parts := re_split1 ieq no_flags separator_re text in
    if (0 <? Z.of_nat (length parts)) && (300 <? len (hd [] parts))
    then strip (hd [] parts)
    else meaningful
  else meaningful.

(** One [cleaned = re.sub(pattern, repl, cleaned, flags=...)] statement,
    followed by [.strip()] where the source has it. *)
Record rule := mk_rule {
  pattern : regex;
  rule_flags : flags;
  repl : str;
  then_strip : bool
}.

Definition apply_rule (cleaned : str) (r : rule) : str :=
  let out := re_sub ieq (rule_flags r) (pattern r) (repl r) cleaned in
  if then_strip r then strip out else out.

Definition lazy_any : regex := Rep false 0 None Dot.          (* [.*?] *)
Definition nl_or_end : regex := Alt (Chr newline) Eol.        (* [(\n|$)] *)
Definition digits : regex := Rep true 1 None (Cls is_decimal). (* [\d+] *)
Definition heres (s : string) : regex :=                      (* [Here's ...] *)
  Seq (Lit (lit "Here" ++ [rsquo])) (Lit (lit s)).

(** Section 2 of the function, in the order of the source. *)
Definition noise_rules : list rule :=
  [ mk_rule (seq [Bol; Lit (lit "Follow Me @"); lazy_any; nl_or_end])
      MULTILINE_IGNORECASE [] true;
    mk_rule (seq [Bol; Lit (lit "Thanks to "); lazy_any;
                  Lit (lit " for sending me"); lazy_any; nl_or_end])
      MULTILINE_IGNORECASE [] true;
    mk_rule (seq [Bol; Lit (lit "*The tests and most of the photos");
                  lazy_any; nl_or_end])
      MULTILINE_IGNORECASE [] true;
    mk_rule (seq [Bol; Lit (lit "You can visit the product page");
                  lazy_any; nl_or_end])
      MULTILINE_IGNORECASE [] true;
    mk_rule (seq [Lit (lit "Viltrox AIR Series Reviews:"); lazy_any;
                  Chr newline;
                  Rep true 1 None
                    (seq [Lit (lit "Viltrox AF"); lazy_any; nl_or_end])])
      IGNORECASE [] false;
    mk_rule (seq [heres "s a look at my reviews of this series"; lazy_any;
                  nl_or_end])
      MULTILINE_IGNORECASE [] false;
    mk_rule (seq [Lit (lit "(use code "); lazy_any; Lit (lit " for ");
                  lazy_any; Lit (lit "% off)")])
      IGNORECASE [] false;
    mk_rule (seq [Lit (lit "watching the video review below");
                  Rep true 0 None (Cls isspace);
                  Lit (lit "or reading on")])
      IGNORECASE (lit "as detailed below") false;
    mk_rule (seq [Lit (lit "For example, here is "); lazy_any;
                  Lit (lit " at F"); digits;
                  Rep true 0 (Some 1%nat) (Seq (Chr period) (Cls is_decimal));
                  Lit (lit " compared to "); lazy_any; Chr 58%N])
      IGNORECASE (lit "[Comparison description:]") false;
    mk_rule (Lit (lit "But here is something absurd: check out the corner comparison!"))
      IGNORECASE (lit "[Corner comparison description follows.]") false;
    mk_rule (Lit (lit "Oof!")) no_flags [] false;
    mk_rule (seq [heres "s a deep crop from a photo"; lazy_any; Chr 58%N])
      IGNORECASE (lit "[Deep crop description:]") false;
    mk_rule (seq [heres "s an image taken at F"; digits; Chr 58%N])
      IGNORECASE (lit "[Image description:]") false;
    mk_rule (heres "s what that looks like:")
      IGNORECASE (lit "[Magnification example description:]") false;
    mk_rule (seq [heres "s a grab from a video clip"; lazy_any; Chr 58%N])
      IGNORECASE (lit "[Video frame description:]") false;
    mk_rule (heres "s a look at my test chart:")
      IGNORECASE (lit "[Test chart description:]") false;
    mk_rule (seq [Lit (lit "And here are the crops"); lazy_any; Chr 58%N])
      IGNORECASE (lit "[Crop descriptions follow:]") false;
    mk_rule (Lit (lit "visit the image gallery here"))
      IGNORECASE (lit "(image gallery link removed)") false ].

Definition remove_noise (cleaned : str) : str :=
  fold_left apply_rule noise_rules cleaned.

(** Section 3: [_{5,}] is removed, [\n{3,}] becomes two newlines. *)
Definition underscores_re : regex := Rep true 5 None (Chr 95%N).
Definition newlines_re : regex := Rep true 3 None (Chr newline).

Definition remove_underscore_lines (cleaned : str) : str :=
  re_sub ieq no_flags underscores_re [] cleaned.

Definition collapse_newlines (cleaned : str) : str :=
  re_sub ieq no_flags newlines_re [newline; newline] cleaned.

(** [clean_review_text(text, url)].  [url] only reaches the log messages.
    The argument is a [str] here; for any other value the source returns
    the same empty string as for blank text. *)
Definition clean_review_text (text url : str) : str :=
  if negb (truthy (strip text)) then []
  else
    strip (collapse_newlines
             (remove_underscore_lines (remove_noise (meaningful_text text)))).

(** The record loop of the script, for the cleaned text only: an item whose
    cleaned text is empty is skipped. *)
Definition cleaned_content (content_text url : str) : option str :=
  let cleaned_text := clean_review_text content_text url in
  if negb (truthy cleaned_text) then None else Some cleaned_text.

End WithUnicode.

(** The tables on ASCII text.  Python's tables agree with them on every
    ASCII code point and on the quotation mark U+2019, which has no case
    and is no digit. *)
Definition ascii_tables : Unicode :=
  mk_unicode (map ascii_lower)
             (fun p c => (ascii_lower p =? ascii_lower c)%N)
             ascii_digit
             (fun s _ => eq_refl).





End Cleaner.

(** ** The chunker ([app.py], [simple_chunker]) *)

Module Chunker.
Import Py.

(** The two loop variables that survive an iteration. *)
Record loop_state := mk_state { chunks : list str; current_pos : Z }.

Section Loop.
Variable text : str.
Variables max_chars overlap : Z.

(** The end of the window proposed at [pos]: lines 66 to 71. *)
Definition window_end (pos : Z) : Z :=
  let end_pos := Z.min (pos + max_chars) (len text) in
  let para_break := rfind text [newline; newline] pos end_pos in
  if para_break >? pos + overlap then para_break + 2
  else if rfind text [period] pos end_pos >? pos + overlap
       then rfind text [period] pos end_pos + 1
       else end_pos.

(** One pass through the body of the [while]; the boolean is the [break]. *)
Definition loop_body (st : loop_state) : loop_state * bool :=
  let end_pos := window_end (current_pos st) in
  let chunk := strip (slice text (current_pos st) end_pos) in
  let chunks' := if truthy chunk then chunks st ++ [chunk] else chunks st in
  let next_start := end_pos - overlap in
  let pos' := Z.max (current_pos st + 1) next_start in
  (mk_state chunks' pos', (next_start <=? pos') && (end_pos =? len text)).

(** The [while current_pos < len(text)] loop, at most [fuel] iterations. *)
Fixpoint while_loop (fuel : nat) (st : loop_state) : option loop_state :=
  match fuel with
  | O => None
  | S fuel' =>
      if current_pos st <? len text then
        let (st', brk) := loop_body st in
        if brk then Some st' else while_loop fuel' st'
      else Some st
  end.

Definition simple_chunker_fuel (fuel : nat) : option (list str) :=
  match while_loop fuel (mk_state [] 0) with
  | Some st => Some (filter truthy (chunks st))
  | None => None
  end.

(** [simple_chunker(text, max_chars, overlap)]: the cursor moves by at least
    one character per iteration, so [len(text) + 1] iterations are enough,
    as is proved below. *)
Definition simple_chunker : list str :=
  match simple_chunker_fuel (S (length text)) with
  | Some cs => cs
  | None => []
  end.

(** The windows [[current_pos, end_pos)] of the iterations, in order. *)
Fixpoint windows_from (fuel : nat) (pos : Z) : list (Z * Z) :=
  match fuel with
  | O => []
  | S fuel' =>
      if pos <? len text then
        let end_pos := window_end pos in
        let next_start := end_pos - overlap in
        let pos' := Z.max (pos + 1) next_start in
        (pos, end_pos) ::
          (if (next_start <=? pos') && (end_pos =? len text) then []
           else windows_from fuel' pos')
      else []
  end.

Definition windows : list (Z * Z) := windows_from (S (length text)) 0.

(** The chunk cut from a window, and the windows whose chunk is kept. *)
Definition chunk_of (w : Z * Z) : str := strip (slice text (fst w) (snd w)).

Definition emitted_windows : list (Z * Z) :=
  filter (fun w => truthy (chunk_of w)) windows.

End Loop.

(** The call of the corpus builder: [simple_chunker(content)]. *)
Definition simple_chunker_default (text : str) : list str :=
  simple_chunker text 1800 200.

End Chunker.

(** ** Exceptions

    A call that may raise returns a [result]; [Exception] stands for an
    instance of Python's [Exception] class, the class the handlers of
    [app.py] catch. *)

Module Exc.
Import Py.

Inductive exn := Exception (message : str).

(** [str(e)] *)
Definition str_of_exn (e : exn) : str :=
  match e with Exception message => message end.

Inductive result (A : Type) :=
| Ok (a : A)
| Raise (e : exn).
Arguments Ok {A} a.
Arguments Raise {A} e.

Definition bind {A B : Type} (m : result A) (f : A -> result B) : result B :=
  match m with
  | Ok a => f a
  | Raise e => Raise e
  end.

(** [try: body / except Exception as e: handler] *)
Definition try_except {A : Type} (body : result A) (handler : exn -> result A)
    : result A :=
  match body with
  | Ok a => Ok a
  | Raise e => handler e
  end.

Module Notations.
Notation "x <- m ;; k" := (bind m (fun x => k))
  (at level 61, m at next level, right associativity).
End Notations.

End Exc.

(** ** The corpus builder ([app.py], [setup_vector_db]) *)

Module Builder.
Import Py Exc Chunker.

(** [str(n)] for an [int]. *)
Definition str_of_int (n : Z) : str :=
  lit (DecimalString.NilEmpty.string_of_int (Z.to_int n)).

(** [f"review_{i+1}_chunk_{chunk_index+1}"], from the two loop indices. *)
Definition doc_id (i chunk_index : Z) : str :=
  lit "review_" ++ str_of_int (i + 1) ++ lit "_chunk_"
    ++ str_of_int (chunk_index + 1).

(** An object of the corpus file; a key that is absent is [None]. *)
Record review := mk_review {
  content_text : option str;
  url : option str;
  title : option str
}.

(** [d.get(key, default)] *)
Definition get (field : option str) (default : str) : str :=
  match field with
  | Some v => v
  | None => default
  end.

Record metadata := mk_metadata {
  source_url : str;
  meta_title : str;
  chunk_num : Z;
  original_doc_index : Z
}.

(** [enumerate(l)] *)
Fixpoint enumerate_from {A : Type} (i : Z) (l : list A) : list (Z * A) :=
  match l with
  | [] => []
  | a :: l' => (i, a) :: enumerate_from (i + 1) l'
  end.

Definition enumerate {A : Type} (l : list A) : list (Z * A) :=
  enumerate_from 0 l.

(** The three lists the loop fills. *)
Record pending := mk_pending {
  documents_to_add : list str;
  metadatas_to_add : list metadata;
  ids_to_add : list str
}.

(** The body of [for chunk_index, chunk in enumerate(chunks)]. *)
Definition add_chunk (i : Z) (url title : str) (acc : pending)
    (ic : Z * str) : pending :=
  let (chunk_index, chunk) := ic in
  mk_pending
    (documents_to_add acc ++ [chunk])
    (metadatas_to_add acc
       ++ [mk_metadata url title (chunk_index + 1) (i + 1)])
    (ids_to_add acc ++ [doc_id i chunk_index]).

(** The body of [for i, review in enumerate(reviews)]. *)
Definition add_review (acc : pending) (ir : Z * review) : pending :=
  let (i, review) := ir in
  let content := get (content_text review) [] in
  let url := get (url review) [] in
  let title := get (title review) (lit "Unknown Title") in
  if negb (truthy content) then acc
  else fold_left (add_chunk i url title)
                 (enumerate (simple_chunker_default content)) acc.

Definition collect (reviews : list review) : pending :=
  fold_left add_review (enumerate reviews) (mk_pending [] [] []).

(** [l[i:i+batch_size] for i in range(0, len(l), batch_size)] *)
Fixpoint batches_fuel {A : Type} (fuel batch_size : nat) (l : list A)
    : list (list A) :=
  match fuel, l with
  | S fuel', _ :: _ =>
      firstn batch_size l :: batches_fuel fuel' batch_size (skipn batch_size l)
  | _, _ => []
  end.

Definition batches {A : Type} (l : list A) : list (list A) :=
  batches_fuel (length l) 100 l.

(** The Chroma collection: the entries it holds, in the order added. *)
Record entry := mk_entry {
  entry_id : str;
  entry_document : str;
  entry_metadata : metadata
}.

Definition collection := list entry.

(** [collection.count()] *)
Definition count (c : collection) : Z := Z.of_nat (length c).

(** What [open(DATA_FILE)] and [json.load] give. *)
Inductive data_file :=
| FileNotFoundError
| JSONDecodeError
| OtherError (e : exn)
| Loaded (reviews : list review).

Inductive setup_result := ReturnedCollection | ReturnedNone.

Section Setup.
(** The collaborators: whether the Chroma client answers, and whether
    [collection.add] (which embeds the batch remotely) raises for a batch
    of ids. *)
Variable chroma_answers : bool.
Variable add_raises : list str -> option exn.
Variable file : data_file.

(** [collection.add(documents=, metadatas=, ids=)] *)
Definition add (c : collection)
    (batch : list str * list metadata * list str) : result collection :=
  let '(docs, metas, ids) := batch in
  match add_raises ids with
  | Some e => Raise e
  | None =>
      Ok (c ++ map (fun x => mk_entry (fst x) (fst (snd x)) (snd (snd x)))
                   (combine ids (combine docs metas)))
  end.

(** The batch loop: the collection after the batches that were added, and
    whether a call raised. *)
Fixpoint add_batches (c : collection)
    (bs : list (list str * list metadata * list str)) : collection * bool :=
  match bs with
  | [] => (c, false)
  | b :: bs' =>
      match add c b with
      | Ok c' => add_batches c' bs'
      | Raise _ => (c, true)
      end
  end.

(** [setup_vector_db()], started on the collection [c]: the value returned
    and the collection afterwards. *)
Definition setup_vector_db (c : collection) : setup_result * collection :=
  if negb chroma_answers then (ReturnedNone, c)
  else if count c >? 0 then (ReturnedCollection, c)
  else
    match file with
    | FileNotFoundError => (ReturnedNone, c)
    | JSONDecodeError => (ReturnedNone, c)
    | OtherError _ => (ReturnedNone, c)
    | Loaded reviews =>
        let p := collect reviews in
        let bs :=
          combine (combine (batches (documents_to_add p))
                           (batches (metadatas_to_add p)))
                  (batches (ids_to_add p)) in
        match add_batches c bs with
        | (c', true) => (ReturnedNone, c')
        | (c', false) => (ReturnedCollection, c')
        end
    end.

End Setup.
End Builder.

(** ** The answerer ([app.py], [perform_rag]) *)

Module Answerer.
Import Py Exc Exc.Notations.

(** The metadata dictionary of a hit; [None] keys are absent. *)
Record hit_metadata := mk_hit_metadata {
  hit_title : option str;
  hit_source_url : option str
}.

Section Rag.
(** Distances are only printed. *)
Variable distance : Type.

(** The answer of [collection.query]: a key that is absent, [None] or empty
    is the empty list (all three are falsy); a hit without a metadata
    dictionary is [None]. *)
Record query_results := mk_results {
  documents : list (list str);
  metadatas : list (list (option hit_metadata));
  distances : list (list distance)
}.

(** The collaborators: the index query; the chat completion, whose
    message content may be [None]; the console, [print(s)], which raises
    when standard output does not take the text (it cannot encode it, for
    one) and treats a text the same way each time; and the formatting
    [f"{dist:.4f}"] of a distance.  The [logging] calls are left out:
    [logging] reports the errors of its handlers itself and raises
    nothing. *)
Variable collection_query : str -> Z -> result query_results.
Variable chat_completion : str -> str -> result (option str).
Variable print : str -> result unit.
Variable format_distance : distance -> str.

Definition apology : str :=
  lit "Sorry, an error occurred while processing your request.".

Definition not_initialized : str :=
  lit "Error: Vector database not initialized.".

Definition no_context : str :=
  lit "No relevant context found in the reviews.".

Definition system_prompt : str :=
  lit "You are a helpful assistant answering questions based ONLY on the provided context from Dustin Abbott's photography reviews."
  ++ [newline]
  ++ lit "If the answer is not found in the context, say 'I cannot answer this based on the provided reviews.' Do not make up information."
  ++ [newline]
  ++ lit "Be concise and directly answer the question using the information from the reviews.".

Definition user_prompt (context_str query : str) : str :=
  lit "Based ONLY on the context below from Dustin Abbott's reviews, please answer the question."
  ++ [newline; newline] ++ lit "Context:" ++ [newline]
  ++ lit "--- START CONTEXT ---" ++ [newline]
  ++ context_str ++ [newline]
  ++ lit "--- END CONTEXT ---" ++ [newline; newline]
  ++ lit "Question: " ++ query ++ [newline; newline] ++ lit "Answer:".

(** *** The texts that are printed *)

Definition started_line : str :=
  [newline] ++ lit "--- RAG Process Started ---".

Definition query_line (query : str) : str :=
  lit "[*] User Query Received: '" ++ query ++ lit "'".

Definition retrieval_line : str :=
  [newline] ++ lit "[*] Context Retrieval Results:".

Definition no_documents_line : str := lit "  - No relevant documents found.".

Definition retrieved_line (n : Z) : str :=
  lit "  - Retrieved " ++ Builder.str_of_int n ++ lit " chunks:".

Definition chunk_line (i : Z) : str :=
  lit "  --- Chunk " ++ Builder.str_of_int (i + 1) ++ lit " ---".

(** The four prints that read the metadata, the distance and the text of
    a hit. *)
Definition hit_lines (doc : str) (m : hit_metadata) (dist : distance)
    : list str :=
  [ lit "    Source: " ++ Builder.get (hit_title m) (lit "N/A");
    lit "    URL: " ++ Builder.get (hit_source_url m) (lit "N/A");
    lit "    Distance: " ++ format_distance dist;
    lit "    Content Snippet: " ++ slice doc 0 200 ++ lit "..." ].

Definition end_context_line : str := lit "--- End Context ---".

Definition prompt_lines (context_str query : str) : list str :=
  [ [newline] ++ lit "[*] Prompt being sent to OpenAI LLM:";
    lit "--- System Prompt ---";
    system_prompt;
    lit "--- User Prompt (including context) ---";
    user_prompt context_str query;
    lit "--- End Prompt ---" ].

(** [print(answer)] writes [None] for a missing content. *)
Definition response_lines (content : option str) : list str :=
  [ [newline] ++ lit "[*] LLM Response Received:";
    match content with Some answer => answer | None => lit "None" end;
    lit "--- RAG Process Ended ---" ++ [newline] ].

Definition error_line (e : exn) : str :=
  [newline] ++ lit "[!!!] RAG Error: " ++ str_of_exn e ++ [newline].

(** Several [print] statements in a row. *)
Fixpoint print_all (lines : list str) : result unit :=
  match lines with
  | [] => Ok tt
  | l :: ls => u <- print l ;; print_all ls
  end.

(** [results[key][0] if results and results.get(key) else []] *)
Definition first_or_empty {A : Type} (l : list (list A)) : list A :=
  match l with
  | x :: _ => x
  | [] => []
  end.

(** [zip(context_chunks, metadatas, distances)] *)
Fixpoint zip3 {A B C : Type} (a : list A) (b : list B) (c : list C)
    : list (A * B * C) :=
  match a, b, c with
  | x :: a', y :: b', z :: c' => (x, y, z) :: zip3 a' b' c'
  | _, _, _ => []
  end.

(** The body of the [for] loop over the hits, which gives one line of the
    context; [meta.get] raises on a missing dictionary. *)
Definition context_line (ih : Z * (str * option hit_metadata * distance))
    : result str :=
  let '(i, (doc, meta, dist)) := ih in
  u <- print (chunk_line i) ;;
  match meta with
  | None => Raise (Exception (lit "'NoneType' object has no attribute 'get'"))
  | Some m =>
      u <- print_all (hit_lines doc m dist) ;;
      Ok (lit "Source: " ++ Builder.get (hit_title m) (lit "N/A")
          ++ [newline] ++ lit "Content:" ++ [newline] ++ doc)
  end.

Fixpoint context_lines
    (ihs : list (Z * (str * option hit_metadata * distance)))
    : result (list str) :=
  match ihs with
  | [] => Ok []
  | ih :: ihs' =>
      l <- context_line ih ;;
      ls <- context_lines ihs' ;;
      Ok (l :: ls)
  end.

(** [sep.join(lines)] *)
Fixpoint join (sep : str) (lines : list str) : str :=
  match lines with
  | [] => []
  | [l] => l
  | l :: ls => l ++ sep ++ join sep ls
  end.

Definition delimiter : str := [newline; newline] ++ lit "---" ++ [newline; newline].

(** Step 1 of the [try] block, after the query: the context string. *)
Definition build_context (results : query_results) : result str :=
  let context_chunks := first_or_empty (documents results) in
  let metas := first_or_empty (metadatas results) in
  let dists := first_or_empty (distances results) in
  u <- print retrieval_line ;;
  context_str <-
    (if negb (match context_chunks with [] => false | _ => true end)
     then u <- print no_documents_line ;; Ok no_context
     else u <- print (retrieved_line (Z.of_nat (length context_chunks))) ;;
          lines <- context_lines
                     (Builder.enumerate (zip3 context_chunks metas dists)) ;;
          Ok (join delimiter lines)) ;;
  u <- print end_context_line ;;
  Ok context_str.

(** Steps 2 and 3: the prompt, the chat completion and its answer. *)
Definition ask (context_str query : str) : result str :=
  u <- print_all (prompt_lines context_str query) ;;
  content <- chat_completion system_prompt (user_prompt context_str query) ;;
  u <- print_all (response_lines content) ;;
  match content with
  | None => Raise (Exception (lit "'NoneType' object has no attribute 'strip'"))
  | Some answer => Ok (strip answer)
  end.

(** The body of the [try] block. *)
Definition rag_body (query : str) (n_results : Z) : result str :=
  results <- collection_query query n_results ;;
  context_str <- build_context results ;;
  ask context_str query.

(** [perform_rag(query, n_results)]; [collection] is the module global,
    [false] when it is [None].  Two prints come before the [try] block,
    and the handler prints the error before it returns the apology: an
    exception of one of these three is not caught. *)
Definition perform_rag (collection : bool) (query : str) (n_results : Z)
    : result str :=
  if negb collection then Ok not_initialized
  else
    u <- print started_line ;;
    u <- print (query_line query) ;;
    try_except (rag_body query n_results)
               (fun e => u <- print (error_line e) ;; Ok apology).

End Rag.
End Answerer.

(** ** Predicates of the statements *)

Module Props.
Import Py Cleaner Chunker Builder.

(** The first and the last character of the text are not white space. *)
Definition trimmed (s : str) : Prop :=
  match s with [] => True | c :: _ => isspace c = false end
  /\ match rev s with [] => True | c :: _ => isspace c = false end.

(** The number of newlines the text starts with. *)
Fixpoint run (s : str) : nat :=
  match s with
  | c :: s' => if (c =? newline)%N then S (run s') else O
  | [] => O
  end.

(** [nl_ok j s]: [s] starts with at most [j] newlines and has at most two
    newlines in a row after that. *)
Fixpoint nl_ok (j : nat) (s : str) : bool :=
  match s with
  | [] => true
  | c :: s' =>
      if (c =? newline)%N
      then match j with O => false | S j' => nl_ok j' s' end
      else nl_ok 2 s'
  end.

(** No marker of the list occurs in the text, case ignored. *)
Definition no_marker {U : Unicode} (s : str) : bool :=
  forallb (fun marker => find (lower s) (lower marker) =? -1) end_markers.


Definition underscore : cp := 95%N.

(** The index pairs of the chunks of one enumerated review, and the
    identifier of a pair. *)
Definition review_pairs (ir : Z * review) : list (Z * Z) :=
  let content := get (content_text (snd ir)) [] in
  if negb (truthy content) then []
  else map (fun jc : Z * str => (fst ir, fst jc))
           (enumerate (simple_chunker_default content)).

Definition pair_id (p : Z * Z) : str := doc_id (fst p) (snd p).

End Props.

(** ** Concrete inputs

    The texts are ASCII, but for the quotation mark of the patterns, on
    which the tables of [ascii_tables] are those of Python; for
    [dotted_review], which goes with [dotted_tables]; and for the lone
    surrogate of the runs with a console that encodes to UTF-8. *)

Module Inputs.
Import Py Exc Cleaner Builder Answerer.

Definition great_lens : str := lit "Great lens. Sharp wide open.".

(** A letter followed by 2000 spaces: the second window is blank. *)
Definition blank_tail : str := lit "a" ++ repeat 32%N 2000.

(** Two paragraphs of 300 letters. *)
Definition two_paragraphs : str :=
  repeat 97%N 300 ++ [newline; newline] ++ repeat 98%N 300.

(** Scenario A of the specification. *)
Definition scenario_a : str :=
  lit "Great lens. Sharp wide open." ++ [newline; newline] ++ lit "Pros:"
  ++ [newline] ++ lit "- cheap".







(** 300 letters and a period. *)
Definition one_sentence : str := repeat 97%N 300 ++ [period].

Definition one_entry : collection :=
  [mk_entry (doc_id 0 0) (lit "Great lens.")
     (mk_metadata (lit "https://example.org/a-review/") (lit "A") 1 1)].

Definition two_reviews : list review :=
  [mk_review (Some (lit "Great lens. Sharp wide open.")) None None;
   mk_review (Some (lit "Soft corners.")) None (Some (lit "B"))].

Definition index_down (_ : str) (_ : Z) : result (query_results Z) :=
  Raise (Exception (lit "connection refused")).

Definition no_hits (_ : str) (_ : Z) : result (query_results Z) :=
  Ok (mk_results Z [[]] [[]] [[]]).

Definition refusing_model (_ _ : str) : result (option str) :=
  Ok (Some (lit "I cannot answer this based on the provided reviews.")).

Definition model_down (_ _ : str) : result (option str) :=
  Raise (Exception (lit "rate limit")).

(** A console that takes every text, and one that encodes to UTF-8 and so
    refuses a text with a surrogate code point, as [print] does with
    [UnicodeEncodeError]. *)
Definition console (_ : str) : result unit := Ok tt.

Definition is_surrogate (c : cp) : bool := ((55296 <=? c) && (c <=? 57343))%N.

Definition utf8_console (s : str) : result unit :=
  if existsb is_surrogate s
  then Raise (Exception (lit "'utf-8' codec can't encode character: surrogates not allowed"))
  else Ok tt.

(** A stand-in for [f"{dist:.4f}"] on whole distances. *)
Definition four_decimals (dist : Z) : str :=
  Builder.str_of_int dist ++ lit ".0000".



End Inputs.

(** ** Regular expressions with groups

    The matcher of [Regex] again, with the groups of [match.groups()]: a
    position carries the texts captured so far, so that they are undone
    with the position when the matcher backtracks. *)

Module Groups.
Import Py Regex.

Inductive gregex :=
| GEps
| GChr (c : cp)
| GDot
| GCls (p : cp -> bool)
| GBol
| GEol
| GSeq (r1 r2 : gregex)
| GAlt (r1 r2 : gregex)
| GRep (greedy : bool) (lo : nat) (hi : option nat) (r : gregex)
| GGroup (i : nat) (r : gregex).     (* the [i]-th pair of parentheses *)

Definition gseq (rs : list gregex) : gregex := fold_right GSeq GEps rs.

(** The captured texts, the latest first. *)
Definition captures := list (nat * str).

(** [m.group(i)] of a group that took part in the match. *)
Fixpoint group (i : nat) (cs : captures) : str :=
  match cs with
  | [] => []
  | (j, s) :: cs' => if (i =? j)%nat then s else group i cs'
  end.

Section Matcher.
Variable ieq : cp -> cp -> bool.
Variable fl : flags.
Context {R : Type}.

Fixpoint grep_iter
    (body : option cp -> str -> captures ->
            (option cp -> str -> captures -> option R) -> option R)
    (greedy : bool) (lo : nat) (hi : option nat)
    (k : option cp -> str -> captures -> option R)
    (fuel n : nat) (prev : option cp) (rest : str) (cs : captures)
    {struct fuel} : option R :=
  let stop := if (lo <=? n)%nat then k prev rest cs else None in
  let more :=
    match fuel with
    | O => None
    | S fuel' =>
        if under hi n then
          body prev rest cs
               (fun pv rs cs' =>
                  if (length rs <? length rest)%nat
                  then grep_iter body greedy lo hi k fuel' (S n) pv rs cs'
                  else None)
        else None
    end in
  if greedy
  then match more with Some x => Some x | None => stop end
  else match stop with Some x => Some x | None => more end.

Fixpoint gmt (r : gregex) (prev : option cp) (rest : str) (cs : captures)
    (k : option cp -> str -> captures -> option R) {struct r} : option R :=
  match r with
  | GEps => k prev rest cs
  | GChr p =>
      match rest with
      | c :: rest' => if chr_eqb ieq fl p c then k (Some c) rest' cs
                      else None
      | [] => None
      end
  | GDot =>
      match rest with
      | c :: rest' => if (c =? newline)%N then None else k (Some c) rest' cs
      | [] => None
      end
  | GCls p =>
      match rest with
      | c :: rest' => if p c then k (Some c) rest' cs else None
      | [] => None
      end
  | GBol => if at_bol fl prev then k prev rest cs else None
  | GEol => if at_eol fl rest then k prev rest cs else None
  | GSeq r1 r2 => gmt r1 prev rest cs (fun pv rs cs' => gmt r2 pv rs cs' k)
  | GAlt r1 r2 =>
      match gmt r1 prev rest cs k with
      | Some x => Some x
      | None => gmt r2 prev rest cs k
      end
  | GRep greedy lo hi r1 =>
      grep_iter (gmt r1) greedy lo hi k (length rest) O prev rest cs
  | GGroup i r1 =>
      gmt r1 prev rest cs
          (fun pv rs cs' =>
             k pv rs ((i, firstn (length rest - length rs) rest) :: cs'))
  end.

End Matcher.

(** [re.search(r, s)]: the groups of the match at the first position that
    has one. *)
Fixpoint search_go (ieq : cp -> cp -> bool) (fl : flags) (r : gregex)
    (prev : option cp) (rest : str) : option captures :=
  match gmt ieq fl r prev rest [] (fun _ _ cs => Some cs) with
  | Some cs => Some cs
  | None =>
      match rest with
      | [] => None
      | c :: rest' => search_go ieq fl r (Some c) rest'
      end
  end.

Definition re_search (ieq : cp -> cp -> bool) (fl : flags) (r : gregex)
    (s : str) : option captures :=
  search_go ieq fl r None s.

End Groups.

(** ** The rest of the cleaning script ([clean_reviews.py]) *)

Module Script.
Import Py Regex Groups Cleaner Builder.

(** The value of a decimal digit, the table behind [int(s)]; a digit of
    [\d] has a value from 0 to 9. *)
Class Digits {U : Unicode} := mk_digits {
  digit_value : cp -> Z;
  digit_value_range :
    forall c, is_decimal c = true -> 0 <= digit_value c <= 9
}.

Section WithTables.
Context {U : Unicode} {D : Digits}.

(** [int(s)] for a text of decimal digits. *)
Definition int_of_digits (s : str) : Z :=
  fold_left (fun acc c => 10 * acc + digit_value c) s 0.

(** [f"{n:02d}"] *)
Definition format_02d (n : Z) : str :=
  let s := str_of_int n in
  if len s <? 2 then lit "0" ++ s else s.

Definition slash : cp := 47%N.

(** [/(\d{4})/(\d{1,2})(/|$)] *)
Definition date_re : gregex :=
  gseq [GChr slash;
        GGroup 1 (GRep true 4 (Some 4%nat) (GCls is_decimal));
        GChr slash;
        GGroup 2 (GRep true 1 (Some 2%nat) (GCls is_decimal));
        GGroup 3 (GAlt (GChr slash) GEol)].

(** [extract_date_from_url(url)] *)
Definition extract_date_from_url (url : str) : option str :=
  match re_search ieq no_flags date_re url with
  | Some cs =>
      let year := group 1 cs in
      let month := group 2 cs in
      Some (year ++ lit "-" ++ format_02d (int_of_digits month))
  | None => None
  end.

(** *** Titles *)

(** Two library functions are parameters: [urlparse(url).path], which may
    raise, and [str.title]. *)
Variable urlparse_path : str -> Exc.result str.
Variable str_title : str -> str.

(** [/\d{4}/\d{2}/?$] *)
Definition trailing_date_re : regex :=
  seq [Chr slash; Rep true 4 (Some 4%nat) (Cls is_decimal);
       Chr slash; Rep true 2 (Some 2%nat) (Cls is_decimal);
       Rep true 0 (Some 1%nat) (Chr slash); Eol].

(** [s.strip('/')], for one character *)
Fixpoint lstrip_char (c : cp) (s : str) : str :=
  match s with
  | x :: s' => if (x =? c)%N then lstrip_char c s' else s
  | [] => []
  end.

Definition strip_char (c : cp) (s : str) : str :=
  rev (lstrip_char c (rev (lstrip_char c s))).

(** The characters before the first [c]. *)
Fixpoint before_char (c : cp) (s : str) : str :=
  match s with
  | x :: s' => if (x =? c)%N then [] else x :: before_char c s'
  | [] => []
  end.

(** [os.path.basename(p)] of [posixpath]: what follows the last slash. *)
Definition basename (p : str) : str := rev (before_char slash (rev p)).

(** [s.replace(old, new)] for single characters. *)
Definition replace_char (old new : cp) (s : str) : str :=
  map (fun x => if (x =? old)%N then new else x) s.

(** [s.endswith(suffix)] *)
Definition endswith (s suffix : str) : bool := prefixb (rev suffix) (rev s).

Definition common_endings : list str :=
  [lit " Review"; lit " G Review"; lit " Air Review"].

(** The [for ending in common_endings] loop, which stops at the first
    ending that fits. *)
Fixpoint strip_ending (title : str) (endings : list str) : str :=
  match endings with
  | [] => title
  | ending :: endings' =>
      if endswith (lower title) (lower ending)
      then slice title 0 (- len ending)
      else strip_ending title endings'
  end.

(** The title made from a slug. *)
Definition slug_title (slug : str) : str :=
  str_title (replace_char 95%N 32%N (replace_char 45%N 32%N slug)).

(** [extract_title_from_url(url)]; an exception inside the [try] ends in
    [return ""]. *)
Definition extract_title_from_url (url : str) : str :=
  match urlparse_path url with
  | Exc.Raise _ => []
  | Exc.Ok path =>
      let path := re_sub ieq no_flags trailing_date_re [] path in
      let slug := basename (strip_char slash path) in
      if truthy slug
      then strip (strip_ending (slug_title slug) common_endings)
      else []
  end.

(** *** The record loop *)

(** What the input file holds under a key of an object: JSON [null],
    which [json.load] gives as [None], or a string.  Values of the other
    JSON types are outside the model. *)
Inductive value := Null | Str (s : str).

(** An object of the input file; a key that is absent is [None]. *)
Record item := mk_item {
  item_content_text : option value;
  item_url : option value;
  item_title : option value;
  item_date : option value
}.

(** [item.get(key, default)]: the value under the key, [null] included,
    or the default when the key is absent. *)
Definition get_value (field : option value) (default : value) : value :=
  match field with
  | Some v => v
  | None => default
  end.

(** [f"{v}"] *)
Definition str_of_value (v : value) : str :=
  match v with
  | Str s => s
  | Null => lit "None"
  end.

(** An element of the input list: a dictionary or something else. *)
Inductive element :=
| Dict (it : item)
| NotDict.

(** A record of the output; its URL is the value read, [null] included,
    and a date [None] is written as [null]. *)
Record cleaned_item := mk_cleaned {
  cleaned_content_text : str;
  cleaned_url : value;
  cleaned_title : str;
  cleaned_date : option str
}.

(** The title read off the first line of the cleaned text, or the empty
    text when the line does not look like a title. *)
Definition first_line_title (cleaned_text : str) : str :=
  let first_line := strip (before_char newline cleaned_text) in
  if (5 <? len first_line) && (len first_line <? 120)
     && negb (prefixb (lit "[") first_line)
  then first_line else [].

(** [item.get('date')]: [None] for an absent key and for [null]. *)
Definition original_date (it : item) : option str :=
  match item_date it with
  | Some (Str d) => Some d
  | Some Null => None
  | None => None
  end.

(** [clean_review_text(original_text, url)] on values: a text that is no
    string gives the empty text, and the URL only reaches the log. *)
Definition clean_value (original_text url : value) : str :=
  match original_text with
  | Str text => clean_review_text text (str_of_value url)
  | Null => []
  end.

(** [extract_title_from_url(url)] on a value: for [None], [urlparse]
    gives a path of bytes, on which [re.sub] with a text pattern raises
    [TypeError], and the handler ends in [return ""]. *)
Definition extract_title_from_value (url : value) : str :=
  match url with
  | Str u => extract_title_from_url u
  | Null => []
  end.

(** The body of the loop for a dictionary: the cleaned record, or [None]
    when the item is skipped. *)
Definition clean_item (it : item) : option cleaned_item :=
  let original_text := get_value (item_content_text it) (Str []) in
  let url := get_value (item_url it) (Str []) in
  let original_title := get_value (item_title it) (Str []) in
  let cleaned_text := clean_value original_text url in
  if negb (truthy cleaned_text) then None
  else
    let title :=
      match original_title with
      | Str t => if truthy t then strip t else []
      | Null => []
      end in
    let title :=
      if negb (truthy title) then
        let title := extract_title_from_value url in
        if negb (truthy title) && truthy cleaned_text
        then first_line_title cleaned_text
        else title
      else title in
    let date_val :=
      match original_date it with
      | None =>
          match url with
          | Str u => if truthy u then extract_date_from_url u else None
          | Null => None
          end
      | Some d => Some d
      end in
    Some (mk_cleaned cleaned_text url
            (if truthy title then title else lit "Unknown Title")
            date_val).

(** The variables of the loop. *)
Record script_state := mk_script {
  cleaned_data : list cleaned_item;
  processed_count : Z;
  skipped_count : Z
}.

Definition script_step (st : script_state) (e : element) : script_state :=
  match e with
  | NotDict =>
      mk_script (cleaned_data st) (processed_count st) (skipped_count st + 1)
  | Dict it =>
      match clean_item it with
      | None =>
          mk_script (cleaned_data st) (processed_count st)
                    (skipped_count st + 1)
      | Some c =>
          mk_script (cleaned_data st ++ [c]) (processed_count st + 1)
                    (skipped_count st)
      end
  end.

(** [for i, item in enumerate(data)] *)
Definition script_loop (data : list element) : script_state :=
  fold_left script_step data (mk_script [] 0 0).

End WithTables.

(** The values of the ASCII digits. *)
Definition ascii_digit_value (c : cp) : Z := Z.of_N c - 48.

Lemma ascii_digit_value_range (c : cp) :
  ascii_digit c = true -> 0 <= ascii_digit_value c <= 9.
Proof.
  unfold ascii_digit, ascii_digit_value. intros H.
  apply andb_prop in H as [H1 H2].
  apply N.leb_le in H1, H2. lia.
Qed.

Definition ascii_digits : @Digits ascii_tables :=
  @mk_digits ascii_tables ascii_digit_value ascii_digit_value_range.

End Script.

(** ** The scraper ([scrapper.py]) *)

Module Scraper.
Import Py Exc Exc.Notations Script.

Definition BASE_URL : str := lit "https://dustinabbott.net".
Definition START_URL : str := BASE_URL ++ lit "/category/photography-reviews/".

(** What [parse_review_list_page] reads in a parsed list page: the [href]
    of every [a] tag that has one, in document order, and the first [a]
    tag whose text contains "Older Reviews", if any, with its [href], if
    any. *)
Record list_soup := mk_list_soup {
  anchors : list str;
  older_reviews : option (option str)
}.

(** What [parse_review_page] returns, and the record with its URL. *)
Record page_fields := mk_page_fields {
  page_title : str;
  page_date : option str;
  page_content_text : str
}.

Record scraped := mk_scraped {
  scraped_fields : page_fields;
  scraped_url : str
}.

(** [x in l], for the set [seen]. *)
Fixpoint mem (x : str) (l : list str) : bool :=
  match l with
  | [] => false
  | y :: l' => (if list_eq_dec N.eq_dec x y then true else false) || mem x l'
  end.

(** A link on the site that ends with [-review/]. *)
Definition review_link (href : str) : Prop :=
  prefixb BASE_URL href = true /\ endswith href (lit "-review/") = true.

Section Site.
(** The library and the site: [urlparse(href).path], which may raise;
    [urljoin(BASE_URL, href)]; the order in which [list(links)] lists a
    set, given the elements in the order of insertion; the list pages and
    review pages that [fetch_soup] gets, which may raise, and the fields
    that [parse_review_page] finds. *)
Variable urlparse_path : str -> result str.
Variable urljoin_base : str -> str.
Variable list_of_set : list str -> list str.
Variable fetch_list_page : str -> result list_soup.
Variable fetch_review_page : str -> result page_fields.

(** The test of the [if] in [parse_review_list_page]. *)
Definition is_review_link (href : str) : result bool :=
  if prefixb BASE_URL href then
    path <- urlparse_path href ;;
    Ok (negb (find path (lit "/20") =? -1)
        && endswith href (lit "-review/"))
  else Ok false.

(** The [for a in soup.find_all("a", href=True)] loop; [links] holds the
    elements of the set in the order of insertion. *)
Fixpoint collect_links (hrefs links : list str) : result (list str) :=
  match hrefs with
  | [] => Ok links
  | href :: hrefs' =>
      keep <- is_review_link href ;;
      collect_links hrefs'
        (if keep && negb (mem href links) then links ++ [href] else links)
  end.

(** [parse_review_list_page(soup)] *)
Definition parse_review_list_page (soup : list_soup)
    : result (list str * option str) :=
  links <- collect_links (anchors soup) [] ;;
  next_url <-
    match older_reviews soup with
    | None => Ok None
    | Some None => Raise (Exception (lit "'href'"))
    | Some (Some href) => Ok (Some (urljoin_base href))
    end ;;
  Ok (list_of_set links, next_url).

(** The [for link in review_links] loop. *)
Fixpoint scrape_links (links seen : list str) (all_reviews : list scraped)
    : result (list str * list scraped) :=
  match links with
  | [] => Ok (seen, all_reviews)
  | link :: links' =>
      if mem link seen then scrape_links links' seen all_reviews
      else
        rec <- fetch_review_page link ;;
        scrape_links links' (seen ++ [link])
                     (all_reviews ++ [mk_scraped rec link])
  end.

(** The [while next_page] loop of [scrape_all_reviews], at most [fuel]
    list pages; [None] when the fuel runs out. *)
Fixpoint scrape_pages (fuel : nat) (next_page : option str)
    (seen : list str) (all_reviews : list scraped)
    : option (result (list scraped)) :=
  match next_page with
  | None => Some (Ok all_reviews)
  | Some url =>
      if negb (truthy url) then Some (Ok all_reviews)
      else
        match fuel with
        | O => None
        | S fuel' =>
            match (list_soup <- fetch_list_page url ;;
                   parse_review_list_page list_soup) with
            | Raise e => Some (Raise e)
            | Ok (review_links, next_page') =>
                match scrape_links review_links seen all_reviews with
                | Raise e => Some (Raise e)
                | Ok (seen', all_reviews') =>
                    scrape_pages fuel' next_page' seen' all_reviews'
                end
            end
        end
  end.

Definition scrape_all_reviews (fuel : nat) : option (result (list scraped)) :=
  scrape_pages fuel (Some START_URL) [] [].

End Site.
End Scraper.

(** ** The chat endpoint ([app.py], [chat_endpoint]) *)

Module Endpoint.
Import Py Exc Answerer.

(** What [request.get_json()] gives for a request with a JSON content
    type: a dictionary with its ["message"] key ([None] when absent or
    [null]), another JSON value, or a body that does not parse. *)
Inductive json_body :=
| JsonDict (message : option str)
| JsonOther
| JsonMalformed.

Record request := mk_request {
  is_json : bool;
  get_json : json_body
}.

(** A response: [jsonify({key: text})] and the status. *)
Record response := mk_response {
  response_key : str;
  response_text : str;
  status : Z
}.

Section Chat.
Variable distance : Type.
Variable collection_query : str -> Z -> result (query_results distance).
Variable chat_completion : str -> str -> result (option str).
Variable print : str -> result unit.
Variable format_distance : distance -> str.

(** [chat_endpoint()]; the module global [collection] is set when the
    application serves. *)
Definition chat_endpoint (req : request) : result response :=
  if negb (is_json req)
  then Ok (mk_response (lit "error") (lit "Request must be JSON") 400)
  else
    match get_json req with
    | JsonMalformed => Raise (Exception (lit "400 Bad Request"))
    | JsonOther =>
        Raise (Exception (lit "object has no attribute 'get'"))
    | JsonDict user_message =>
        if negb (truthy (Builder.get user_message []))
        then Ok (mk_response (lit "error")
                   (lit "Missing 'message' field in request") 400)
        else
          bind (perform_rag distance collection_query chat_completion
                  print format_distance
                  true (Builder.get user_message []) 3)
               (fun llm_response =>
                  Ok (mk_response (lit "reply") llm_response 200))
    end.

End Chat.
End Endpoint.

(** ** A small site for the concrete runs of the scraper *)

Module ScraperInputs.
Import Py Exc Scraper.

Definition review_1 : str := BASE_URL ++ lit "/2023/07/lens-a-review/".
Definition review_2 : str := BASE_URL ++ lit "/2023/08/lens-b-review/".
Definition review_3 : str := BASE_URL ++ lit "/2022/01/lens-c-review/".
Definition about_page : str := BASE_URL ++ lit "/about/".
Definition page_2 : str := BASE_URL ++ lit "/category/photography-reviews/page/2/".

(** Stand-ins for the library on absolute URLs of the site: the path is
    what follows the base URL, and joining leaves the URL as it is. *)
Definition path_after_base (url : str) : result str :=
  Ok (skipn (length BASE_URL) url).

Definition join_absolute (href : str) : str := href.

Definition in_insertion_order (l : list str) : list str := l.

(** Two list pages: the first links review 1 twice, a page that is no
    review, and review 2; the second links review 2 again and review 3. *)
Definition site_list_page (url : str) : result list_soup :=
  if prefixb START_URL url && prefixb url START_URL
  then Ok (mk_list_soup [review_1; review_1; about_page; review_2]
                        (Some (Some page_2)))
  else if prefixb page_2 url && prefixb url page_2
  then Ok (mk_list_soup [review_2; review_3] None)
  else Raise (Exception (lit "404 Client Error")).

Definition site_review_page (url : str) : result page_fields :=
  Ok (mk_page_fields (lit "No Title") None (lit "Sharp.")).

End ScraperInputs.

(** ** Further predicates of the statements *)

Module MoreProps.
Import Py Cleaner Chunker Builder.

(** The entries that the pending lists describe, in order. *)
Definition entries_of (p : pending) : collection :=
  map (fun x => mk_entry (fst x) (fst (snd x)) (snd (snd x)))
      (combine (ids_to_add p)
               (combine (documents_to_add p) (metadatas_to_add p))).

(** The entries that one batch adds. *)
Definition batch_entries (b : list str * list metadata * list str)
    : collection :=
  let '(docs, metas, ids) := b in
  map (fun x => mk_entry (fst x) (fst (snd x)) (snd (snd x)))
      (combine ids (combine docs metas)).

(** The batches that the builder sends, from the three pending lists. *)
Definition pending_batches (p : pending)
    : list (list str * list metadata * list str) :=
  combine (combine (batches (documents_to_add p))
                   (batches (metadatas_to_add p)))
          (batches (ids_to_add p)).

(** The identifier that a metadata record spells out. *)
Definition id_of_metadata (m : metadata) : str :=
  lit "review_" ++ str_of_int (original_doc_index m) ++ lit "_chunk_"
    ++ str_of_int (chunk_num m).

(** The rows that one enumerated review adds to the pending lists. *)
Definition review_rows (ir : Z * review) : list (str * metadata * str) :=
  let (i, r) := ir in
  let content := get (content_text r) [] in
  if negb (truthy content) then []
  else map (fun jc : Z * str =>
              (snd jc,
               mk_metadata (get (url r) []) (get (title r) (lit "Unknown Title"))
                           (fst jc + 1) (i + 1),
               doc_id i (fst jc)))
           (enumerate (simple_chunker_default content)).

(** The number of characters [c] the text starts with. *)
Fixpoint run_of (c : cp) (s : str) : nat :=
  match s with
  | x :: s' => if (x =? c)%N then S (run_of c s') else O
  | [] => O
  end.

(** [run_ok c m j s]: [s] starts with at most [j] characters [c] and has
    at most [m] of them in a row after that. *)
Fixpoint run_ok (c : cp) (m j : nat) (s : str) : bool :=
  match s with
  | [] => true
  | x :: s' =>
      if (x =? c)%N
      then match j with O => false | S j' => run_ok c m j' s' end
      else run_ok c m m s'
  end.

End MoreProps.

Module ScriptProps.
Import Py Exc Cleaner Script.

(** The record that an element of the input leaves in the output, if
    any. *)
Definition kept {U : Unicode} {D : Digits}
    (urlparse_path : str -> result str) (str_title : str -> str)
    (e : element) : list cleaned_item :=
  match e with
  | Dict it =>
      match clean_item urlparse_path str_title it with
      | Some c => [c]
      | None => []
      end
  | NotDict => []
  end.

(** The form [YYYY-MM]: four decimal digits, a hyphen, two ASCII
    digits. *)
Definition year_month {U : Unicode} (d : str) : Prop :=
  exists year m1 m2,
    d = year ++ lit "-" ++ [m1; m2]
    /\ length year = 4%nat
    /\ Forall (fun c => is_decimal c = true) year
    /\ ascii_digit m1 = true /\ ascii_digit m2 = true.

(** A path that stands for itself, and a title left as it is: stand-ins
    for the two library functions in the concrete runs. *)
Definition path_is_url (url : str) : result str := Ok url.
Definition title_as_is (s : str) : str := s.

Definition sample_data : list element :=
  [Dict (mk_item (Some (Str (lit "Great lens. Sharp wide open.")))
                 (Some (Str (lit "/2023/7/great-lens-review/"))) None None);
   NotDict;
   Dict (mk_item (Some (Str (lit "   "))) (Some (Str (lit "/2023/8/blank/")))
                 None None);
   Dict (mk_item (Some (Str (lit "Soft corners.")))
                 (Some Null) (Some (Str (lit " Lens B ")))
                 (Some (Str (lit "2021-05-01"))));
   Dict (mk_item (Some Null) (Some (Str (lit "/2023/9/no-text-review/")))
                 None (Some Null))].

End ScriptProps.

Module AnswererProps.
Import Py Exc Answerer.

(** The hits that go into the context: the triples of
    [zip(context_chunks, metadatas, distances)]. *)
Definition hits_of {distance : Type} (results : query_results distance)
    : list (str * option hit_metadata * distance) :=
  zip3 (first_or_empty (documents _ results))
       (first_or_empty (metadatas _ results))
       (first_or_empty (distances _ results)).

(** The block of the context for a hit that has metadata. *)
Definition context_block {distance : Type}
    (h : str * option hit_metadata * distance) : str :=
  lit "Source: "
  ++ match snd (fst h) with
     | Some m => Builder.get (hit_title m) (lit "N/A")
     | None => []
     end
  ++ [newline] ++ lit "Content:" ++ [newline] ++ fst (fst h).

(** The context made of the result of a query: the sentence for no
    document, or the blocks of the hits. *)
Definition context_of {distance : Type} (results : query_results distance)
    : str :=
  match first_or_empty (documents _ results) with
  | [] => no_context
  | _ :: _ => join delimiter (map context_block (hits_of results))
  end.

Section Console.
Variable distance : Type.
Variable print : str -> result unit.
Variable format_distance : distance -> str.

(** The console takes each of the texts. *)
Definition printed (lines : list str) : Prop :=
  Forall (fun l => print l = Ok tt) lines.

(** The prints of the loop for one hit. *)
Definition hit_prints (ih : Z * (str * option hit_metadata * distance))
    : list str :=
  chunk_line (fst ih)
  :: match snd (fst (snd ih)) with
     | Some m => hit_lines distance format_distance
                   (fst (fst (snd ih))) m (snd (snd ih))
     | None => []
     end.

(** What a call prints when nothing raises and the chat completion
    returns [content]: the two lines before the [try] block, the lines of
    the retrieval, of the prompt and of the response. *)
Definition retrieval_prints (results : query_results distance) : list str :=
  retrieval_line
  :: match first_or_empty (documents _ results) with
     | [] => [no_documents_line]
     | _ :: _ =>
         retrieved_line
           (Z.of_nat (length (first_or_empty (documents _ results))))
         :: flat_map hit_prints (Builder.enumerate (hits_of results))
     end
  ++ [end_context_line].

Definition run_prints (query : str) (results : query_results distance)
    (content : option str) : list str :=
  started_line :: query_line query
  :: retrieval_prints results
  ++ prompt_lines (context_of results) query
  ++ response_lines content.

(** The three prints that no handler protects succeed: the two before the
    [try] block, and the one of the handler for the exception that the
    block raises, if it raises one. *)
Definition unprotected_prints_ok
    (collection_query : str -> Z -> result (query_results distance))
    (chat_completion : str -> str -> result (option str))
    (query : str) (n_results : Z) : Prop :=
  print started_line = Ok tt
  /\ print (query_line query) = Ok tt
  /\ forall e,
       rag_body distance collection_query chat_completion print
         format_distance query n_results = Raise e ->
       print (error_line e) = Ok tt.

End Console.

(** A query result with one hit that has no metadata, and one with two
    hits, the second without title. *)
Definition no_metadata_results : query_results Z :=
  mk_results Z [[lit "Sharp wide open."]] [[None]] [[1]].

Definition hit_no_metadata (_ : str) (_ : Z) : result (query_results Z) :=
  Ok no_metadata_results.

Definition two_hits_results : query_results Z :=
  mk_results Z
    [[lit "Sharp wide open."; lit "Soft corners."]]
    [[Some (mk_hit_metadata (Some (lit "Lens A")) None);
      Some (mk_hit_metadata None None)]]
    [[1; 2]].

Definition two_hits (_ : str) (_ : Z) : result (query_results Z) :=
  Ok two_hits_results.

Definition echo_model (_ user : str) : result (option str) :=
  Ok (Some user).

End AnswererProps.

(** * Properties *)

(** ** Facts about the string primitives *)

Module PyFacts.
Import Py Props.

Lemma len_nonneg (s : str) : 0 <= len s.
Proof. unfold len. lia. Qed.

Lemma len_app (s t : str) : len (s ++ t) = len s + len t.
Proof. unfold len. rewrite length_app. lia. Qed.

Lemma truthy_true (s : str) : truthy s = true <-> s <> [].
Proof. destruct s; simpl; split; congruence. Qed.

Lemma truthy_false (s : str) : truthy s = false <-> s = [].
Proof. destruct s; simpl; split; congruence. Qed.

(** *** Stripping *)

(** [lstrip] drops a blank prefix and stops at a character that is not
    white space. *)
Lemma lstrip_split (s : str) :
  exists pre, s = pre ++ lstrip s /\ forallb isspace pre = true.
Proof.
  induction s as [|c s IH]; simpl.
  - exists []. auto.
  - destruct (isspace c) eqn:E.
    + destruct IH as [pre [H1 H2]]. exists (c :: pre). simpl.
      rewrite E, <- H1. auto.
    + exists []. auto.
Qed.

Lemma lstrip_head (s : str) :
  match lstrip s with
  | [] => True
  | c :: _ => isspace c = false
  end.
Proof.
  induction s as [|c s IH]; simpl; auto.
  destruct (isspace c) eqn:E; auto.
Qed.

Lemma lstrip_fixed (s : str) :
  match s with [] => True | c :: _ => isspace c = false end -> lstrip s = s.
Proof. destruct s as [|c s]; simpl; auto. intros ->. reflexivity. Qed.

Lemma lstrip_blank (s : str) : forallb isspace s = true -> lstrip s = [].
Proof.
  induction s as [|c s IH]; simpl; auto.
  intros H. apply andb_prop in H as [-> H]. auto.
Qed.

Lemma lstrip_app_keep (s t : str) :
  lstrip s <> [] -> lstrip (s ++ t) = lstrip s ++ t.
Proof.
  induction s as [|c s IH]; simpl; [congruence|].
  destruct (isspace c); auto.
Qed.

Lemma lstrip_nil_blank (s : str) : lstrip s = [] -> forallb isspace s = true.
Proof.
  induction s as [|c s IH]; simpl; auto.
  destruct (isspace c); [auto | discriminate].
Qed.

(** The text is its stripped form between two blank margins. *)
Lemma strip_split (s : str) :
  exists pre post,
    s = pre ++ strip s ++ post
    /\ forallb isspace pre = true /\ forallb isspace post = true.
Proof.
  unfold strip, rstrip.
  destruct (lstrip_split s) as [pre [H1 H2]].
  destruct (lstrip_split (rev (lstrip s))) as [q [H3 H4]].
  exists pre, (rev q). repeat split; auto.
  - rewrite H1 at 1. f_equal.
    rewrite <- rev_app_distr, <- H3, rev_involutive. reflexivity.
  - rewrite forallb_forall in *. intros x Hx. apply H4.
    now apply in_rev.
Qed.

Lemma strip_length (s : str) : (length (strip s) <= length s)%nat.
Proof.
  destruct (strip_split s) as [pre [post [H _]]].
  rewrite H at 2. rewrite !length_app. lia.
Qed.

Lemma strip_len (s : str) : len (strip s) <= len s.
Proof. unfold len. pose proof (strip_length s). lia. Qed.

(** A text with a character that is not white space strips to a non-empty
    text. *)
Lemma strip_truthy (s : str) (c : cp) :
  In c s -> isspace c = false -> truthy (strip s) = true.
Proof.
  intros Hin Hc. apply truthy_true. intros E.
  destruct (strip_split s) as [pre [post [H [H1 H2]]]].
  rewrite E in H. simpl in H. rewrite H in Hin.
  apply in_app_or in Hin. rewrite forallb_forall in H1, H2.
  destruct Hin as [Hin|Hin]; [apply H1 in Hin | apply H2 in Hin]; congruence.
Qed.

(** The first and the last character of a stripped text are not white
    space. *)
Lemma rstrip_last (s : str) :
  match rev (rstrip s) with [] => True | c :: _ => isspace c = false end.
Proof. unfold rstrip. rewrite rev_involutive. apply lstrip_head. Qed.

Lemma lstrip_app_blank (s t : str) :
  forallb isspace s = true -> lstrip (s ++ t) = lstrip t.
Proof.
  induction s as [|c s IH]; simpl; auto.
  intros H. apply andb_prop in H as [-> H]. auto.
Qed.

Lemma rstrip_head (s : str) :
  match s with [] => True | c :: _ => isspace c = false end ->
  match rstrip s with [] => True | c :: _ => isspace c = false end.
Proof.
  unfold rstrip. destruct s as [|c s]; simpl; auto. intros Hc.
  destruct (lstrip (rev s)) as [|d r] eqn:E.
  - apply lstrip_nil_blank in E.
    rewrite lstrip_app_blank by exact E. simpl. rewrite Hc. exact Hc.
  - rewrite lstrip_app_keep by congruence.
    rewrite E, rev_app_distr. simpl. exact Hc.
Qed.

Lemma strip_trimmed (s : str) : trimmed (strip s).
Proof.
  split.
  - unfold strip. apply rstrip_head, lstrip_head.
  - unfold strip. apply rstrip_last.
Qed.

Lemma strip_fixed (s : str) : trimmed s -> strip s = s.
Proof.
  intros [H1 H2]. unfold strip, rstrip.
  rewrite (lstrip_fixed s H1), (lstrip_fixed (rev s) H2).
  apply rev_involutive.
Qed.

(** *** Slices and searches *)

Lemma clip_range (n i : Z) : 0 <= n -> 0 <= clip n i <= n.
Proof. unfold clip. destruct (Z.ltb_spec i 0); lia. Qed.

Lemma clip_id (n i : Z) : 0 <= i <= n -> clip n i = i.
Proof. unfold clip. destruct (Z.ltb_spec i 0); lia. Qed.

Lemma slice_inner (s : str) (a b : Z) :
  0 <= a <= len s -> 0 <= b <= len s ->
  slice s a b = firstn (Z.to_nat (b - a)) (skipn (Z.to_nat a) s).
Proof. intros Ha Hb. unfold slice. rewrite !clip_id by lia. reflexivity. Qed.

Lemma slice_prefix (s : str) (p : Z) :
  0 <= p <= len s -> slice s 0 p = firstn (Z.to_nat p) s.
Proof.
  intros Hp. rewrite slice_inner by (pose proof (len_nonneg s); lia).
  simpl. f_equal. lia.
Qed.

Lemma slice_full (s : str) : slice s 0 (len s) = s.
Proof.
  rewrite slice_prefix by (pose proof (len_nonneg s); lia).
  unfold len. rewrite Nat2Z.id. apply firstn_all.
Qed.

(** A character of the text at an index inside the window is a character
    of the slice. *)
Lemma slice_covers (s : str) (a b : Z) (i : nat) (c : cp) :
  0 <= a <= Z.of_nat i -> Z.of_nat i < b <= len s ->
  nth_error s i = Some c -> In c (slice s a b).
Proof.
  intros Ha Hb Hc. rewrite slice_inner by lia.
  apply nth_error_In with (n := (i - Z.to_nat a)%nat).
  rewrite nth_error_firstn.
  destruct (Nat.ltb_spec (i - Z.to_nat a) (Z.to_nat (b - a))); [|lia].
  rewrite nth_error_skipn. rewrite <- Hc. f_equal. lia.
Qed.

Lemma rfind_from_bounds (sub s : str) (i lo hi best : Z) :
  let r := rfind_from sub s i lo hi best in
  r = best \/ (lo <= r <= hi).
Proof.
  revert i best. induction s as [|c s IH]; intros i best; simpl.
  - destruct (Z.leb_spec lo i), (Z.leb_spec i hi), (prefixb sub []);
      simpl; auto; right; lia.
  - match goal with
    | |- context [rfind_from sub s (i + 1) lo hi ?b] =>
        destruct (IH (i + 1) b) as [H|H]; [|now right]; rewrite H
    end.
    destruct (Z.leb_spec lo i), (Z.leb_spec i hi), (prefixb sub (c :: s));
      simpl; auto; right; lia.
Qed.

(** [rfind] answers [-1] or an index in the searched range. *)
Lemma rfind_bounds (s sub : str) (start stop : Z) :
  let r := rfind s sub start stop in
  r = -1 \/ (clip (len s) start <= r /\ r + len sub <= clip (len s) stop).
Proof.
  unfold rfind.
  destruct (rfind_from_bounds sub s 0 (clip (len s) start)
              (clip (len s) stop - len sub) (-1)) as [H|H]; [now left|].
  right. lia.
Qed.

End PyFacts.

(** ** The chunker *)

Module ChunkerFacts.
Import Py PyFacts Chunker Inputs.

Section Loop.
Variable text : str.
Variables max_chars overlap : Z.

Lemma while_loop_unfold (fuel : nat) (st : loop_state) :
  while_loop text max_chars overlap (S fuel) st =
  if current_pos st <? len text then
    if snd (loop_body text max_chars overlap st)
    then Some (fst (loop_body text max_chars overlap st))
    else while_loop text max_chars overlap fuel
           (fst (loop_body text max_chars overlap st))
  else Some st.
Proof.
  simpl. destruct (current_pos st <? len text); auto.
Qed.

(** The cursor moves forward in every iteration. *)
Lemma loop_body_advances (st : loop_state) :
  current_pos st + 1 <= current_pos (fst (loop_body text max_chars overlap st)).
Proof. unfold loop_body. simpl. lia. Qed.

(** The loop ends within the iterations that the distance of the cursor to
    the end of the text allows. *)
Lemma while_loop_returns (fuel : nat) (st : loop_state) :
  Z.max 0 (len text - current_pos st) < Z.of_nat fuel ->
  exists st', while_loop text max_chars overlap fuel st = Some st'.
Proof.
  revert st. induction fuel as [|fuel IH]; intros st Hf; [lia|].
  rewrite while_loop_unfold.
  destruct (Z.ltb_spec (current_pos st) (len text)) as [Hlt|Hge]; [|eauto].
  pose proof (loop_body_advances st) as Hadv.
  destruct (snd (loop_body text max_chars overlap st)); [eauto|].
  apply IH. lia.
Qed.

(** More fuel does not change the result. *)
Lemma while_loop_more_fuel (fuel k : nat) (st st' : loop_state) :
  while_loop text max_chars overlap fuel st = Some st' ->
  while_loop text max_chars overlap (fuel + k) st = Some st'.
Proof.
  revert st. induction fuel as [|fuel IH]; intros st; [discriminate|].
  change (S fuel + k)%nat with (S (fuel + k)). rewrite !while_loop_unfold.
  destruct (current_pos st <? len text); auto.
  destruct (snd (loop_body text max_chars overlap st)); auto.
Qed.

(** C1. [simple_chunker] terminates on every text and for every
    [max_chars] and [overlap]: an iteration of its loop moves the cursor
    forward by at least one character, and [len(text) + 1] iterations (or
    any larger number) end the loop and give the chunks of
    [simple_chunker]. *)
Theorem simple_chunker_terminates :
  (forall st : loop_state,
      current_pos st < current_pos (fst (loop_body text max_chars overlap st)))
  /\ (forall k : nat,
         simple_chunker_fuel text max_chars overlap (S (length text) + k)
         = Some (simple_chunker text max_chars overlap)).
Proof.
  split.
  - intros st. pose proof (loop_body_advances st). lia.
  - intros k. unfold simple_chunker, simple_chunker_fuel.
    destruct (while_loop_returns (S (length text)) (mk_state [] 0))
      as [st' Hst'].
    + simpl current_pos. unfold len. lia.
    + rewrite (while_loop_more_fuel _ k _ _ Hst'), Hst'. reflexivity.
Qed.

(** *** Windows *)

Lemma windows_from_unfold (fuel : nat) (pos : Z) :
  windows_from text max_chars overlap (S fuel) pos =
  if pos <? len text then
    (pos, window_end text max_chars overlap pos) ::
      (if snd (loop_body text max_chars overlap (mk_state [] pos)) then []
       else windows_from text max_chars overlap fuel
              (current_pos
                 (fst (loop_body text max_chars overlap (mk_state [] pos)))))
  else [].
Proof. reflexivity. Qed.

Lemma loop_body_pos (cs : list str) (pos : Z) :
  current_pos (fst (loop_body text max_chars overlap (mk_state cs pos)))
  = current_pos (fst (loop_body text max_chars overlap (mk_state [] pos)))
  /\ snd (loop_body text max_chars overlap (mk_state cs pos))
     = snd (loop_body text max_chars overlap (mk_state [] pos)).
Proof. split; reflexivity. Qed.

Lemma loop_body_chunks (cs : list str) (pos : Z) :
  filter truthy
    (chunks (fst (loop_body text max_chars overlap (mk_state cs pos))))
  = filter truthy cs
    ++ map (chunk_of text)
         (filter (fun w => truthy (chunk_of text w))
                 [(pos, window_end text max_chars overlap pos)]).
Proof.
  unfold loop_body, chunk_of. simpl.
  destruct (truthy (strip (slice text pos (window_end text max_chars overlap pos))))
    eqn:E.
  - rewrite filter_app. simpl. rewrite E. reflexivity.
  - simpl. now rewrite app_nil_r.
Qed.

(** The chunks the loop holds at its end are the chunks of the windows it
    went through, without the empty ones. *)
Lemma while_loop_chunks (fuel : nat) (cs : list str) (pos : Z)
    (st' : loop_state) :
  while_loop text max_chars overlap fuel (mk_state cs pos) = Some st' ->
  filter truthy (chunks st')
  = filter truthy cs
    ++ map (chunk_of text)
         (filter (fun w => truthy (chunk_of text w))
                 (windows_from text max_chars overlap fuel pos)).
Proof.
  revert cs pos. induction fuel as [|fuel IH]; intros cs pos; [discriminate|].
  rewrite while_loop_unfold, windows_from_unfold. simpl current_pos.
  destruct (pos <? len text).
  - destruct (loop_body_pos cs pos) as [Hp Hb]. rewrite Hb.
    pose proof (loop_body_chunks cs pos) as Hc.
    destruct (snd (loop_body text max_chars overlap (mk_state [] pos))).
    + intros [= <-]. exact Hc.
    + destruct (fst (loop_body text max_chars overlap (mk_state cs pos)))
        as [cs1 pos1] eqn:E.
      simpl in Hp, Hc. intros H. apply IH in H. rewrite H, Hc, <- Hp.
      rewrite <- app_assoc, <- map_app.
      match goal with
      | |- context [filter ?f (?w :: ?ws)] =>
          change (filter f (w :: ws)) with (filter f ([w] ++ ws));
          rewrite (filter_app f [w] ws)
      end.
      reflexivity.
  - intros [= <-]. simpl. now rewrite app_nil_r.
Qed.

Lemma simple_chunker_windows :
  simple_chunker text max_chars overlap
  = map (chunk_of text) (emitted_windows text max_chars overlap).
Proof.
  unfold simple_chunker, simple_chunker_fuel, emitted_windows, windows.
  destruct (while_loop_returns (S (length text)) (mk_state [] 0))
    as [st' Hst'].
  - simpl current_pos. unfold len. lia.
  - rewrite Hst'. now rewrite (while_loop_chunks _ _ _ _ Hst').
Qed.

(** A window starts at the cursor, is not empty and stays inside the
    text. *)
Lemma window_end_bounds (pos : Z) :
  0 < max_chars -> 0 <= overlap -> 0 <= pos < len text ->
  pos < window_end text max_chars overlap pos <= len text.
Proof.
  intros Hm Ho Hp. unfold window_end.
  set (e := Z.min (pos + max_chars) (len text)).
  assert (He : pos < e <= len text) by (unfold e; lia).
  assert (Hc : clip (len text) e = e) by (apply clip_id; lia).
  destruct (Z.gtb_spec (rfind text [newline; newline] pos e) (pos + overlap))
    as [H1|H1].
  - destruct (rfind_bounds text [newline; newline] pos e) as [B|[_ B]];
      [lia|]. rewrite Hc in B. unfold len in B at 1. simpl in B. lia.
  - destruct (Z.gtb_spec (rfind text [period] pos e) (pos + overlap))
      as [H2|H2]; [|lia].
    destruct (rfind_bounds text [period] pos e) as [B|[_ B]]; [lia|].
    rewrite Hc in B. unfold len in B at 1. simpl in B. lia.
Qed.

(** The windows leave no gap: every index from the cursor on is inside
    one of them. *)
Lemma windows_from_cover (fuel : nat) (pos i : Z) :
  0 < max_chars -> 0 <= overlap ->
  0 <= pos -> len text - pos < Z.of_nat fuel -> pos <= i < len text ->
  exists w, In w (windows_from text max_chars overlap fuel pos)
            /\ 0 <= fst w <= i /\ i < snd w <= len text.
Proof.
  intros Hm Ho. revert pos.
  induction fuel as [|fuel IH]; intros pos Hp Hf Hi; [lia|].
  rewrite windows_from_unfold.
  destruct (Z.ltb_spec pos (len text)) as [Hlt|Hge]; [|lia].
  pose proof (window_end_bounds pos Hm Ho (conj Hp Hlt)) as Hw.
  destruct (Z.lt_ge_cases i (window_end text max_chars overlap pos))
    as [Hin|Hout].
  - exists (pos, window_end text max_chars overlap pos). simpl.
    repeat split; auto; lia.
  - unfold loop_body at 1. simpl snd. simpl current_pos.
    destruct (Z.eqb_spec (window_end text max_chars overlap pos) (len text))
      as [He|Hne]; [lia|].
    rewrite andb_false_r.
    destruct (IH (current_pos
                    (fst (loop_body text max_chars overlap (mk_state [] pos)))))
      as [w [Hw1 Hw2]].
    + unfold loop_body. simpl. lia.
    + unfold loop_body. simpl. lia.
    + unfold loop_body. simpl. lia.
    + exists w. split; [now right | exact Hw2].
Qed.

Lemma windows_cover (i : Z) :
  0 < max_chars -> 0 <= overlap -> 0 <= i < len text ->
  exists w, In w (windows text max_chars overlap)
            /\ 0 <= fst w <= i /\ i < snd w <= len text.
Proof.
  intros Hm Ho Hi. unfold windows.
  apply windows_from_cover; auto; unfold len; lia.
Qed.

(** C5, as amended. For [max_chars >= 1] and [overlap >= 0]: the chunks
    returned are the trimmed texts of the windows the loop goes through,
    the windows that are blank giving no chunk; the windows cover every
    index of the text; and every character that is not white space lies in
    the window of a chunk that is returned. *)
Theorem chunks_cover_text :
  0 < max_chars -> 0 <= overlap ->
  simple_chunker text max_chars overlap
  = map (chunk_of text) (emitted_windows text max_chars overlap)
  /\ (forall i : Z, 0 <= i < len text ->
        exists w, In w (windows text max_chars overlap)
                  /\ fst w <= i < snd w)
  /\ (forall (i : nat) (c : cp),
        nth_error text i = Some c -> isspace c = false ->
        exists w, In w (emitted_windows text max_chars overlap)
                  /\ fst w <= Z.of_nat i < snd w).
Proof.
  intros Hm Ho. split; [apply simple_chunker_windows|]. split.
  - intros i Hi. destruct (windows_cover i Hm Ho Hi) as [w [H1 H2]].
    exists w. split; auto. lia.
  - intros i c Hc Hs.
    assert (Hi : 0 <= Z.of_nat i < len text).
    { unfold len. assert (i < length text)%nat; [|lia].
      apply nth_error_Some. congruence. }
    destruct (windows_cover _ Hm Ho Hi) as [w [H1 H2]].
    exists w. split; [|lia].
    unfold emitted_windows. apply filter_In. split; auto.
    unfold chunk_of. apply strip_truthy with (c := c); auto.
    apply slice_covers with (i := i); auto; lia.
Qed.

(** The first iteration on a text whose first window runs to the end. *)
Lemma single_window :
  text <> [] -> window_end text max_chars overlap 0 = len text ->
  simple_chunker text max_chars overlap = filter truthy [strip text].
Proof.
  intros Hne He. unfold simple_chunker, simple_chunker_fuel.
  rewrite while_loop_unfold. simpl current_pos.
  assert (Hl : 0 < len text).
  { unfold len. destruct text; [congruence | simpl; lia]. }
  destruct (Z.ltb_spec 0 (len text)); [|lia].
  unfold loop_body. simpl current_pos. simpl snd. simpl fst.
  rewrite He, Z.eqb_refl, andb_true_r.
  match goal with
  | |- context [?a <=? Z.max ?b ?a] =>
      replace (a <=? Z.max b a) with true by (symmetry; apply Z.leb_le; lia)
  end.
  rewrite slice_full. simpl chunks.
  destruct (truthy (strip text)) eqn:E; simpl; rewrite ?E; reflexivity.
Qed.

(** C4, as amended. A text shorter than [max_chars] that has a character
    other than white space, and whose first window runs to the end of the
    text (the last paragraph break beyond [overlap], or else the last
    period beyond [overlap], if there is one, ends the text), gives
    exactly one chunk, the trimmed text; the empty text gives no chunk. *)
Theorem short_text_one_chunk :
  text <> [] -> len text < max_chars ->
  truthy (strip text) = true ->
  window_end text max_chars overlap 0 = len text ->
  simple_chunker text max_chars overlap = [strip text]
  /\ simple_chunker [] max_chars overlap = [].
Proof.
  intros Hne Hlen Hs He. split; [|reflexivity].
  rewrite single_window; auto. simpl. now rewrite Hs.
Qed.

(** Where the first window of a text shorter than [max_chars] ends: after
    the last paragraph break when it lies beyond [overlap], or else after
    the last period when that lies beyond [overlap], or else at the end of
    the text. *)
Lemma short_text_window :
  len text < max_chars ->
  window_end text max_chars overlap 0
  = if rfind text [newline; newline] 0 (len text) >? overlap
    then rfind text [newline; newline] 0 (len text) + 2
    else if rfind text [period] 0 (len text) >? overlap
         then rfind text [period] 0 (len text) + 1
         else len text.
Proof.
  intros Hlen. unfold window_end.
  replace (Z.min (0 + max_chars) (len text)) with (len text) by lia.
  reflexivity.
Qed.

End Loop.

(** *** Concrete runs *)

Lemma short_text_one_chunk_witness :
  one_sentence <> [] /\ len one_sentence < 1800
  /\ truthy (strip one_sentence) = true
  /\ window_end one_sentence 1800 200 0 = len one_sentence
  /\ simple_chunker one_sentence 1800 200 = [strip one_sentence].
Proof.
  assert (H1 : one_sentence <> []) by discriminate.
  assert (H2 : len one_sentence < 1800) by (vm_compute; reflexivity).
  assert (H3 : truthy (strip one_sentence) = true)
    by (vm_compute; reflexivity).
  assert (H4 : window_end one_sentence 1800 200 0 = len one_sentence)
    by (vm_compute; reflexivity).
  exact (conj H1 (conj H2 (conj H3 (conj H4
           (proj1 (short_text_one_chunk one_sentence 1800 200
                     H1 H2 H3 H4)))))).
Defined.

(** A text without period and without paragraph break is one window. *)
Example great_lens_one_chunk :
  simple_chunker great_lens 1800 200 = [great_lens].
Proof. vm_compute. reflexivity. Qed.

(** C4 fails as stated: a text of one space is not empty and shorter than
    [max_chars] but gives no chunk, and a text of 602 characters with a
    paragraph break at offset 300 gives two chunks. *)
Lemma short_text_counterexample :
  ([32%N] <> [] /\ len [32%N] < 1800
   /\ simple_chunker [32%N] 1800 200 = [])
  /\ (two_paragraphs <> [] /\ len two_paragraphs < 1800
      /\ length (simple_chunker two_paragraphs 1800 200) = 2%nat).
Proof.
  repeat split; try discriminate; vm_compute; reflexivity.
Qed.

Lemma chunks_cover_text_witness :
  0 < 1800 /\ 0 <= 200
  /\ simple_chunker blank_tail 1800 200
     = map (chunk_of blank_tail) (emitted_windows blank_tail 1800 200).
Proof.
  assert (H1 : 0 < 1800) by reflexivity.
  assert (H2 : 0 <= 200) by discriminate.
  exact (conj H1 (conj H2
           (proj1 (chunks_cover_text blank_tail 1800 200 H1 H2)))).
Defined.

(** C5 fails as stated: with the default parameters, offset 1900 of a
    letter followed by 2000 spaces is in the window of no returned chunk
    (the window that contains it is blank and gives no chunk); and with a
    negative [overlap] the windows themselves leave a gap. *)
Lemma coverage_counterexample :
  (0 <= 1900 < len blank_tail
   /\ simple_chunker blank_tail 1800 200 = [lit "a"]
   /\ ~ exists w, In w (emitted_windows blank_tail 1800 200)
                  /\ fst w <= 1900 < snd w)
  /\ (0 <= 2 < len (lit "abcdef")
      /\ ~ exists w, In w (windows (lit "abcdef") 2 (-2))
                     /\ fst w <= 2 < snd w).
Proof.
  split; split.
  - vm_compute. split; [discriminate | reflexivity].
  - split; [vm_compute; reflexivity|].
    intros [w [Hw Hi]].
    assert (E : emitted_windows blank_tail 1800 200 = [(0, 1800)])
      by (vm_compute; reflexivity).
    rewrite E in Hw. destruct Hw as [<-|[]]. simpl in Hi. lia.
  - vm_compute. split; [discriminate | reflexivity].
  - intros [w [Hw Hi]].
    assert (E : windows (lit "abcdef") 2 (-2) = [(0, 1); (3, 5)])
      by (vm_compute; reflexivity).
    rewrite E in Hw. destruct Hw as [<-|[<-|[]]]; simpl in Hi; lia.
Qed.

End ChunkerFacts.

(** ** The corpus builder *)

Module BuilderFacts.
Import Py PyFacts Exc Chunker Builder Props Inputs.

(** *** Identifiers *)

Lemma lit_inj (s t : string) : lit s = lit t -> s = t.
Proof.
  unfold lit. intros H.
  rewrite <- (string_of_list_ascii_of_string s),
          <- (string_of_list_ascii_of_string t).
  f_equal. revert H.
  generalize (list_ascii_of_string s) (list_ascii_of_string t).
  induction l as [|a l IH]; intros [|b m]; simpl; try discriminate; auto.
  intros [= Hab Hlm]. f_equal; auto.
  rewrite <- (ascii_N_embedding a), <- (ascii_N_embedding b). now f_equal.
Qed.

Lemma lit_append (s t : string) : lit (s ++ t) = lit s ++ lit t.
Proof.
  unfold lit. induction s as [|a s IH]; simpl; auto. now rewrite IH.
Qed.

(** [str(n)] determines [n]. *)
Lemma str_of_int_inj (a b : Z) : str_of_int a = str_of_int b -> a = b.
Proof.
  unfold str_of_int. intros H. apply lit_inj in H.
  apply DecimalZ.to_int_inj.
  pose proof (DecimalString.NilEmpty.isi (Z.to_int a)) as Ha.
  pose proof (DecimalString.NilEmpty.isi (Z.to_int b)) as Hb.
  rewrite H in Ha. congruence.
Qed.

Lemma uint_no_underscore (d : Decimal.uint) :
  ~ In underscore (lit (DecimalString.NilEmpty.string_of_uint d)).
Proof.
  induction d; cbn; try tauto; (intros [H|H]; [discriminate H | auto]).
Qed.

(** The decimal form of an integer has no underscore. *)
Lemma str_of_int_no_underscore (n : Z) : ~ In underscore (str_of_int n).
Proof.
  unfold str_of_int. destruct (Z.to_int n) as [d|d]; simpl.
  - apply uint_no_underscore.
  - intros [H|H]; [discriminate H | now apply uint_no_underscore in H].
Qed.

(** Two texts cut at their first underscore agree part by part. *)
Lemma split_at_underscore (a b c d : str) :
  ~ In underscore a -> ~ In underscore c ->
  a ++ underscore :: b = c ++ underscore :: d -> a = c /\ b = d.
Proof.
  revert c. induction a as [|x a IH]; intros [|y c] Ha Hc H; simpl in *.
  - injection H as ->. auto.
  - injection H as <- _. exfalso. auto.
  - injection H as -> _. exfalso. auto.
  - injection H as -> H. destruct (IH c) as [-> ->]; auto.
Qed.

(** Distinct pairs of indices give distinct identifiers. *)
Lemma doc_id_inj (i j i' j' : Z) :
  doc_id i j = doc_id i' j' -> i = i' /\ j = j'.
Proof.
  unfold doc_id. intros H. apply app_inv_head in H.
  change (lit "_chunk_") with (underscore :: lit "chunk_") in H.
  simpl app in H.
  apply split_at_underscore in H; auto using str_of_int_no_underscore.
  destruct H as [H1 H2]. injection H2 as H2.
  apply str_of_int_inj in H1, H2. lia.
Qed.

(** *** The identifiers of a build *)

Lemma add_chunk_ids (i : Z) (u t : str) (l : list (Z * str)) (acc : pending) :
  ids_to_add (fold_left (add_chunk i u t) l acc)
  = ids_to_add acc ++ map (fun jc => pair_id (i, fst jc)) l.
Proof.
  revert acc. induction l as [|[j c] l IH]; intros acc; simpl.
  - now rewrite app_nil_r.
  - rewrite IH. simpl. now rewrite <- app_assoc.
Qed.

Lemma add_review_ids (acc : pending) (ir : Z * review) :
  ids_to_add (add_review acc ir)
  = ids_to_add acc ++ map pair_id (review_pairs ir).
Proof.
  destruct ir as [i r]. unfold add_review, review_pairs. simpl.
  destruct (truthy (get (content_text r) [])); simpl.
  - rewrite add_chunk_ids, map_map. reflexivity.
  - now rewrite app_nil_r.
Qed.

Lemma collect_ids (l : list (Z * review)) (acc : pending) :
  ids_to_add (fold_left add_review l acc)
  = ids_to_add acc ++ map pair_id (flat_map review_pairs l).
Proof.
  revert acc. induction l as [|ir l IH]; intros acc; simpl.
  - now rewrite app_nil_r.
  - rewrite IH, add_review_ids, map_app, app_assoc. reflexivity.
Qed.

Lemma enumerate_from_ge {A : Type} (k i : Z) (x : A) (l : list A) :
  In (i, x) (enumerate_from k l) -> k <= i.
Proof.
  revert k. induction l as [|a l IH]; intros k; simpl; [tauto|].
  intros [[= <- _]|H]; [lia|]. apply IH in H. lia.
Qed.

Lemma enumerate_from_NoDup {A : Type} (k : Z) (l : list A) :
  NoDup (map fst (enumerate_from k l)).
Proof.
  revert k. induction l as [|a l IH]; intros k; simpl; constructor; auto.
  intros H. apply in_map_iff in H as [[i x] [E H]]. simpl in E. subst i.
  apply enumerate_from_ge in H. lia.
Qed.

Lemma review_pairs_fst (i : Z) (r : review) (p : Z * Z) :
  In p (review_pairs (i, r)) -> fst p = i.
Proof.
  unfold review_pairs. simpl.
  destruct (negb (truthy (get (content_text r) []))); simpl; [tauto|].
  intros H. apply in_map_iff in H as [jc [<- _]]. reflexivity.
Qed.

Lemma review_pairs_NoDup (ir : Z * review) : NoDup (review_pairs ir).
Proof.
  unfold review_pairs.
  destruct (negb (truthy (get (content_text (snd ir)) []))); [constructor|].
  generalize (simple_chunker_default (get (content_text (snd ir)) [])).
  intros cs. unfold enumerate.
  pose proof (enumerate_from_NoDup 0 cs) as H. revert H.
  generalize (enumerate_from 0 cs). intros l.
  induction l as [|jc l IH]; simpl; intros H; [constructor|].
  inversion H as [|? ? Hn Hd]; subst. constructor; auto.
  intros Hin. apply Hn. apply in_map_iff in Hin as [jc' [[= E] Hin]].
  rewrite <- E. now apply in_map.
Qed.

Lemma flat_pairs_ge (k : Z) (l : list review) (p : Z * Z) :
  In p (flat_map review_pairs (enumerate_from k l)) -> k <= fst p.
Proof.
  revert k. induction l as [|r l IH]; intros k; simpl; [tauto|].
  intros H. apply in_app_or in H as [H|H].
  - apply review_pairs_fst in H. lia.
  - apply IH in H. lia.
Qed.

Lemma flat_pairs_NoDup (k : Z) (l : list review) :
  NoDup (flat_map review_pairs (enumerate_from k l)).
Proof.
  revert k. induction l as [|r l IH]; intros k; simpl; [constructor|].
  apply NoDup_app; auto using review_pairs_NoDup.
  intros p H1 H2. apply review_pairs_fst in H1. apply flat_pairs_ge in H2.
  lia.
Qed.

Lemma pair_id_inj (p q : Z * Z) : pair_id p = pair_id q -> p = q.
Proof.
  destruct p, q. unfold pair_id. simpl. intros H.
  apply doc_id_inj in H as [-> ->]. reflexivity.
Qed.

Lemma NoDup_map_pair_id (l : list (Z * Z)) :
  NoDup l -> NoDup (map pair_id l).
Proof.
  induction 1 as [|p l Hn Hd IH]; simpl; constructor; auto.
  intros H. apply in_map_iff in H as [q [E H]].
  apply pair_id_inj in E. now subst q.
Qed.

(** C6. The identifiers that the builder generates for a corpus are
    pairwise distinct, whatever the sequence of records; and two
    identifiers [review_<i+1>_chunk_<j+1>] are equal only for the same
    document index and the same chunk index. *)
Theorem chunk_ids_unique (reviews : list review) :
  NoDup (ids_to_add (collect reviews))
  /\ (forall i j i' j' : Z, doc_id i j = doc_id i' j' -> i = i' /\ j = j').
Proof.
  split; [|apply doc_id_inj].
  unfold collect. rewrite collect_ids. simpl.
  apply NoDup_map_pair_id, flat_pairs_NoDup.
Qed.

(** *** Building on a populated index *)

(** C7. When the collection already holds an entry, [setup_vector_db]
    returns it as it is: nothing is added and its count is unchanged,
    whatever the corpus file holds and however the collaborators behave. *)
Theorem populated_index_untouched (chroma_answers : bool)
    (add_raises : list str -> option exn) (file : data_file)
    (c : collection) :
  0 < count c ->
  snd (setup_vector_db chroma_answers add_raises file c) = c
  /\ count (snd (setup_vector_db chroma_answers add_raises file c)) = count c.
Proof.
  intros H. unfold setup_vector_db.
  destruct chroma_answers; simpl; auto.
  destruct (Z.gtb_spec (count c) 0); [auto | lia].
Qed.

Lemma populated_index_untouched_witness :
  0 < count one_entry
  /\ snd (setup_vector_db true (fun _ => None) (Loaded two_reviews) one_entry)
     = one_entry.
Proof.
  assert (H : 0 < count one_entry) by reflexivity.
  exact (conj H (proj1 (populated_index_untouched true (fun _ => None)
                          (Loaded two_reviews) one_entry H))).
Defined.

(** On an empty collection the same call adds the chunks of the corpus. *)
Example empty_index_filled :
  map entry_id
      (snd (setup_vector_db true (fun _ => None) (Loaded two_reviews) []))
  = [lit "review_1_chunk_1"; lit "review_2_chunk_1"].
Proof. vm_compute. reflexivity. Qed.

End BuilderFacts.

(** ** The answerer *)

Module AnswererFacts.
Import Py Exc Answerer Inputs AnswererProps.

Section Rag.
Variable distance : Type.
Variable collection_query : str -> Z -> result (query_results distance).
Variable chat_completion : str -> str -> result (option str).
Variable print : str -> result unit.
Variable format_distance : distance -> str.

(** *** Printing *)

Lemma print_all_ok (lines : list str) :
  printed print lines -> print_all print lines = Ok tt.
Proof.
  induction 1 as [|l ls Hl _ IH]; [reflexivity|].
  cbn [print_all]. rewrite Hl. exact IH.
Qed.

Lemma map_snd_enumerate_from {A : Type} (l : list A) :
  forall k, map snd (Builder.enumerate_from k l) = l.
Proof.
  induction l as [|a l IH]; intros k; simpl; [reflexivity|].
  now rewrite IH.
Qed.

(** *** The context *)

(** The lines of the context are the blocks of the hits, in order. *)
Lemma context_lines_value
    (ihs : list (Z * (str * option hit_metadata * distance))) :
  forall ls,
    context_lines distance print format_distance ihs = Ok ls ->
    ls = map context_block (map snd ihs).
Proof.
  induction ihs as [|[i [[doc meta] d]] ihs IH]; intros ls.
  - intros [= <-]. reflexivity.
  - cbn [context_lines context_line].
    destruct (print (chunk_line i)); [|discriminate]. cbn [bind].
    destruct meta as [m|]; [|discriminate].
    destruct (print_all print (hit_lines distance format_distance doc m d));
      [|discriminate].
    cbn [bind].
    destruct (context_lines distance print format_distance ihs) as [ls'|];
      [|discriminate].
    cbn [bind]. intros [= <-]. cbn [map snd]. f_equal. now apply IH.
Qed.

Lemma context_lines_ok
    (ihs : list (Z * (str * option hit_metadata * distance))) :
  Forall (fun ih => snd (fst (snd ih)) <> None) ihs ->
  printed print (flat_map (hit_prints distance format_distance) ihs) ->
  context_lines distance print format_distance ihs
  = Ok (map context_block (map snd ihs)).
Proof.
  induction 1 as [|[i [[doc meta] d]] ihs Hh _ IH]; [reflexivity|].
  simpl in Hh. destruct meta as [m|]; [|congruence].
  cbn [flat_map]. intros Hp. apply Forall_app in Hp as [Hp Hrest].
  unfold hit_prints in Hp. cbn [fst snd] in Hp.
  apply Forall_cons_iff in Hp as [Hc Hl].
  cbn [context_lines context_line]. rewrite Hc. cbn [bind].
  rewrite (print_all_ok _ Hl). cbn [bind].
  rewrite (IH Hrest). reflexivity.
Qed.

Lemma context_lines_raise
    (ihs : list (Z * (str * option hit_metadata * distance))) :
  Exists (fun ih => snd (fst (snd ih)) = None) ihs ->
  exists e, context_lines distance print format_distance ihs = Raise e.
Proof.
  induction ihs as [|[i [[doc meta] d]] ihs IH]; intros H.
  - inversion H.
  - cbn [context_lines context_line].
    destruct (print (chunk_line i)); [|cbn [bind]; eauto]. cbn [bind].
    destruct meta as [m|]; [|cbn [bind]; eauto].
    destruct (print_all print (hit_lines distance format_distance doc m d));
      [|cbn [bind]; eauto].
    cbn [bind].
    inversion H as [? ? Hm|? ? Hm]; subst; [discriminate Hm|].
    destruct (IH Hm) as [e ->]. cbn [bind]. eauto.
Qed.

(** The context that is built is the context of the result. *)
Lemma build_context_value (results : query_results distance) (c : str) :
  build_context distance print format_distance results = Ok c ->
  c = context_of results.
Proof.
  unfold build_context, context_of, hits_of.
  destruct (print retrieval_line); [|discriminate]. cbn [bind].
  destruct (first_or_empty (documents _ results)) as [|doc docs].
  - cbn [negb]. destruct (print no_documents_line); [|discriminate].
    cbn [bind]. destruct (print end_context_line); [|discriminate].
    now intros [= <-].
  - cbn [negb]. destruct (print (retrieved_line _)); [|discriminate].
    cbn [bind].
    destruct (context_lines distance print format_distance _) as [ls|] eqn:E;
      [|discriminate].
    cbn [bind]. destruct (print end_context_line); [|discriminate].
    intros [= <-]. apply context_lines_value in E. rewrite E.
    unfold Builder.enumerate. now rewrite map_snd_enumerate_from.
Qed.

Lemma build_context_ok (results : query_results distance) :
  Forall (fun h => snd (fst h) <> None) (hits_of results) ->
  printed print (retrieval_prints distance format_distance results) ->
  build_context distance print format_distance results
  = Ok (context_of results).
Proof.
  intros Hall Hp.
  assert (E : exists c,
             build_context distance print format_distance results = Ok c).
  { unfold build_context. cbv zeta. fold (hits_of results).
    unfold retrieval_prints in Hp.
    apply Forall_cons_iff in Hp as [H1 Hrest]. rewrite H1. cbn [bind].
    destruct (first_or_empty (documents _ results)) as [|doc docs].
    - cbn [negb]. apply Forall_app in Hrest as [Hno Hend].
      apply Forall_cons_iff in Hno as [H2 _].
      apply Forall_cons_iff in Hend as [H3 _].
      rewrite H2. cbn [bind]. rewrite H3. cbn [bind]. eauto.
    - cbn [negb]. apply Forall_app in Hrest as [Hh Hend].
      apply Forall_cons_iff in Hh as [H2 Hh].
      apply Forall_cons_iff in Hend as [H3 _].
      rewrite H2. cbn [bind].
      rewrite context_lines_ok; [| |exact Hh].
      + cbn [bind]. rewrite H3. cbn [bind]. eauto.
      + apply Forall_map with (f := snd) (P := fun h => snd (fst h) <> None).
        unfold Builder.enumerate. now rewrite map_snd_enumerate_from. }
  destruct E as [c E]. rewrite E. f_equal. now apply build_context_value.
Qed.

Lemma build_context_raise (results : query_results distance) :
  Exists (fun h => snd (fst h) = None) (hits_of results) ->
  exists e, build_context distance print format_distance results = Raise e.
Proof.
  intros Hex. unfold build_context. cbv zeta. fold (hits_of results).
  destruct (print retrieval_line); [|cbn [bind]; eauto]. cbn [bind].
  destruct (first_or_empty (documents _ results)) as [|doc docs] eqn:D.
  - unfold hits_of in Hex. rewrite D in Hex. inversion Hex.
  - cbn [negb]. destruct (print (retrieved_line _)); [|cbn [bind]; eauto]. cbn [bind].
    destruct (context_lines_raise (Builder.enumerate (hits_of results)))
      as [e ->]; [|cbn [bind]; eauto].
    apply Exists_map with (f := snd) (P := fun h => snd (fst h) = None).
    unfold Builder.enumerate. now rewrite map_snd_enumerate_from.
Qed.

(** *** The chat completion *)


Lemma ask_ok (context_str query reply : str) :
  printed print (prompt_lines context_str query
                 ++ response_lines (Some reply)) ->
  chat_completion system_prompt (user_prompt context_str query)
  = Ok (Some reply) ->
  ask chat_completion print context_str query = Ok (strip reply).
Proof.
  intros Hp Hc. apply Forall_app in Hp as [H1 H2]. unfold ask.
  rewrite (print_all_ok _ H1). cbn [bind]. rewrite Hc. cbn [bind].
  rewrite (print_all_ok _ H2). reflexivity.
Qed.

Lemma ask_value (context_str query answer : str) :
  ask chat_completion print context_str query = Ok answer ->
  exists reply,
    chat_completion system_prompt (user_prompt context_str query)
    = Ok (Some reply)
    /\ answer = strip reply.
Proof.
  unfold ask.
  destruct (print_all print (prompt_lines context_str query));
    [|discriminate].
  cbn [bind].
  destruct (chat_completion system_prompt (user_prompt context_str query))
    as [content|]; [|discriminate].
  cbn [bind]. destruct (print_all print (response_lines content));
    [|discriminate].
  cbn [bind]. destruct content as [reply|]; [|discriminate].
  intros [= <-]. eauto.
Qed.

(** *** The [try] block and its handler *)


(** An answer of the [try] block is the trimmed reply of the chat
    completion to a prompt on the question. *)
Lemma body_value (query : str) (n_results : Z) (answer : str) :
  rag_body distance collection_query chat_completion print format_distance
    query n_results = Ok answer ->
  exists context_str reply,
    chat_completion system_prompt (user_prompt context_str query)
    = Ok (Some reply)
    /\ answer = strip reply.
Proof.
  unfold rag_body.
  destruct (collection_query query n_results) as [results|]; [|discriminate].
  cbn [bind].
  destruct (build_context distance print format_distance results) as [c|];
    [|discriminate].
  cbn [bind]. intros H. apply ask_value in H. eauto.
Qed.

(** The call, once the prints outside the [try] block succeed. *)
Lemma rag_unprotected (query : str) (n_results : Z) :
  unprotected_prints_ok distance print format_distance collection_query
    chat_completion query n_results ->
  perform_rag distance collection_query chat_completion print
    format_distance true query n_results
  = match rag_body distance collection_query chat_completion print
            format_distance query n_results with
    | Ok answer => Ok answer
    | Raise _ => Ok apology
    end.
Proof.
  intros [H1 [H2 H3]]. unfold perform_rag. cbn [negb].
  rewrite H1. cbn [bind]. rewrite H2. cbn [bind].
  destruct (rag_body distance collection_query chat_completion print
              format_distance query n_results) as [answer|e] eqn:B;
    [reflexivity|].
  cbn [try_except]. rewrite (H3 e eq_refl). reflexivity.
Qed.


End Rag.

(** *** Concrete collaborators *)



Example model_failure_contained :
  perform_rag Z no_hits model_down console four_decimals
    true (lit "Is it sharp?") 3
  = Ok apology.
Proof. vm_compute. reflexivity. Qed.

Example no_hits_answer :
  perform_rag Z no_hits refusing_model console four_decimals
    true (lit "Is it sharp?") 3
  = Ok (lit "I cannot answer this based on the provided reviews.").
Proof. vm_compute. reflexivity. Qed.

End AnswererFacts.

(** ** The cleaner *)

Module CleanerFacts.
Import Py PyFacts Regex Cleaner Props Inputs.

(** *** Runs of newlines *)

Lemma nl_ok_mono (j j' : nat) (s : str) :
  (j <= j')%nat -> nl_ok j s = true -> nl_ok j' s = true.
Proof.
  revert j j'. induction s as [|c s IH]; intros j j' Hj; simpl; auto.
  destruct (c =? newline)%N; auto.
  destruct j as [|j]; [discriminate|]. destruct j' as [|j']; [lia|].
  apply IH. lia.
Qed.

Lemma nl_ok_run (j : nat) (s : str) : nl_ok j s = true -> (run s <= j)%nat.
Proof.
  revert j. induction s as [|c s IH]; intros j; simpl; [lia|].
  destruct (c =? newline)%N; [|lia].
  destruct j as [|j]; [discriminate|]. intros H. apply IH in H. lia.
Qed.

Lemma nl_ok_app_l (j : nat) (s t : str) :
  nl_ok j (s ++ t) = true -> nl_ok j s = true.
Proof.
  revert j. induction s as [|c s IH]; intros j; simpl; auto.
  destruct (c =? newline)%N; auto. destruct j; auto.
Qed.

Lemma nl_ok_app_r (j : nat) (s t : str) :
  (j <= 2)%nat -> nl_ok j (s ++ t) = true -> nl_ok 2 t = true.
Proof.
  revert j. induction s as [|c s IH]; intros j Hj; simpl.
  - now apply nl_ok_mono.
  - destruct (c =? newline)%N; [|now apply IH].
    destruct j as [|j]; [discriminate|]. apply IH. lia.
Qed.

(** A text that passes [nl_ok 2] has no three newlines in a row. *)
Lemma nl_ok_no_triple (j : nat) (pre post : str) :
  (j <= 2)%nat ->
  nl_ok j (pre ++ [newline; newline; newline] ++ post) = false.
Proof.
  revert j. induction pre as [|c pre IH]; intros j Hj.
  - destruct j as [|[|[|j]]]; try reflexivity. lia.
  - simpl. destruct (c =? newline)%N; [|now apply IH].
    destruct j as [|j]; [reflexivity|]. apply IH. lia.
Qed.

Lemma run_le_length (s : str) : (run s <= length s)%nat.
Proof.
  induction s as [|c s IH]; simpl; [lia|]. destruct (c =? newline)%N; lia.
Qed.

Lemma run_skipn (s : str) : run (skipn (run s) s) = O.
Proof.
  induction s as [|c s IH]; simpl; auto.
  destruct (c =? newline)%N eqn:E; simpl; [auto | now rewrite E].
Qed.

(** *** The pattern [\n{3,}] *)

Section Newlines.
Variable ieq : cp -> cp -> bool.

(** The greedy repetition takes the whole run of newlines, and succeeds
    when that makes three of them. *)
Lemma rep_newlines (rest : str) :
  forall (fuel n : nat) (prev : option cp),
    (length rest <= fuel)%nat ->
    rep_iter (mt ieq no_flags (Chr newline)) true 3 None
             (fun _ rs => Some rs) fuel n prev rest
    = if (3 <=? n + run rest)%nat then Some (skipn (run rest) rest) else None.
Proof.
  induction rest as [|c rest IH]; intros fuel n prev Hf.
  - rewrite Nat.add_0_r. destruct fuel; simpl;
      destruct (3 <=? n)%nat; reflexivity.
  - destruct fuel as [|fuel]; [simpl in Hf; lia|].
    simpl in Hf. cbn [rep_iter mt under run].
    unfold chr_eqb. cbn [ignorecase no_flags].
    rewrite (N.eqb_sym newline c).
    destruct (c =? newline)%N eqn:E.
    + replace (length rest <? length (c :: rest))%nat with true
        by (symmetry; apply Nat.ltb_lt; simpl; lia).
      rewrite IH by lia.
      replace (n + S (run rest))%nat with (S n + run rest)%nat by lia.
      destruct (Nat.leb_spec 3 (S n + run rest)); [reflexivity|].
      destruct (Nat.leb_spec 3 n); [lia | reflexivity].
    + rewrite Nat.add_0_r. destruct (3 <=? n)%nat; reflexivity.
Qed.

Lemma match_newlines (prev : option cp) (rest : str) :
  match_at ieq no_flags newlines_re prev rest
  = if (3 <=? run rest)%nat then Some (run rest) else None.
Proof.
  unfold match_at, newlines_re. cbn [mt].
  rewrite rep_newlines by lia. cbn [Nat.add].
  destruct (3 <=? run rest)%nat; [|reflexivity].
  f_equal. rewrite length_skipn. pose proof (run_le_length rest). lia.
Qed.

(** After the substitution no run of newlines is longer than two: the
    output passes [nl_ok] with a leading run no longer than that of the
    input, and after a match it starts with no newline at all. *)
Lemma collapse_ok (rest : str) :
  forall prev : option cp,
    nl_ok (Nat.min (run rest) 2)
      (sub_go ieq no_flags newlines_re [newline; newline] prev rest O)
    = true
    /\ nl_ok 0
         (sub_go ieq no_flags newlines_re [newline; newline] prev rest
            (run rest))
       = true.
Proof.
  induction rest as [|c rest IH]; intros prev.
  - cbn [sub_go run]. rewrite match_newlines. simpl. auto.
  - assert (H0 : nl_ok (Nat.min (run (c :: rest)) 2)
                   (sub_go ieq no_flags newlines_re [newline; newline]
                      prev (c :: rest) O) = true).
    { cbn [sub_go]. rewrite match_newlines.
      destruct (Nat.leb_spec 3 (run (c :: rest))) as [Hr|Hr].
      - simpl in Hr. simpl run.
        destruct (c =? newline)%N eqn:E; [|lia].
        replace (Nat.min (S (run rest)) 2) with 2%nat by lia.
        simpl. exact (proj2 (IH (Some c))).
      - simpl in Hr |- *. destruct (c =? newline)%N eqn:E.
        + replace (Nat.min (S (run rest)) 2) with (S (run rest)) by lia.
          destruct (IH (Some c)) as [H _].
          replace (Nat.min (run rest) 2) with (run rest) in H by lia.
          exact H.
        + simpl. destruct (IH (Some c)) as [H _].
          apply nl_ok_mono with (j := Nat.min (run rest) 2); [lia | exact H]. }
    split; [exact H0|].
    simpl run. destruct (c =? newline)%N eqn:E.
    + cbn [sub_go]. exact (proj2 (IH (Some c))).
    + simpl run in H0. rewrite E in H0. exact H0.
Qed.

(** On a text without three newlines in a row the substitution changes
    nothing. *)
Lemma collapse_fixed (rest : str) :
  forall (j : nat) (prev : option cp),
    (j <= 2)%nat -> nl_ok j rest = true ->
    sub_go ieq no_flags newlines_re [newline; newline] prev rest O = rest.
Proof.
  induction rest as [|c rest IH]; intros j prev Hj Hok.
  - cbn [sub_go]. rewrite match_newlines. reflexivity.
  - cbn [sub_go]. rewrite match_newlines.
    pose proof (nl_ok_run _ _ Hok) as Hr.
    destruct (Nat.leb_spec 3 (run (c :: rest))); [lia|].
    f_equal. simpl in Hok. destruct (c =? newline)%N.
    + destruct j as [|j]; [discriminate|]. apply (IH j); [lia | exact Hok].
    + apply (IH 2%nat); auto.
Qed.





End Newlines.

(** *** The length of a substitution *)

Section Lengths.
Variable ieq : cp -> cp -> bool.
Variable fl : flags.



End Lengths.

(** *** Searching *)


Lemma prefixb_split (sub s : str) :
  prefixb sub s = true -> exists t, s = sub ++ t.
Proof.
  revert s. induction sub as [|a sub IH]; intros s; simpl; [eauto|].
  destruct s as [|b s]; [discriminate|]. intros H.
  apply andb_prop in H as [E H]. apply N.eqb_eq in E as ->.
  destruct (IH _ H) as [t ->]. eauto.
Qed.


(** An answer other than [-1] is the offset of an occurrence. *)
Lemma find_from_occurs (sub s : str) (i : Z) :
  0 <= i -> find_from sub s i <> -1 ->
  exists a b, s = a ++ sub ++ b /\ find_from sub s i = i + len a.
Proof.
  revert i. induction s as [|x s IH]; intros i Hi; simpl.
  - destruct (prefixb sub []) eqn:E; [|congruence]. intros _.
    apply prefixb_split in E as [t E]. exists [], t. split; auto.
    unfold len. simpl. lia.
  - destruct (prefixb sub (x :: s)) eqn:E.
    + intros _. apply prefixb_split in E as [t E]. exists [], t.
      split; auto. unfold len. simpl. lia.
    + intros H. destruct (IH (i + 1)) as [a [b [-> Hf]]]; [lia | exact H |].
      exists (x :: a), b. split; auto. rewrite Hf.
      unfold len. simpl length. lia.
Qed.

Lemma find_range (s sub : str) : find s sub = -1 \/ 0 <= find s sub.
Proof.
  destruct (Z.eq_dec (find s sub) (-1)) as [H|H]; [now left|].
  right. unfold find in *.
  destruct (find_from_occurs sub s 0) as [a [b [_ ->]]]; try lia; auto.
  pose proof (len_nonneg a). lia.
Qed.

(** *** Truncation at the first marker *)

Section Truncation.
Context {U : Unicode}.




Lemma end_markers_nonempty (marker : str) :
  In marker end_markers -> 0 < len marker.
Proof.
  intros H.
  assert (F : forallb truthy end_markers = true) by reflexivity.
  rewrite forallb_forall in F. apply F in H.
  destruct marker; [discriminate|]. unfold len. simpl. lia.
Qed.

Lemma marker_step_le (text : str) (acc : Z) (marker : str) :
  marker_step text acc marker <= acc.
Proof.
  unfold marker_step.
  destruct (negb (find (lower text) (lower marker) =? -1)); simpl; [|lia].
  destruct (Z.ltb_spec (find (lower text) (lower marker)) acc); lia.
Qed.

Lemma marker_step_nonneg (text : str) (acc : Z) (marker : str) :
  0 <= acc -> 0 <= marker_step text acc marker.
Proof.
  intros Ha. unfold marker_step.
  destruct (Z.eqb_spec (find (lower text) (lower marker)) (-1)); simpl; auto.
  destruct (find (lower text) (lower marker) <? acc); auto.
  destruct (find_range (lower text) (lower marker)); lia.
Qed.

Lemma marker_step_found (text : str) (acc : Z) (marker : str) :
  find (lower text) (lower marker) <> -1 ->
  marker_step text acc marker <= find (lower text) (lower marker).
Proof.
  intros H. unfold marker_step.
  destruct (Z.eqb_spec (find (lower text) (lower marker)) (-1)); [lia|].
  simpl. destruct (Z.ltb_spec (find (lower text) (lower marker)) acc); lia.
Qed.

Lemma fold_marker_le (text : str) (markers : list str) (acc : Z) :
  fold_left (marker_step text) markers acc <= acc.
Proof.
  revert acc. induction markers as [|m ms IH]; intros acc; simpl; [lia|].
  pose proof (IH (marker_step text acc m)).
  pose proof (marker_step_le text acc m). lia.
Qed.

Lemma fold_marker_nonneg (text : str) (markers : list str) (acc : Z) :
  0 <= acc -> 0 <= fold_left (marker_step text) markers acc.
Proof.
  revert acc. induction markers as [|m ms IH]; intros acc Ha; simpl; auto.
  apply IH. now apply marker_step_nonneg.
Qed.

Lemma fold_marker_found (text : str) (markers : list str) (acc : Z)
    (marker : str) :
  In marker markers -> find (lower text) (lower marker) <> -1 ->
  fold_left (marker_step text) markers acc
  <= find (lower text) (lower marker).
Proof.
  revert acc. induction markers as [|m ms IH]; intros acc; simpl; [tauto|].
  intros [->|Hin] Hf.
  - pose proof (fold_marker_le text ms (marker_step text acc marker)).
    pose proof (marker_step_found text acc marker Hf). lia.
  - now apply IH.
Qed.

Lemma fold_marker_none (text : str) (markers : list str) (acc : Z) :
  (forall m, In m markers -> find (lower text) (lower m) = -1) ->
  fold_left (marker_step text) markers acc = acc.
Proof.
  revert acc. induction markers as [|m ms IH]; intros acc H; simpl; auto.
  rewrite IH by (intros; apply H; now right).
  unfold marker_step. rewrite (H m) by now left. reflexivity.
Qed.

(** The boundary is an offset of the text, at or before every marker that
    occurs. *)
Lemma first_end_pos_range (text : str) : 0 <= first_end_pos text <= len text.
Proof.
  unfold first_end_pos. split.
  - apply fold_marker_nonneg, len_nonneg.
  - apply fold_marker_le.
Qed.

Lemma truncated_split (text : str) :
  exists pre post,
    text = pre ++ truncated text ++ post
    /\ len pre + len (truncated text) <= first_end_pos text.
Proof.
  unfold truncated. pose proof (first_end_pos_range text) as Hp.
  rewrite slice_prefix by lia.
  set (n := Z.to_nat (first_end_pos text)).
  destruct (strip_split (firstn n text)) as [pre [post [H _]]].
  exists pre, (post ++ skipn n text). split.
  - rewrite <- (firstn_skipn n text) at 1. rewrite H at 1.
    now rewrite <- !app_assoc.
  - assert (L : (length (firstn n text) <= n)%nat) by apply firstn_le_length.
    rewrite H in L. rewrite !length_app in L. unfold len, n in *. lia.
Qed.








(** *** The form of the result *)

Lemma clean_trimmed (text url : str) : trimmed (clean_review_text text url).
Proof.
  unfold clean_review_text.
  destruct (negb (truthy (strip text))); [split; exact I | apply strip_trimmed].
Qed.

Lemma clean_nl_ok (text url : str) :
  nl_ok 2 (clean_review_text text url) = true.
Proof.
  unfold clean_review_text.
  destruct (negb (truthy (strip text))); [reflexivity|].
  set (c := remove_underscore_lines (remove_noise (meaningful_text text))).
  destruct (strip_split (collapse_newlines c)) as [pre [post [H _]]].
  pose proof (proj1 (collapse_ok ieq c None)) as Hok.
  fold (re_sub ieq no_flags newlines_re [newline; newline] c) in Hok.
  fold (collapse_newlines c) in Hok.
  rewrite H in Hok.
  apply nl_ok_app_r in Hok; [|lia]. now apply nl_ok_app_l in Hok.
Qed.

(** C10. The text returned by [clean_review_text] has no white space at its
    start or at its end, and nowhere three newlines in a row. *)
Theorem clean_output_form (text url : str) :
  (forall c rest, clean_review_text text url = c :: rest -> isspace c = false)
  /\ (forall front c,
         clean_review_text text url = front ++ [c] -> isspace c = false)
  /\ (forall pre post,
         clean_review_text text url
         <> pre ++ [newline; newline; newline] ++ post).
Proof.
  destruct (clean_trimmed text url) as [Hh Hl].
  repeat split.
  - intros c rest E. now rewrite E in Hh.
  - intros front c E. rewrite E, rev_app_distr in Hl. exact Hl.
  - intros pre post E. pose proof (clean_nl_ok text url) as H.
    rewrite E, nl_ok_no_triple in H; [discriminate | lia].
Qed.

(** *** Cleaning a cleaned text *)

(** The first part of a split is a prefix of the text. *)
Lemma split_go_head (fl : flags) (r : regex) (s : str) :
  forall (before : str) (prev : option cp),
    (length (hd [] (split_go ieq fl r before prev s))
     <= length before + length s)%nat.
Proof.
  induction s as [|c s IH]; intros before prev; simpl.
  - destruct (match_at ieq fl r prev []); simpl; rewrite length_rev; lia.
  - destruct (match_at ieq fl r prev (c :: s)); simpl.
    + rewrite length_rev. lia.
    + specialize (IH (c :: before) (Some c)). simpl in IH. lia.
Qed.

Lemma meaningful_fixed (y : str) :
  trimmed y ->
  (forall marker, In marker end_markers ->
                  find (lower y) (lower marker) = -1) ->
  meaningful_text y = y.
Proof.
  intros Ht Hm.
  assert (E : truncated y = y).
  { unfold truncated, first_end_pos.
    rewrite (fold_marker_none y end_markers (len y) Hm), slice_full.
    now apply strip_fixed. }
  unfold meaningful_text. rewrite E.
  destruct (Z.ltb_spec (len y) 300) as [Hs|Hs]; [|reflexivity].
  pose proof (split_go_head no_flags separator_re y [] None) as Hh.
  fold (re_split1 ieq no_flags separator_re y) in Hh.
  destruct (Z.ltb_spec 300 (len (hd [] (re_split1 ieq no_flags
                                          separator_re y)))) as [Hl|Hl].
  - unfold len in *. simpl in Hh. lia.
  - now rewrite andb_false_r.
Qed.

(** A trimmed text without three newlines in a row, without markers, and in
    which no noise pattern matches is returned as it is. *)
Lemma clean_fixed (y url : str) :
  trimmed y -> nl_ok 2 y = true ->
  (forall marker, In marker end_markers ->
                  find (lower y) (lower marker) = -1) ->
  remove_underscore_lines (remove_noise y) = y ->
  clean_review_text y url = y.
Proof.
  intros Ht Hn Hm Hr. unfold clean_review_text.
  rewrite (strip_fixed y Ht).
  destruct y as [|c y]; [reflexivity|]. cbn [truthy negb].
  rewrite meaningful_fixed, Hr by assumption.
  unfold collapse_newlines, re_sub.
  rewrite (collapse_fixed ieq (c :: y) 2 None) by auto.
  now apply strip_fixed.
Qed.

(** C9, as amended. When the cleaned text contains no marker of the list
    and the noise-stripping substitutions leave it as it is, cleaning it
    again returns it unchanged. *)
Theorem clean_twice (text url : str) :
  (forall marker, In marker end_markers ->
     find (lower (clean_review_text text url)) (lower marker) = -1) ->
  remove_underscore_lines (remove_noise (clean_review_text text url))
  = clean_review_text text url ->
  clean_review_text (clean_review_text text url) url
  = clean_review_text text url.
Proof.
  intros Hm Hr.
  apply clean_fixed; auto using clean_trimmed, clean_nl_ok.
Qed.

End Truncation.

(** *** Concrete runs, on ASCII text and the quotation mark of the
    patterns, where the tables of [ascii_tables] are those of Python, and
    on [dotted_review] with [dotted_tables] *)

#[local] Existing Instance ascii_tables.

Example scenario_a_cleaned :
  clean_review_text scenario_a [] = lit "Great lens. Sharp wide open.".
Proof. vm_compute. reflexivity. Qed.

Lemma no_marker_spec (s : str) :
  no_marker s = true ->
  forall marker, In marker end_markers -> find (lower s) (lower marker) = -1.
Proof.
  unfold no_marker. rewrite forallb_forall. intros H marker Hin.
  apply Z.eqb_eq. now apply H.
Qed.





Lemma clean_twice_witness :
  (forall marker, In marker end_markers ->
     find (lower (clean_review_text scenario_a [])) (lower marker) = -1)
  /\ remove_underscore_lines (remove_noise (clean_review_text scenario_a []))
     = clean_review_text scenario_a []
  /\ clean_review_text (clean_review_text scenario_a []) []
     = clean_review_text scenario_a [].
Proof.
  assert (H1 : forall marker, In marker end_markers ->
            find (lower (clean_review_text scenario_a [])) (lower marker) = -1)
    by (apply no_marker_spec; vm_compute; reflexivity).
  assert (H2 : remove_underscore_lines
                 (remove_noise (clean_review_text scenario_a []))
               = clean_review_text scenario_a [])
    by (vm_compute; reflexivity).
  exact (conj H1 (conj H2 (clean_twice scenario_a [] H1 H2))).
Defined.

(** C9 fails as stated: "OofOof!!" contains no marker and is itself a
    result of the cleaner, one pass over it leaves "Oof!", and the next
    pass leaves the empty text. *)
Lemma idempotence_counterexample :
  no_marker (lit "OofOof!!") = true
  /\ clean_review_text (lit "OofOofOof!!!") [] = lit "OofOof!!"
  /\ clean_review_text (lit "OofOof!!") [] = lit "Oof!"
  /\ clean_review_text (clean_review_text (lit "OofOof!!") []) [] = []
  /\ clean_review_text (clean_review_text (lit "OofOof!!") []) []
     <> clean_review_text (lit "OofOof!!") [].
Proof.
  repeat split; try (vm_compute; reflexivity).
  vm_compute. discriminate.
Qed.

End CleanerFacts.

(** ** More on the chunker *)

Module ChunkerMore.
Import Py PyFacts Chunker ChunkerFacts Props Inputs.

Section Loop.
Variable text : str.
Variables max_chars overlap : Z.

(** Every window starts at a cursor position of the loop, inside the
    text, and ends where [window_end] says. *)
Lemma windows_from_starts (fuel : nat) (pos : Z) (w : Z * Z) :
  In w (windows_from text max_chars overlap fuel pos) ->
  pos <= fst w < len text
  /\ snd w = window_end text max_chars overlap (fst w).
Proof.
  revert pos. induction fuel as [|fuel IH]; intros pos; [intros []|].
  rewrite windows_from_unfold.
  destruct (Z.ltb_spec pos (len text)) as [Hlt|Hge]; [|intros []].
  intros [<-|Hin]; [simpl; split; [lia | reflexivity]|].
  destruct (snd (loop_body text max_chars overlap (mk_state [] pos)));
    [destruct Hin|].
  apply IH in Hin. destruct Hin as [Hin1 Hin2]. split; auto.
  pose proof (loop_body_advances text max_chars overlap (mk_state [] pos)).
  simpl current_pos in *. lia.
Qed.

Lemma slice_len (s : str) (a b : Z) :
  len (slice s a b) <= Z.max 0 (clip (len s) b - clip (len s) a).
Proof.
  unfold slice, len at 1. rewrite length_firstn. lia.
Qed.

(** A window takes at most [max_chars] characters of the text. *)
Lemma window_width (pos : Z) :
  0 < max_chars -> 0 <= pos < len text ->
  len (slice text pos (window_end text max_chars overlap pos)) <= max_chars.
Proof.
  intros Hm Hp. pose proof (slice_len text pos
                              (window_end text max_chars overlap pos)) as Hs.
  rewrite (clip_id (len text) pos) in Hs by lia.
  assert (Hc : clip (len text) (window_end text max_chars overlap pos)
               <= pos + max_chars); [|lia].
  unfold window_end.
  set (e := Z.min (pos + max_chars) (len text)).
  assert (He : 0 <= e <= len text) by (unfold e; lia).
  assert (Hce : clip (len text) e = e) by (apply clip_id; lia).
  destruct (Z.gtb_spec (rfind text [newline; newline] pos e) (pos + overlap)).
  - destruct (rfind_bounds text [newline; newline] pos e) as [B|[B1 B2]].
    + rewrite B. unfold clip. simpl. lia.
    + rewrite Hce in B2. rewrite (clip_id (len text) pos) in B1 by lia.
      unfold len in B2 at 1. simpl in B2. rewrite clip_id; lia.
  - destruct (Z.gtb_spec (rfind text [period] pos e) (pos + overlap)).
    + destruct (rfind_bounds text [period] pos e) as [B|[B1 B2]].
      * rewrite B. unfold clip. simpl. lia.
      * rewrite Hce in B2. rewrite (clip_id (len text) pos) in B1 by lia.
        unfold len in B2 at 1. simpl in B2. rewrite clip_id; lia.
    + rewrite Hce. unfold e. lia.
Qed.

(** A slice is a contiguous piece of the text. *)
Lemma slice_infix (s : str) (a b : Z) :
  exists pre post, s = pre ++ slice s a b ++ post.
Proof.
  unfold slice.
  set (i := Z.to_nat (clip (len s) a)).
  set (n := Z.to_nat (clip (len s) b - clip (len s) a)).
  exists (firstn i s), (skipn n (skipn i s)).
  now rewrite firstn_skipn, firstn_skipn.
Qed.

Lemma chunk_of_infix (w : Z * Z) :
  exists pre post, text = pre ++ chunk_of text w ++ post.
Proof.
  unfold chunk_of.
  destruct (slice_infix text (fst w) (snd w)) as [p1 [q1 H1]].
  destruct (strip_split (slice text (fst w) (snd w))) as [p2 [q2 [H2 _]]].
  exists (p1 ++ p2), (q2 ++ q1).
  rewrite H1 at 1. rewrite H2 at 1. now rewrite <- !app_assoc.
Qed.

Lemma chunk_in_window (c : str) :
  In c (simple_chunker text max_chars overlap) ->
  exists w, In w (windows text max_chars overlap)
            /\ c = chunk_of text w /\ truthy c = true.
Proof.
  rewrite simple_chunker_windows. intros H.
  apply in_map_iff in H as [w [<- Hw]].
  unfold emitted_windows in Hw. apply filter_In in Hw as [Hw Ht].
  eauto.
Qed.

Lemma chunks_are_trimmed_pieces_aux (c : str) :
  In c (simple_chunker text max_chars overlap) ->
  c <> [] /\ trimmed c /\ exists pre post, text = pre ++ c ++ post.
Proof.
  intros H. apply chunk_in_window in H as [w [_ [-> Ht]]].
  repeat split.
  - now apply truthy_true.
  - apply (proj1 (strip_trimmed _)).
  - apply (proj2 (strip_trimmed _)).
  - apply chunk_of_infix.
Qed.

Lemma chunks_within_max_chars_aux (c : str) :
  0 < max_chars ->
  In c (simple_chunker text max_chars overlap) ->
  len c <= max_chars.
Proof.
  intros Hm H. apply chunk_in_window in H as [w [Hw [-> _]]].
  unfold windows in Hw. apply windows_from_starts in Hw as [Hs He].
  unfold chunk_of. rewrite He.
  pose proof (strip_len (slice text (fst w)
                           (window_end text max_chars overlap (fst w)))).
  pose proof (window_width (fst w) Hm Hs). lia.
Qed.

(** X1. Every chunk that [simple_chunker] returns is a non-empty,
    trimmed, contiguous piece of the text, whatever [max_chars] and
    [overlap] are. *)
Theorem chunks_are_trimmed_pieces (c : str) :
  In c (simple_chunker text max_chars overlap) ->
  c <> [] /\ trimmed c /\ exists pre post, text = pre ++ c ++ post.
Proof. apply chunks_are_trimmed_pieces_aux. Qed.

(** X2. With [max_chars >= 1] no chunk is longer than [max_chars],
    whatever [overlap] is. *)
Theorem chunks_within_max_chars (c : str) :
  0 < max_chars ->
  In c (simple_chunker text max_chars overlap) ->
  len c <= max_chars.
Proof. apply chunks_within_max_chars_aux. Qed.

(** Two windows that follow each other. *)
Lemma windows_from_adjacent (fuel : nat) :
  forall (pos : Z) (l1 l2 : list (Z * Z)) (w w' : Z * Z),
    windows_from text max_chars overlap fuel pos = l1 ++ w :: w' :: l2 ->
    fst w < fst w' /\ snd w - fst w' <= overlap
    /\ (0 < max_chars -> 0 <= overlap -> 0 <= pos -> fst w' <= snd w).
Proof.
  induction fuel as [|fuel IH]; intros pos l1 l2 w w';
    [destruct l1; discriminate|].
  rewrite windows_from_unfold.
  destruct (Z.ltb_spec pos (len text)) as [Hlt|Hge];
    [|destruct l1; discriminate].
  pose proof (loop_body_advances text max_chars overlap (mk_state [] pos))
    as Hadv. simpl current_pos in Hadv.
  destruct l1 as [|w0 l1]; simpl app; intros [= Hw Hrest].
  - match type of Hrest with
    | (if ?b then _ else _) = _ => destruct b; [discriminate|]
    end.
    destruct fuel as [|fuel]; [discriminate|].
    rewrite windows_from_unfold in Hrest.
    destruct (_ <? len text); [|discriminate].
    injection Hrest as Hw' _. subst w w'. simpl fst. simpl snd.
    repeat split; try lia.
    intros Hm Ho Hp.
    pose proof (window_end_bounds text max_chars overlap pos Hm Ho
                  (conj Hp Hlt)). lia.
  - match type of Hrest with
    | (if ?b then _ else _) = _ =>
        destruct b; [destruct l1; discriminate|]
    end.
    apply IH in Hrest. destruct Hrest as [H1 [H2 H3]].
    repeat split; auto. intros Hm Ho Hp. apply H3; auto. lia.
Qed.

(** X3. With [max_chars >= 1] and [overlap >= 0], of two windows that
    follow each other the second starts after the start of the first, at
    or before its end, and at most [overlap] characters before its end. *)
Theorem consecutive_windows (l1 l2 : list (Z * Z)) (w w' : Z * Z) :
  0 < max_chars -> 0 <= overlap ->
  windows text max_chars overlap = l1 ++ w :: w' :: l2 ->
  fst w < fst w' <= snd w /\ snd w - fst w' <= overlap.
Proof.
  intros Hm Ho H. unfold windows in H.
  apply windows_from_adjacent in H as [H1 [H2 H3]].
  specialize (H3 Hm Ho). lia.
Qed.

End Loop.

Lemma chunks_are_trimmed_pieces_witness :
  In (lit "a") (simple_chunker blank_tail 1800 200)
  /\ lit "a" <> [] /\ trimmed (lit "a").
Proof.
  assert (H : In (lit "a") (simple_chunker blank_tail 1800 200))
    by (vm_compute; left; reflexivity).
  pose proof (chunks_are_trimmed_pieces blank_tail 1800 200 (lit "a") H)
    as [H1 [H2 _]].
  exact (conj H (conj H1 H2)).
Defined.

Lemma chunks_within_max_chars_witness :
  0 < 1800 /\ In (lit "a") (simple_chunker blank_tail 1800 200)
  /\ len (lit "a") <= 1800.
Proof.
  assert (H0 : 0 < 1800) by reflexivity.
  assert (H : In (lit "a") (simple_chunker blank_tail 1800 200))
    by (vm_compute; left; reflexivity).
  exact (conj H0 (conj H
           (chunks_within_max_chars blank_tail 1800 200 (lit "a") H0 H))).
Defined.

Lemma consecutive_windows_witness :
  0 < 1800 /\ 0 <= 200
  /\ windows two_paragraphs 1800 200 = [] ++ (0, 302) :: (102, 602) :: []
  /\ (fst (0, 302) < fst (102, 602) <= snd (0, 302)
      /\ snd (0, 302) - fst (102, 602) <= 200).
Proof.
  assert (H1 : 0 < 1800) by reflexivity.
  assert (H2 : 0 <= 200) by discriminate.
  assert (H3 : windows two_paragraphs 1800 200
               = [] ++ (0, 302) :: (102, 602) :: [])
    by (vm_compute; reflexivity).
  exact (conj H1 (conj H2 (conj H3
           (consecutive_windows two_paragraphs 1800 200 [] [] (0, 302)
              (102, 602) H1 H2 H3)))).
Defined.

End ChunkerMore.

(** ** More on the corpus builder *)

Module BuilderMore.
Import Py PyFacts Exc Chunker Builder Props MoreProps Inputs BuilderFacts.

(** *** Batches *)

Lemma batches_fuel_concat {A : Type} (fuel : nat) :
  forall l : list A,
    (length l <= fuel)%nat -> concat (batches_fuel fuel 100 l) = l.
Proof.
  induction fuel as [|fuel IH]; intros l Hl.
  - destruct l; [reflexivity | simpl in Hl; lia].
  - destruct l as [|a l]; [reflexivity|].
    cbn [batches_fuel concat]. rewrite IH.
    + apply firstn_skipn.
    + rewrite length_skipn. simpl in *. lia.
Qed.

Lemma batches_fuel_sizes {A : Type} (fuel : nat) :
  forall l : list A,
    Forall (fun b => (1 <= length b <= 100)%nat) (batches_fuel fuel 100 l).
Proof.
  induction fuel as [|fuel IH]; intros l; [constructor|].
  destruct l as [|a l]; [constructor|].
  cbn [batches_fuel]. constructor; [|apply IH].
  rewrite length_firstn. simpl length. lia.
Qed.

(** X4. The batches of a list are its consecutive pieces: put end to end
    they give the list back, and each has between 1 and 100 elements. *)
Theorem batches_partition {A : Type} (l : list A) :
  concat (batches l) = l
  /\ Forall (fun b => (1 <= length b <= 100)%nat) (batches l).
Proof.
  split; [apply batches_fuel_concat; lia | apply batches_fuel_sizes].
Qed.

(** *** The pending lists *)

Lemma add_chunk_rows (i : Z) (u t : str) (l : list (Z * str)) (acc : pending) :
  let rows := map (fun jc : Z * str =>
                     (snd jc, mk_metadata u t (fst jc + 1) (i + 1),
                      doc_id i (fst jc))) l in
  documents_to_add (fold_left (add_chunk i u t) l acc)
  = documents_to_add acc ++ map (fun x => fst (fst x)) rows
  /\ metadatas_to_add (fold_left (add_chunk i u t) l acc)
     = metadatas_to_add acc ++ map (fun x => snd (fst x)) rows
  /\ ids_to_add (fold_left (add_chunk i u t) l acc)
     = ids_to_add acc ++ map snd rows.
Proof.
  revert acc. induction l as [|[j c] l IH]; intros acc; simpl.
  - now rewrite !app_nil_r.
  - destruct (IH (add_chunk i u t acc (j, c))) as [H1 [H2 H3]].
    simpl in H1, H2, H3. rewrite H1, H2, H3. simpl.
    now rewrite <- !app_assoc.
Qed.

Lemma add_review_rows (acc : pending) (ir : Z * review) :
  documents_to_add (add_review acc ir)
  = documents_to_add acc ++ map (fun x => fst (fst x)) (review_rows ir)
  /\ metadatas_to_add (add_review acc ir)
     = metadatas_to_add acc ++ map (fun x => snd (fst x)) (review_rows ir)
  /\ ids_to_add (add_review acc ir)
     = ids_to_add acc ++ map snd (review_rows ir).
Proof.
  destruct ir as [i r]. unfold add_review, review_rows.
  destruct (negb (truthy (get (content_text r) []))).
  - simpl. now rewrite !app_nil_r.
  - apply add_chunk_rows.
Qed.

Lemma collect_rows (l : list (Z * review)) (acc : pending) :
  documents_to_add (fold_left add_review l acc)
  = documents_to_add acc
    ++ map (fun x => fst (fst x)) (flat_map review_rows l)
  /\ metadatas_to_add (fold_left add_review l acc)
     = metadatas_to_add acc
       ++ map (fun x => snd (fst x)) (flat_map review_rows l)
  /\ ids_to_add (fold_left add_review l acc)
     = ids_to_add acc ++ map snd (flat_map review_rows l).
Proof.
  revert acc. induction l as [|ir l IH]; intros acc; simpl.
  - now rewrite !app_nil_r.
  - destruct (IH (add_review acc ir)) as [H1 [H2 H3]].
    destruct (add_review_rows acc ir) as [E1 [E2 E3]].
    rewrite H1, H2, H3, E1, E2, E3, !map_app, <- !app_assoc. auto.
Qed.

Lemma enumerate_from_le {A : Type} (k i : Z) (x : A) (l : list A) :
  In (i, x) (enumerate_from k l) -> i < k + Z.of_nat (length l).
Proof.
  revert k. induction l as [|a l IH]; intros k; simpl; [tauto|].
  intros [[= <- _]|H]; [lia|]. apply IH in H. lia.
Qed.

Lemma review_rows_spec (i : Z) (r : review) (row : str * metadata * str) :
  In row (review_rows (i, r)) ->
  snd row = id_of_metadata (snd (fst row))
  /\ 1 <= chunk_num (snd (fst row))
  /\ original_doc_index (snd (fst row)) = i + 1
  /\ In (fst (fst row))
        (simple_chunker_default (get (content_text r) [])).
Proof.
  unfold review_rows.
  destruct (negb (truthy (get (content_text r) []))); [intros []|].
  intros H. apply in_map_iff in H as [[j c] [<- Hin]]. simpl.
  repeat split.
  - apply enumerate_from_ge in Hin. lia.
  - clear -Hin. unfold enumerate in Hin.
    revert Hin. generalize 0.
    induction (simple_chunker_default (get (content_text r) []))
      as [|a l IH]; intros k; simpl; [tauto|].
    intros [[= _ <-]|H]; [now left | right; eauto].
Qed.

Lemma collect_aligned (reviews : list review) :
  length (documents_to_add (collect reviews))
  = length (metadatas_to_add (collect reviews))
  /\ length (ids_to_add (collect reviews))
     = length (metadatas_to_add (collect reviews))
  /\ ids_to_add (collect reviews)
     = map id_of_metadata (metadatas_to_add (collect reviews))
  /\ Forall (fun m => 1 <= chunk_num m
                      /\ 1 <= original_doc_index m
                         <= Z.of_nat (length reviews))
            (metadatas_to_add (collect reviews)).
Proof.
  unfold collect.
  destruct (collect_rows (enumerate reviews) (mk_pending [] [] []))
    as [H1 [H2 H3]].
  rewrite H1, H2, H3. simpl.
  assert (Hrow : forall row,
             In row (flat_map review_rows (enumerate reviews)) ->
             snd row = id_of_metadata (snd (fst row))
             /\ 1 <= chunk_num (snd (fst row))
             /\ 1 <= original_doc_index (snd (fst row))
                <= Z.of_nat (length reviews)).
  { intros row Hin. apply in_flat_map in Hin as [[i r] [Hir Hin]].
    apply review_rows_spec in Hin as [E1 [E2 [E3 _]]].
    unfold enumerate in Hir.
    pose proof (enumerate_from_ge _ _ _ _ Hir).
    pose proof (enumerate_from_le _ _ _ _ Hir). repeat split; auto; lia. }
  repeat split.
  - now rewrite !length_map.
  - now rewrite !length_map.
  - rewrite map_map. apply map_ext_in. intros row Hin.
    now apply Hrow.
  - apply Forall_forall. intros m Hm.
    apply in_map_iff in Hm as [row [<- Hin]]. now apply Hrow.
Qed.

(** X5. The three lists that the builder fills stay aligned: they have
    the same length, each identifier is the one its metadata spells out
    ([review_<original_doc_index>_chunk_<chunk_num>]), every [chunk_num] is
    at least 1, and every [original_doc_index] is the 1-based position of a
    record of the corpus file. *)
Theorem pending_lists_aligned (reviews : list review) :
  length (documents_to_add (collect reviews))
  = length (metadatas_to_add (collect reviews))
  /\ length (ids_to_add (collect reviews))
     = length (metadatas_to_add (collect reviews))
  /\ ids_to_add (collect reviews)
     = map id_of_metadata (metadatas_to_add (collect reviews))
  /\ Forall (fun m => 1 <= chunk_num m
                      /\ 1 <= original_doc_index m
                         <= Z.of_nat (length reviews))
            (metadatas_to_add (collect reviews)).
Proof. apply collect_aligned. Qed.

(** X6. The documents that the builder queues are the chunks of the
    records' contents, record after record; a record whose content is
    missing or empty adds none.  Each one is a non-empty, trimmed text of
    at most 1800 characters. *)
Theorem pending_documents (reviews : list review) :
  documents_to_add (collect reviews)
  = flat_map (fun r => simple_chunker_default (get (content_text r) []))
             reviews
  /\ Forall (fun d => d <> [] /\ trimmed d /\ len d <= 1800)
            (documents_to_add (collect reviews)).
Proof.
  assert (E : documents_to_add (collect reviews)
              = flat_map (fun r => simple_chunker_default
                                     (get (content_text r) [])) reviews).
  { unfold collect.
    rewrite (proj1 (collect_rows (enumerate reviews) (mk_pending [] [] []))).
    simpl. unfold enumerate. generalize 0.
    induction reviews as [|r rs IH]; intros k; simpl; [reflexivity|].
    rewrite map_app, IH. f_equal.
    destruct (truthy (get (content_text r) [])) eqn:T; simpl.
    - rewrite map_map. simpl. unfold enumerate. generalize 0.
      induction (simple_chunker_default (get (content_text r) []))
        as [|c cs IHc]; intros j; simpl; [reflexivity|].
      now rewrite IHc.
    - apply truthy_false in T. rewrite T. reflexivity. }
  split; [exact E|].
  rewrite E. apply Forall_forall. intros d Hd.
  apply in_flat_map in Hd as [r [_ Hd]]. unfold simple_chunker_default in Hd.
  destruct (ChunkerMore.chunks_are_trimmed_pieces_aux _ _ _ _ Hd)
    as [H1 [H2 _]].
  split; [exact H1 | split; [exact H2|]].
  apply (ChunkerMore.chunks_within_max_chars_aux
           (get (content_text r) []) 1800 200 d); [lia | exact Hd].
Qed.

(** *** Filling the collection *)

Section Setup.
Variable add_raises : list str -> option exn.

Lemma combine_skipn {A B : Type} (n : nat) :
  forall (l : list A) (l' : list B),
    skipn n (combine l l') = combine (skipn n l) (skipn n l').
Proof.
  induction n as [|n IH]; intros l l'; [reflexivity|].
  destruct l as [|a l]; [reflexivity|].
  destruct l' as [|b l']; simpl; [now rewrite combine_nil | apply IH].
Qed.

(** The batches of three aligned lists, put end to end, add the entries
    of the lists; none of them is empty. *)
Lemma batched_entries (fuel : nat) :
  forall (docs : list str) (metas : list metadata) (ids : list str),
    length docs = length metas -> length ids = length metas ->
    (length metas <= fuel)%nat ->
    let bs := combine (combine (batches_fuel fuel 100 docs)
                               (batches_fuel fuel 100 metas))
                      (batches_fuel fuel 100 ids) in
    concat (map batch_entries bs)
    = entries_of (mk_pending docs metas ids)
    /\ Forall (fun b => batch_entries b <> []) bs.
Proof.
  induction fuel as [|fuel IH]; intros docs metas ids Hd Hi Hf.
  - destruct metas; [|simpl in Hf; lia].
    destruct docs; [|discriminate]. destruct ids; [|discriminate].
    simpl. split; [reflexivity | constructor].
  - destruct metas as [|m metas].
    + destruct docs; [|discriminate]. destruct ids; [|discriminate].
      simpl. split; [reflexivity | constructor].
    + destruct docs as [|d docs]; [discriminate|].
      destruct ids as [|i ids]; [discriminate|].
      cbn [batches_fuel combine map concat].
      destruct (IH (skipn 100 (d :: docs)) (skipn 100 (m :: metas))
                  (skipn 100 (i :: ids))) as [E F].
      * rewrite !length_skipn. simpl in *. lia.
      * rewrite !length_skipn. simpl in *. lia.
      * rewrite length_skipn. simpl in *. lia.
      * split.
        -- rewrite E. unfold entries_of, batch_entries. cbn [documents_to_add
             metadatas_to_add ids_to_add].
           rewrite <- map_app. f_equal.
           rewrite <- !combine_firstn, <- !combine_skipn.
           apply firstn_skipn.
        -- constructor; [|exact F]. discriminate.
Qed.

(** The batch loop adds the batches in order up to the first one for
    which [add] raises. *)
Lemma add_batches_spec (bs : list (list str * list metadata * list str)) :
  forall c : collection,
    exists k,
      fst (add_batches add_raises c bs)
      = c ++ concat (map batch_entries (firstn k bs))
      /\ (snd (add_batches add_raises c bs) = false -> firstn k bs = bs)
      /\ (snd (add_batches add_raises c bs) = true ->
          exists b rest, skipn k bs = b :: rest
                         /\ add_raises (snd b) <> None).
Proof.
  induction bs as [|[[docs metas] ids] bs IH]; intros c.
  - exists O. simpl. rewrite app_nil_r. repeat split; auto. discriminate.
  - cbn [add_batches add]. destruct (add_raises ids) as [e|] eqn:R.
    + exists O. simpl. rewrite app_nil_r. repeat split; [discriminate|].
      intros _. exists (docs, metas, ids), bs. split; auto.
      simpl. congruence.
    + destruct (IH (c ++ batch_entries (docs, metas, ids)))
        as [k [H1 [H2 H3]]].
      exists (S k). cbn [firstn map concat skipn].
      rewrite app_assoc. repeat split; auto.
      intros H. now rewrite (H2 H).
Qed.

Lemma map_fst_combine {A B : Type} (l : list A) :
  forall l' : list B, length l = length l' -> map fst (combine l l') = l.
Proof.
  induction l as [|a l IH]; intros [|b l']; simpl; try discriminate; auto.
  intros [= H]. now rewrite IH.
Qed.

Lemma map_snd_combine {A B : Type} (l : list A) :
  forall l' : list B, length l = length l' -> map snd (combine l l') = l'.
Proof.
  induction l as [|a l IH]; intros [|b l']; simpl; try discriminate; auto.
  intros [= H]. now rewrite IH.
Qed.

Lemma entries_ids (p : pending) :
  length (documents_to_add p) = length (metadatas_to_add p) ->
  length (ids_to_add p) = length (metadatas_to_add p) ->
  map entry_id (entries_of p) = ids_to_add p.
Proof.
  intros Hd Hi. unfold entries_of. rewrite map_map. simpl.
  apply map_fst_combine. rewrite length_combine. lia.
Qed.

Lemma entries_documents (p : pending) :
  length (documents_to_add p) = length (metadatas_to_add p) ->
  length (ids_to_add p) = length (metadatas_to_add p) ->
  map entry_document (entries_of p) = documents_to_add p.
Proof.
  intros Hd Hi. unfold entries_of. rewrite map_map. simpl.
  rewrite <- (map_map snd fst), map_snd_combine
    by (rewrite length_combine; lia).
  now apply map_fst_combine.
Qed.

Lemma entries_metadatas (p : pending) :
  length (documents_to_add p) = length (metadatas_to_add p) ->
  length (ids_to_add p) = length (metadatas_to_add p) ->
  map entry_metadata (entries_of p) = metadatas_to_add p.
Proof.
  intros Hd Hi. unfold entries_of. rewrite map_map. simpl.
  rewrite <- (map_map snd snd), map_snd_combine
    by (rewrite length_combine; lia).
  now apply map_snd_combine.
Qed.

(** The batches that [setup_vector_db] hands to [add]. *)
Lemma setup_unfold (reviews : list review) :
  setup_vector_db true add_raises (Loaded reviews) []
  = (if snd (add_batches add_raises [] (pending_batches (collect reviews)))
     then ReturnedNone else ReturnedCollection,
     fst (add_batches add_raises [] (pending_batches (collect reviews)))).
Proof.
  unfold setup_vector_db, pending_batches. simpl.
  destruct (add_batches add_raises [] _) as [c' [|]]; reflexivity.
Qed.

(** A run on the empty collection: the entries are those of the batches
    before the first that raised. *)
Lemma setup_run (reviews : list review) :
  exists k rest,
    entries_of (collect reviews)
    = fst (add_batches add_raises [] (pending_batches (collect reviews)))
      ++ rest
    /\ (snd (add_batches add_raises [] (pending_batches (collect reviews)))
        = false ->
        rest = []
        /\ setup_vector_db true add_raises (Loaded reviews) []
           = (ReturnedCollection,
              fst (add_batches add_raises []
                     (pending_batches (collect reviews)))))
    /\ (snd (add_batches add_raises [] (pending_batches (collect reviews)))
        = true ->
        exists b : list str * list metadata * list str,
          add_raises (snd b) <> None
          /\ fst (setup_vector_db true add_raises (Loaded reviews) [])
             = ReturnedNone
          /\ snd (setup_vector_db true add_raises (Loaded reviews) [])
             = fst (add_batches add_raises []
                      (pending_batches (collect reviews)))
          /\ rest <> []
          /\ (k < length (pending_batches (collect reviews)))%nat).
Proof.
  destruct (collect_aligned reviews) as [Hd [Hi _]].
  set (p := collect reviews) in *.
  destruct (batched_entries (length (metadatas_to_add p))
              (documents_to_add p) (metadatas_to_add p) (ids_to_add p)
              Hd Hi (Nat.le_refl _)) as [E F].
  assert (Ebs : concat (map batch_entries (pending_batches p))
                = entries_of p).
  { unfold pending_batches, batches. rewrite Hd, Hi. rewrite E.
    destruct p; reflexivity. }
  assert (Fbs : Forall (fun b => batch_entries b <> []) (pending_batches p)).
  { unfold pending_batches, batches. rewrite Hd, Hi. exact F. }
  destruct (add_batches_spec (pending_batches p) []) as [k [H1 [H2 H3]]].
  exists k, (concat (map batch_entries (skipn k (pending_batches p)))).
  rewrite setup_unfold. fold p. split; [|split].
  - rewrite H1. simpl. rewrite <- concat_app, <- map_app, firstn_skipn.
    now rewrite Ebs.
  - intros Hs. rewrite Hs. split; [|reflexivity].
    specialize (H2 Hs).
    rewrite <- (firstn_skipn k (pending_batches p)) in H2 at 2.
    rewrite <- (app_nil_r (firstn k (pending_batches p))) in H2 at 1.
    apply app_inv_head in H2. now rewrite <- H2.
  - intros Hs. rewrite Hs. destruct (H3 Hs) as [b [rest [Hk Hb]]].
    exists b. repeat split; auto.
    + rewrite Hk. simpl.
      assert (Hin : In b (pending_batches p)).
      { rewrite <- (firstn_skipn k (pending_batches p)), Hk.
        apply in_or_app. right. now left. }
      rewrite Forall_forall in Fbs. specialize (Fbs b Hin).
      destruct (batch_entries b); [congruence | discriminate].
    + destruct (Nat.lt_ge_cases k (length (pending_batches p))); auto.
      rewrite skipn_all2 in Hk by lia. discriminate.
Qed.

(** X7. When the Chroma client answers, the corpus file loads and no
    [add] call raises, [setup_vector_db] started on an empty collection
    returns the collection, and the collection then holds one entry per
    queued chunk, in order, with its identifier, its text and its
    metadata. *)
Theorem build_fills_empty_index (reviews : list review) :
  (forall ids, add_raises ids = None) ->
  fst (setup_vector_db true add_raises (Loaded reviews) [])
  = ReturnedCollection
  /\ snd (setup_vector_db true add_raises (Loaded reviews) [])
     = entries_of (collect reviews)
  /\ map entry_id (entries_of (collect reviews))
     = ids_to_add (collect reviews)
  /\ map entry_document (entries_of (collect reviews))
     = documents_to_add (collect reviews)
  /\ map entry_metadata (entries_of (collect reviews))
     = metadatas_to_add (collect reviews).
Proof.
  intros Hok.
  destruct (collect_aligned reviews) as [Hd [Hi _]].
  destruct (setup_run reviews) as [k [rest [H1 [H2 H3]]]].
  destruct (snd (add_batches add_raises [] (pending_batches (collect reviews))))
    eqn:F.
  - destruct (H3 eq_refl) as [b [Hb _]]. now rewrite Hok in Hb.
  - destruct (H2 eq_refl) as [-> E2]. rewrite app_nil_r in H1.
    rewrite E2. simpl. split; [reflexivity|]. split; [now rewrite H1|].
    split; [|split].
    + apply entries_ids; congruence.
    + apply entries_documents; congruence.
    + apply entries_metadatas; congruence.
Qed.

(** X8. Whatever [add] does, [setup_vector_db] started on an empty
    collection leaves in it the entries of the queued chunks up to the
    first batch for which [add] raised: a leading part of them, in order.
    It returns the collection when they are all there, and [None] when a
    batch raised, in which case at least one chunk is missing. *)
Theorem build_adds_leading_part (reviews : list review) :
  exists rest,
    entries_of (collect reviews)
    = snd (setup_vector_db true add_raises (Loaded reviews) []) ++ rest
    /\ (fst (setup_vector_db true add_raises (Loaded reviews) [])
        = ReturnedCollection <-> rest = []).
Proof.
  destruct (setup_run reviews) as [k [rest [H1 [H2 H3]]]].
  exists rest.
  destruct (snd (add_batches add_raises [] (pending_batches (collect reviews))))
    eqn:F.
  - destruct (H3 eq_refl) as [b [_ [E1 [E2 [Hne _]]]]].
    rewrite E1, E2. split; [exact H1|]. split; [discriminate | congruence].
  - destruct (H2 eq_refl) as [E1 E2]. rewrite E2. simpl.
    split; [exact H1 | tauto].
Qed.

End Setup.

Lemma build_fills_empty_index_witness :
  (forall ids : list str, (fun _ : list str => @None exn) ids = None)
  /\ fst (setup_vector_db true (fun _ => None) (Loaded two_reviews) [])
     = ReturnedCollection
  /\ snd (setup_vector_db true (fun _ => None) (Loaded two_reviews) [])
     = entries_of (collect two_reviews).
Proof.
  assert (H : forall ids : list str,
             (fun _ : list str => @None exn) ids = None)
    by (intros ids; reflexivity).
  pose proof (build_fills_empty_index (fun _ => None) two_reviews H)
    as [H1 [H2 _]].
  exact (conj H (conj H1 H2)).
Defined.

(** A run in which the second batch raises: 150 one-chunk records, the
    first 100 chunks stay in the collection and [None] is returned. *)
Example second_batch_raises :
  let reviews := repeat (mk_review (Some (lit "Sharp.")) None None) 150 in
  let raises ids :=
    if prefixb (lit "review_101_") (hd [] ids)
    then Some (Exception (lit "rate limit")) else None in
  fst (setup_vector_db true raises (Loaded reviews) []) = ReturnedNone
  /\ count (snd (setup_vector_db true raises (Loaded reviews) [])) = 100.
Proof. vm_compute. split; reflexivity. Qed.

End BuilderMore.

(** ** More on the answerer *)

Module AnswererMore.
Import Py PyFacts Exc Answerer Props Inputs AnswererProps AnswererFacts.

Section Rag.
Variable distance : Type.
Variable collection_query : str -> Z -> result (query_results distance).
Variable chat_completion : str -> str -> result (option str).
Variable print : str -> result unit.
Variable format_distance : distance -> str.

Lemma perform_rag_serving (query : str) (n_results : Z) :
  unprotected_prints_ok distance print format_distance collection_query
    chat_completion query n_results ->
  exists answer,
    perform_rag distance collection_query chat_completion print
      format_distance true query n_results = Ok answer
    /\ (answer = apology
        \/ exists context_str reply,
             chat_completion system_prompt (user_prompt context_str query)
             = Ok (Some reply)
             /\ answer = strip reply).
Proof.
  intros H. rewrite (rag_unprotected _ _ _ _ _ _ _ H).
  destruct (rag_body distance collection_query chat_completion print
              format_distance query n_results) as [answer|e] eqn:B.
  - exists answer. split; [reflexivity|]. right.
    exact (body_value _ _ _ _ _ _ _ _ B).
  - exists apology. split; [reflexivity|]. now left.
Qed.

(** X9. [perform_rag] raises nothing when the three prints that no
    handler protects succeed, whatever the index query, the chat
    completion and the prints inside the [try] block do or return: its
    answer is the not-initialized message, the apology, or the trimmed
    text that the chat completion returned for a prompt made of the
    system prompt and of a user prompt that ends with the question.
    Without a collection nothing is printed and nothing is asked of the
    console. *)
Theorem perform_rag_answers (collection : bool) (query : str)
    (n_results : Z) :
  (collection = true ->
   unprotected_prints_ok distance print format_distance collection_query
     chat_completion query n_results) ->
  exists answer,
    perform_rag distance collection_query chat_completion print
      format_distance collection query n_results = Ok answer
    /\ (answer = not_initialized
        \/ answer = apology
        \/ exists context_str reply,
             chat_completion system_prompt (user_prompt context_str query)
             = Ok (Some reply)
             /\ answer = strip reply).
Proof.
  destruct collection; intros H.
  - destruct (perform_rag_serving query n_results (H eq_refl))
      as [answer [E [C|C]]]; exists answer; auto.
  - exists not_initialized. split; [reflexivity | now left].
Qed.

(** A call in which nothing raises: the query gives hits that all have
    metadata, the console takes every text of the run, and the chat
    completion replies to the prompt made of the context of the result. *)
Lemma rag_run (query : str) (n_results : Z)
    (results : query_results distance) (reply : str) :
  collection_query query n_results = Ok results ->
  Forall (fun h => snd (fst h) <> None) (hits_of results) ->
  chat_completion system_prompt (user_prompt (context_of results) query)
  = Ok (Some reply) ->
  printed print
    (run_prints distance format_distance query results (Some reply)) ->
  perform_rag distance collection_query chat_completion print
    format_distance true query n_results
  = Ok (strip reply).
Proof.
  intros Hq Hall Hc Hp. unfold run_prints in Hp.
  apply Forall_cons_iff in Hp as [H1 Hp].
  apply Forall_cons_iff in Hp as [H2 Hp].
  apply Forall_app in Hp as [H3 H4].
  unfold perform_rag. cbn [negb]. rewrite H1. cbn [bind].
  rewrite H2. cbn [bind]. unfold rag_body. rewrite Hq. cbn [bind].
  rewrite (build_context_ok _ _ _ _ Hall H3). cbn [bind].
  rewrite (ask_ok chat_completion print _ _ _ H4 Hc). reflexivity.
Qed.

(** X10. When the query returns no document, the chat completion is
    still asked, with the sentinel sentence as context, and its trimmed
    reply is the answer, provided the console takes the texts that the
    call prints. *)
Theorem no_hits_asks_model (query : str) (n_results : Z)
    (results : query_results distance) (reply : str) :
  collection_query query n_results = Ok results ->
  first_or_empty (documents _ results) = [] ->
  chat_completion system_prompt (user_prompt no_context query)
  = Ok (Some reply) ->
  printed print
    (run_prints distance format_distance query results (Some reply)) ->
  perform_rag distance collection_query chat_completion print
    format_distance true query n_results
  = Ok (strip reply).
Proof.
  intros Hq Hd Hc Hp.
  assert (Hctx : context_of results = no_context)
    by (unfold context_of; now rewrite Hd).
  apply (rag_run query n_results results reply Hq); auto.
  - unfold hits_of. rewrite Hd. constructor.
  - now rewrite Hctx.
Qed.

(** X11. When one of the hits that are put in the context comes without
    metadata, the answer is the apology, even though the query and the
    chat completion work, provided the three prints that no handler
    protects succeed. *)
Theorem hit_without_metadata (query : str) (n_results : Z)
    (results : query_results distance) :
  collection_query query n_results = Ok results ->
  Exists (fun h => snd (fst h) = None) (hits_of results) ->
  unprotected_prints_ok distance print format_distance collection_query
    chat_completion query n_results ->
  perform_rag distance collection_query chat_completion print
    format_distance true query n_results
  = Ok apology.
Proof.
  intros Hq Hex Hp. rewrite (rag_unprotected _ _ _ _ _ _ _ Hp).
  unfold rag_body. rewrite Hq. cbn [bind].
  destruct (build_context_raise distance print format_distance results Hex)
    as [e ->].
  reflexivity.
Qed.

(** X12. When every hit has metadata, the prompt that the chat completion
    receives holds one block per hit, in the order of the hits and joined
    by the delimiter, each with the title of the hit (or "N/A") and its
    text; the trimmed reply is the answer, provided the console takes the
    texts that the call prints.  The hits are the documents of the
    result, in order, up to the shortest of its three lists. *)
Theorem hits_in_order (query : str) (n_results : Z)
    (results : query_results distance) (reply : str) :
  collection_query query n_results = Ok results ->
  first_or_empty (documents _ results) <> [] ->
  Forall (fun h => snd (fst h) <> None) (hits_of results) ->
  chat_completion system_prompt
    (user_prompt (join delimiter (map context_block (hits_of results))) query)
  = Ok (Some reply) ->
  printed print
    (run_prints distance format_distance query results (Some reply)) ->
  perform_rag distance collection_query chat_completion print
    format_distance true query n_results
  = Ok (strip reply)
  /\ map (fun h => fst (fst h)) (hits_of results)
     = firstn (length (hits_of results))
              (first_or_empty (documents _ results)).
Proof.
  intros Hq Hne Hall Hc Hp. split.
  - apply (rag_run query n_results results reply Hq Hall); [|exact Hp].
    unfold context_of.
    destruct (first_or_empty (documents _ results)); [congruence | exact Hc].
  - unfold hits_of.
    generalize (first_or_empty (documents _ results))
               (first_or_empty (metadatas _ results))
               (first_or_empty (distances _ results)).
    induction l as [|a l IH]; intros [|b m] [|c n]; simpl; auto.
    now rewrite IH.
Qed.

(** X25. An exception of one of the three prints that no handler
    protects leaves [perform_rag]: of the first print, of the print of
    the question, and of the print of the handler once the index query
    has raised. *)
Theorem unprotected_print_escapes (query : str) (n_results : Z) (e : exn) :
  print started_line = Raise e
  \/ (print started_line = Ok tt /\ print (query_line query) = Raise e)
  \/ (print started_line = Ok tt /\ print (query_line query) = Ok tt
      /\ exists e0,
           collection_query query n_results = Raise e0
           /\ print (error_line e0) = Raise e) ->
  perform_rag distance collection_query chat_completion print
    format_distance true query n_results
  = Raise e.
Proof.
  unfold perform_rag. cbn [negb].
  intros [H|[[H1 H]|[H1 [H2 [e0 [Hq H]]]]]].
  - rewrite H. reflexivity.
  - rewrite H1. cbn [bind]. rewrite H. reflexivity.
  - rewrite H1. cbn [bind]. rewrite H2. cbn [bind].
    unfold rag_body. rewrite Hq. cbn [bind try_except]. rewrite H.
    reflexivity.
Qed.

End Rag.

Lemma no_hits_asks_model_witness :
  no_hits (lit "Is it sharp?") 3 = Ok (mk_results Z [[]] [[]] [[]])
  /\ first_or_empty (documents _ (mk_results Z [[]] [[]] [[]])) = []
  /\ refusing_model system_prompt (user_prompt no_context (lit "Is it sharp?"))
     = Ok (Some (lit "I cannot answer this based on the provided reviews."))
  /\ printed console
       (run_prints Z four_decimals (lit "Is it sharp?")
          (mk_results Z [[]] [[]] [[]])
          (Some (lit "I cannot answer this based on the provided reviews.")))
  /\ perform_rag Z no_hits refusing_model console four_decimals
       true (lit "Is it sharp?") 3
     = Ok (strip (lit "I cannot answer this based on the provided reviews.")).
Proof.
  assert (H1 : no_hits (lit "Is it sharp?") 3
               = Ok (mk_results Z [[]] [[]] [[]])) by reflexivity.
  assert (H2 : first_or_empty (documents _ (mk_results Z [[]] [[]] [[]]))
               = []) by reflexivity.
  assert (H3 : refusing_model system_prompt
                 (user_prompt no_context (lit "Is it sharp?"))
               = Ok (Some (lit "I cannot answer this based on the provided reviews.")))
    by reflexivity.
  assert (H4 : printed console
                 (run_prints Z four_decimals (lit "Is it sharp?")
                    (mk_results Z [[]] [[]] [[]])
                    (Some (lit "I cannot answer this based on the provided reviews."))))
    by (apply Forall_forall; intros l _; reflexivity).
  exact (conj H1 (conj H2 (conj H3 (conj H4
           (no_hits_asks_model Z no_hits refusing_model console four_decimals
              (lit "Is it sharp?") 3 _ _ H1 H2 H3 H4))))).
Defined.

Lemma hit_without_metadata_witness :
  hit_no_metadata (lit "Is it sharp?") 3 = Ok no_metadata_results
  /\ Exists (fun h => snd (fst h) = None) (hits_of no_metadata_results)
  /\ unprotected_prints_ok Z console four_decimals hit_no_metadata
       refusing_model (lit "Is it sharp?") 3
  /\ perform_rag Z hit_no_metadata refusing_model console four_decimals
       true (lit "Is it sharp?") 3
     = Ok apology.
Proof.
  assert (H1 : hit_no_metadata (lit "Is it sharp?") 3
               = Ok no_metadata_results) by reflexivity.
  assert (H2 : Exists (fun h : str * option hit_metadata * Z =>
                         snd (fst h) = None)
                 (hits_of no_metadata_results))
    by (left; reflexivity).
  assert (H3 : unprotected_prints_ok Z console four_decimals hit_no_metadata
                 refusing_model (lit "Is it sharp?") 3)
    by (repeat split).
  exact (conj H1 (conj H2 (conj H3
           (hit_without_metadata Z hit_no_metadata refusing_model console
              four_decimals (lit "Is it sharp?") 3 _ H1 H2 H3)))).
Defined.

Lemma hits_in_order_witness :
  two_hits (lit "Is it sharp?") 3 = Ok two_hits_results
  /\ first_or_empty (documents _ two_hits_results) <> []
  /\ Forall (fun h => snd (fst h) <> None) (hits_of two_hits_results)
  /\ printed console
       (run_prints Z four_decimals (lit "Is it sharp?") two_hits_results
          (Some (user_prompt
                   (join delimiter
                      (map context_block (hits_of two_hits_results)))
                   (lit "Is it sharp?"))))
  /\ perform_rag Z two_hits echo_model console four_decimals
       true (lit "Is it sharp?") 3
     = Ok (strip (user_prompt
                    (join delimiter
                       (map context_block (hits_of two_hits_results)))
                    (lit "Is it sharp?"))).
Proof.
  assert (H1 : two_hits (lit "Is it sharp?") 3 = Ok two_hits_results)
    by reflexivity.
  assert (H2 : first_or_empty (documents _ two_hits_results) <> [])
    by discriminate.
  assert (H3 : Forall (fun h : str * option hit_metadata * Z =>
                         snd (fst h) <> None)
                 (hits_of two_hits_results))
    by (repeat constructor; discriminate).
  assert (H4 : printed console
                 (run_prints Z four_decimals (lit "Is it sharp?")
                    two_hits_results
                    (Some (user_prompt
                             (join delimiter
                                (map context_block
                                   (hits_of two_hits_results)))
                             (lit "Is it sharp?")))))
    by (apply Forall_forall; intros l _; reflexivity).
  exact (conj H1 (conj H2 (conj H3 (conj H4
           (proj1 (hits_in_order Z two_hits echo_model console four_decimals
                     (lit "Is it sharp?") 3
                     two_hits_results _ H1 H2 H3 eq_refl H4)))))).
Defined.

Lemma perform_rag_answers_witness :
  (true = true ->
   unprotected_prints_ok Z console four_decimals index_down refusing_model
     (lit "Is it sharp?") 3)
  /\ exists answer,
       perform_rag Z index_down refusing_model console four_decimals
         true (lit "Is it sharp?") 3
       = Ok answer.
Proof.
  assert (H : true = true ->
              unprotected_prints_ok Z console four_decimals index_down
                refusing_model (lit "Is it sharp?") 3)
    by (intros _; repeat split).
  destruct (perform_rag_answers Z index_down refusing_model console
              four_decimals true (lit "Is it sharp?") 3 H)
    as [answer [E _]].
  exact (conj H (ex_intro _ answer E)).
Defined.

(** The question itself holds a lone surrogate: the print before the
    [try] block raises, and so does the call. *)
Lemma unprotected_print_escapes_witness :
  (utf8_console started_line = Ok tt
   /\ utf8_console (query_line [55296%N])
      = Raise (Exception (lit "'utf-8' codec can't encode character: surrogates not allowed")))
  /\ perform_rag Z no_hits refusing_model utf8_console four_decimals
       true [55296%N] 3
     = Raise (Exception (lit "'utf-8' codec can't encode character: surrogates not allowed")).
Proof.
  assert (H : utf8_console started_line = Ok tt
              /\ utf8_console (query_line [55296%N])
                 = Raise (Exception (lit "'utf-8' codec can't encode character: surrogates not allowed")))
    by (split; vm_compute; reflexivity).
  exact (conj H
           (unprotected_print_escapes Z no_hits refusing_model utf8_console
              four_decimals [55296%N] 3 _ (or_intror (or_introl H)))).
Defined.

(** The context of the run above: the two blocks in order, the second with
    the default title. *)
Example two_hits_context :
  join delimiter (map context_block (hits_of two_hits_results))
  = lit "Source: Lens A" ++ [newline] ++ lit "Content:" ++ [newline]
    ++ lit "Sharp wide open." ++ [newline; newline] ++ lit "---"
    ++ [newline; newline]
    ++ lit "Source: N/A" ++ [newline] ++ lit "Content:" ++ [newline]
    ++ lit "Soft corners.".
Proof. vm_compute. reflexivity. Qed.

End AnswererMore.

(** ** More on the cleaner *)

Module CleanerMore.
Import Py PyFacts Regex Cleaner Props MoreProps Inputs CleanerFacts.

(** *** Runs of a character *)

Lemma run_ok_mono (c : cp) (m j j' : nat) (s : str) :
  (j <= j')%nat -> run_ok c m j s = true -> run_ok c m j' s = true.
Proof.
  revert j j'. induction s as [|x s IH]; intros j j' Hj; simpl; auto.
  destruct (x =? c)%N; auto.
  destruct j as [|j]; [discriminate|]. destruct j' as [|j']; [lia|].
  apply IH. lia.
Qed.

Lemma run_ok_app_l (c : cp) (m j : nat) (s t : str) :
  run_ok c m j (s ++ t) = true -> run_ok c m j s = true.
Proof.
  revert j. induction s as [|x s IH]; intros j; simpl; auto.
  destruct (x =? c)%N; auto. destruct j; auto.
Qed.

Lemma run_ok_app_r (c : cp) (m j : nat) (s t : str) :
  (j <= m)%nat -> run_ok c m j (s ++ t) = true -> run_ok c m m t = true.
Proof.
  revert j. induction s as [|x s IH]; intros j Hj; simpl.
  - now apply run_ok_mono.
  - destruct (x =? c)%N; [|now apply IH].
    destruct j as [|j]; [discriminate|]. apply IH. lia.
Qed.

Lemma run_ok_repeat (c : cp) (m n : nat) (post : str) :
  forall j, (j <= n)%nat -> run_ok c m j (repeat c (S n) ++ post) = false.
Proof.
  induction n as [|n IH]; intros j Hj.
  - destruct j; [|lia]. simpl. now rewrite N.eqb_refl.
  - change (repeat c (S (S n)) ++ post)
      with (c :: (repeat c (S n) ++ post)).
    cbn [run_ok]. rewrite N.eqb_refl.
    destruct j as [|j]; [reflexivity|]. apply IH. lia.
Qed.

(** A text that passes [run_ok c m m] has no [m + 1] characters [c] in a
    row. *)
Lemma run_ok_no_run (c : cp) (m j : nat) (pre post : str) :
  (j <= m)%nat -> run_ok c m j (pre ++ repeat c (S m) ++ post) = false.
Proof.
  revert j. induction pre as [|x pre IH]; intros j Hj.
  - now apply run_ok_repeat.
  - simpl. destruct (x =? c)%N; [|now apply IH].
    destruct j as [|j]; [reflexivity|]. apply IH. lia.
Qed.

Lemma run_of_le_length (c : cp) (s : str) : (run_of c s <= length s)%nat.
Proof.
  induction s as [|x s IH]; simpl; [lia|]. destruct (x =? c)%N; lia.
Qed.

Lemma run_ok_run (c : cp) (m j : nat) (s : str) :
  run_ok c m j s = true -> (run_of c s <= j)%nat.
Proof.
  revert j. induction s as [|x s IH]; intros j; simpl; [lia|].
  destruct (x =? c)%N; [|lia].
  destruct j as [|j]; [discriminate|]. intros H. apply IH in H. lia.
Qed.

(** *** The patterns [_{5,}] and [\n{3,}] *)

Section Runs.
Variable ieq : cp -> cp -> bool.

(** A greedy repetition of one literal character takes the whole run of
    it, and succeeds when that makes [lo] of them. *)
Lemma rep_char (c : cp) (lo : nat) (rest : str) :
  forall (fuel n : nat) (prev : option cp),
    (length rest <= fuel)%nat ->
    rep_iter (mt ieq no_flags (Chr c)) true lo None
             (fun _ rs => Some rs) fuel n prev rest
    = if (lo <=? n + run_of c rest)%nat
      then Some (skipn (run_of c rest) rest) else None.
Proof.
  induction rest as [|x rest IH]; intros fuel n prev Hf.
  - rewrite Nat.add_0_r. destruct fuel; simpl;
      destruct (lo <=? n)%nat; reflexivity.
  - destruct fuel as [|fuel]; [simpl in Hf; lia|].
    simpl in Hf. cbn [rep_iter mt under run_of].
    unfold chr_eqb. cbn [ignorecase no_flags].
    rewrite (N.eqb_sym c x).
    destruct (x =? c)%N eqn:E.
    + replace (length rest <? length (x :: rest))%nat with true
        by (symmetry; apply Nat.ltb_lt; simpl; lia).
      rewrite IH by lia.
      replace (n + S (run_of c rest))%nat with (S n + run_of c rest)%nat
        by lia.
      destruct (Nat.leb_spec lo (S n + run_of c rest)); [reflexivity|].
      destruct (Nat.leb_spec lo n); [lia | reflexivity].
    + rewrite Nat.add_0_r. destruct (lo <=? n)%nat; reflexivity.
Qed.

Lemma match_underscores (prev : option cp) (rest : str) :
  match_at ieq no_flags underscores_re prev rest
  = if (5 <=? run_of underscore rest)%nat
    then Some (run_of underscore rest) else None.
Proof.
  unfold match_at, underscores_re. cbn [mt].
  rewrite (rep_char underscore 5) by lia. cbn [Nat.add].
  destruct (5 <=? run_of underscore rest)%nat; [|reflexivity].
  f_equal. rewrite length_skipn.
  pose proof (run_of_le_length underscore rest). lia.
Qed.

(** After [_{5,}] is removed no run of underscores is longer than four. *)
Lemma underscores_removed (rest : str) :
  forall prev : option cp,
    run_ok underscore 4 (Nat.min (run_of underscore rest) 4)
      (sub_go ieq no_flags underscores_re [] prev rest O) = true
    /\ run_ok underscore 4 0
         (sub_go ieq no_flags underscores_re [] prev rest
            (run_of underscore rest)) = true.
Proof.
  induction rest as [|c rest IH]; intros prev.
  - cbn [sub_go run_of]. rewrite match_underscores. simpl. auto.
  - assert (H0 : run_ok underscore 4
                   (Nat.min (run_of underscore (c :: rest)) 4)
                   (sub_go ieq no_flags underscores_re [] prev
                      (c :: rest) O) = true).
    { cbn [sub_go]. rewrite match_underscores.
      destruct (Nat.leb_spec 5 (run_of underscore (c :: rest))) as [Hr|Hr].
      - simpl in Hr. simpl run_of.
        destruct (c =? underscore)%N eqn:E; [|lia].
        replace (Nat.min (S (run_of underscore rest)) 4) with 4%nat by lia.
        simpl app.
        apply run_ok_mono with (j := O); [lia | exact (proj2 (IH (Some c)))].
      - simpl in Hr |- *. destruct (c =? underscore)%N eqn:E.
        + replace (Nat.min (S (run_of underscore rest)) 4)
            with (S (run_of underscore rest)) by lia.
          destruct (IH (Some c)) as [H _].
          replace (Nat.min (run_of underscore rest) 4)
            with (run_of underscore rest) in H by lia.
          exact H.
        + simpl. destruct (IH (Some c)) as [H _].
          apply run_ok_mono
            with (j := Nat.min (run_of underscore rest) 4); [lia | exact H]. }
    split; [exact H0|].
    simpl run_of. destruct (c =? underscore)%N eqn:E.
    + cbn [sub_go]. exact (proj2 (IH (Some c))).
    + simpl run_of in H0. rewrite E in H0. exact H0.
Qed.

(** Replacing [\n{3,}] by two newlines leaves the runs of another
    character as they are. *)
Lemma collapse_keeps_runs (c : cp) (m : nat) (rest : str) :
  c <> newline ->
  forall prev : option cp,
    (forall j, run_ok c m j rest = true ->
               run_ok c m j
                 (sub_go ieq no_flags newlines_re [newline; newline]
                    prev rest O) = true)
    /\ (forall n, (n <= run rest)%nat -> run_ok c m m rest = true ->
                  run_ok c m m
                    (sub_go ieq no_flags newlines_re [newline; newline]
                       prev rest n) = true).
Proof.
  intros Hc.
  assert (Hnl : (newline =? c)%N = false) by (apply N.eqb_neq; congruence).
  induction rest as [|x rest IH]; intros prev.
  - split.
    + intros j _. cbn [sub_go]. rewrite match_newlines. reflexivity.
    + intros n Hn _. simpl in Hn. replace n with O by lia.
      cbn [sub_go]. rewrite match_newlines. reflexivity.
  - assert (H0 : forall j, run_ok c m j (x :: rest) = true ->
                   run_ok c m j
                     (sub_go ieq no_flags newlines_re [newline; newline]
                        prev (x :: rest) O) = true).
    { intros j Hj. cbn [sub_go]. rewrite match_newlines.
      destruct (Nat.leb_spec 3 (run (x :: rest))) as [Hr|Hr].
      - simpl in Hr. simpl run. destruct (x =? newline)%N eqn:E; [|lia].
        assert (Hx : (x =? c)%N = false)
          by (apply N.eqb_eq in E; subst x; exact Hnl).
        cbn [run_ok] in Hj. rewrite Hx in Hj.
        cbn [app run_ok]. rewrite !Hnl.
        apply (proj2 (IH (Some x))); [lia | exact Hj].
      - simpl in Hj |- *. destruct (x =? c)%N.
        + destruct j as [|j]; [discriminate|].
          now apply (proj1 (IH (Some x))).
        + now apply (proj1 (IH (Some x))). }
    split; [exact H0|].
    intros n Hn Hm. destruct n as [|n]; [now apply H0|].
    simpl in Hn. destruct (x =? newline)%N eqn:E; [|lia].
    assert (Hx : (x =? c)%N = false)
      by (apply N.eqb_eq in E; subst x; exact Hnl).
    cbn [sub_go]. cbn [run_ok] in Hm. rewrite Hx in Hm.
    apply (proj2 (IH (Some x))); [lia | exact Hm].
Qed.

(** Replacing [\n{3,}] by two newlines removes newlines and nothing
    else. *)
Lemma collapse_filter (rest : str) :
  forall prev : option cp,
    filter (fun c => negb (c =? newline)%N)
      (sub_go ieq no_flags newlines_re [newline; newline] prev rest O)
    = filter (fun c => negb (c =? newline)%N) rest
    /\ (forall n, (n <= run rest)%nat ->
          filter (fun c => negb (c =? newline)%N)
            (sub_go ieq no_flags newlines_re [newline; newline]
               prev rest n)
          = filter (fun c => negb (c =? newline)%N) rest).
Proof.
  induction rest as [|x rest IH]; intros prev.
  - split.
    + cbn [sub_go]. rewrite match_newlines. reflexivity.
    + intros n Hn. simpl in Hn. replace n with O by lia.
      cbn [sub_go]. rewrite match_newlines. reflexivity.
  - assert (H0 : filter (fun c => negb (c =? newline)%N)
                   (sub_go ieq no_flags newlines_re [newline; newline]
                      prev (x :: rest) O)
                 = filter (fun c => negb (c =? newline)%N) (x :: rest)).
    { cbn [sub_go]. rewrite match_newlines.
      destruct (Nat.leb_spec 3 (run (x :: rest))) as [Hr|Hr].
      - simpl in Hr. simpl run. destruct (x =? newline)%N eqn:E; [|lia].
        simpl. rewrite E. simpl.
        apply (proj2 (IH (Some x))). lia.
      - simpl. destruct (x =? newline)%N; simpl;
          now rewrite (proj1 (IH (Some x))). }
    split; [exact H0|].
    intros n Hn. destruct n as [|n]; [exact H0|].
    simpl in Hn. destruct (x =? newline)%N eqn:E; [|lia].
    cbn [sub_go]. simpl. rewrite E. simpl.
    apply (proj2 (IH (Some x))). lia.
Qed.

(** A match of three newlines or more: what follows the two newlines
    written is shorter by two than the run and its sequel. *)
Lemma collapse_skip_length (rest : str) :
  forall (prev : option cp) (n : nat),
    (n <= run rest)%nat ->
    (length (sub_go ieq no_flags newlines_re [newline; newline]
               prev rest n) + n <= length rest)%nat.
Proof.
  induction rest as [|x rest IH]; intros prev n Hn.
  - simpl in Hn. replace n with O by lia.
    cbn [sub_go]. rewrite match_newlines. simpl. lia.
  - destruct n as [|n].
    + cbn [sub_go]. rewrite match_newlines.
      destruct (Nat.leb_spec 3 (run (x :: rest))) as [Hr|Hr].
      * simpl in Hr. simpl run. destruct (x =? newline)%N eqn:E; [|lia].
        pose proof (IH (Some x) (run rest) (Nat.le_refl _)). simpl. lia.
      * pose proof (IH (Some x) O (Nat.le_0_l _)). simpl. lia.
    + simpl in Hn. destruct (x =? newline)%N eqn:E; [|lia].
      cbn [sub_go]. pose proof (IH (Some x) n). simpl. lia.
Qed.

End Runs.

Section Results.
Context {U : Unicode}.

Lemma fold_marker_attained (text : str) (markers : list str) :
  forall acc,
    fold_left (marker_step text) markers acc = acc
    \/ exists marker, In marker markers
         /\ find (lower text) (lower marker)
            = fold_left (marker_step text) markers acc.
Proof.
  induction markers as [|m ms IH]; intros acc; simpl; [now left|].
  destruct (IH (marker_step text acc m)) as [H|[marker [Hin H]]].
  - rewrite H. unfold marker_step.
    destruct (negb (find (lower text) (lower m) =? -1)
              && (find (lower text) (lower m) <? acc)); [|now left].
    right. exists m. split; [now left | reflexivity].
  - right. exists marker. split; [now right | exact H].
Qed.

(** X13. The boundary [first_end_pos] is the least offset at which a
    marker of the list occurs in the lowered text, and the length of the
    text when none occurs: it is an offset of the text, it is at or
    before every marker that occurs, and it is the length of the text or
    the offset of one of the markers. *)
Theorem first_end_pos_least (text : str) :
  0 <= first_end_pos text <= len text
  /\ (forall marker, In marker end_markers ->
        find (lower text) (lower marker) <> -1 ->
        first_end_pos text <= find (lower text) (lower marker))
  /\ (first_end_pos text = len text
      \/ exists marker, In marker end_markers
           /\ find (lower text) (lower marker) = first_end_pos text).
Proof.
  split; [apply first_end_pos_range|]. split.
  - intros marker Hin Hf. now apply fold_marker_found.
  - apply fold_marker_attained.
Qed.

(** X14. Collapsing the blank lines removes newlines and nothing else:
    the other characters of the text are kept, in order, and the text gets
    no longer. *)
Theorem collapse_removes_newlines_only (cleaned : str) :
  filter (fun c => negb (c =? newline)%N) (collapse_newlines cleaned)
  = filter (fun c => negb (c =? newline)%N) cleaned
  /\ (length (collapse_newlines cleaned) <= length cleaned)%nat.
Proof.
  pose proof (proj1 (collapse_filter ieq cleaned None)) as H.
  fold (re_sub ieq no_flags newlines_re [newline; newline] cleaned) in H.
  fold (collapse_newlines cleaned) in H.
  split; [exact H|].
  pose proof (collapse_skip_length ieq cleaned None O (Nat.le_0_l _))
    as L.
  unfold collapse_newlines, re_sub. lia.
Qed.

Lemma clean_run_ok (text url : str) :
  run_ok underscore 4 4 (clean_review_text text url) = true.
Proof.
  unfold clean_review_text.
  destruct (negb (truthy (strip text))); [reflexivity|].
  set (c := remove_noise (meaningful_text text)).
  pose proof (proj1 (underscores_removed ieq c None)) as Hu.
  apply run_ok_mono with (j' := 4%nat) in Hu; [|lia].
  fold (re_sub ieq no_flags underscores_re [] c) in Hu.
  fold (remove_underscore_lines c) in Hu.
  assert (Hne : underscore <> newline) by discriminate.
  apply (proj1 (collapse_keeps_runs ieq underscore 4
                  (remove_underscore_lines c) Hne None)) in Hu.
  fold (re_sub ieq no_flags newlines_re [newline; newline]
          (remove_underscore_lines c)) in Hu.
  fold (collapse_newlines (remove_underscore_lines c)) in Hu.
  destruct (strip_split (collapse_newlines (remove_underscore_lines c)))
    as [p [q [Hs _]]].
  rewrite Hs in Hu. apply run_ok_app_r in Hu; [|lia].
  now apply run_ok_app_l in Hu.
Qed.

(** X15. The text returned by [clean_review_text] has nowhere five
    underscores in a row. *)
Theorem clean_has_no_underscore_line (text url : str) (pre post : str) :
  clean_review_text text url <> pre ++ repeat underscore 5 ++ post.
Proof.
  intros E. pose proof (clean_run_ok text url) as H.
  rewrite E in H.
  rewrite (run_ok_no_run underscore 4 4) in H; [discriminate|lia].
Qed.

(** The first part of a split is the start of the text. *)
Lemma split_go_prefix (fl : flags) (r : regex) (s : str) :
  forall (before : str) (prev : option cp),
    exists rest,
      rev before ++ s
      = hd [] (split_go ieq fl r before prev s) ++ rest.
Proof.
  induction s as [|c s IH]; intros before prev; simpl.
  - destruct (match_at ieq fl r prev []); simpl; exists [];
      reflexivity.
  - destruct (match_at ieq fl r prev (c :: s)); simpl.
    + eauto.
    + destruct (IH (c :: before) (Some c)) as [rest H]. exists rest.
      rewrite <- H. simpl. now rewrite <- app_assoc.
Qed.

(** X16. The text that goes on to noise stripping, [meaningful_text], is
    a trimmed, contiguous piece of the raw text, with or without the
    fallback. *)
Theorem meaningful_text_is_piece (text : str) :
  trimmed (meaningful_text text)
  /\ exists pre post, text = pre ++ meaningful_text text ++ post.
Proof.
  unfold meaningful_text.
  destruct (len (truncated text) <? 300).
  - destruct ((0 <? Z.of_nat (length (re_split1 ieq no_flags
                                        separator_re text)))
              && (300 <? len (hd [] (re_split1 ieq no_flags
                                       separator_re text)))).
    + split; [apply strip_trimmed|].
      destruct (split_go_prefix no_flags separator_re text [] None)
        as [rest H].
      fold (re_split1 ieq no_flags separator_re text) in H.
      destruct (strip_split (hd [] (re_split1 ieq no_flags
                                      separator_re text)))
        as [p [q [Hs _]]].
      exists p, (q ++ rest). simpl in H. rewrite H at 1. rewrite Hs at 1.
      now rewrite <- !app_assoc.
    + split; [apply strip_trimmed|].
      destruct (truncated_split text) as [p [q [H _]]]. eauto.
  - split; [apply strip_trimmed|].
    destruct (truncated_split text) as [p [q [H _]]]. eauto.
Qed.

End Results.

End CleanerMore.

(** ** The rest of the cleaning script *)

Module ScriptFacts.
Import Py PyFacts Exc Regex Groups Cleaner Builder Script Props MoreProps
  ScriptProps CleanerFacts.

(** *** The matcher with groups *)

Section Matcher.
Variable ieq : cp -> cp -> bool.
Variable fl : flags.
Context {R : Type}.

(** A repetition of a character class that succeeds has taken characters
    of the class, as many as its bounds allow, and has gone on with the
    captures unchanged. *)
Lemma grep_cls_inv (p : cp -> bool) (greedy : bool) (lo : nat)
    (hi : option nat) (k : option cp -> str -> captures -> option R)
    (cs : captures) (x : R) (fuel : nat) :
  forall (n : nat) (prev : option cp) (rest : str),
    grep_iter (gmt ieq fl (GCls p)) greedy lo hi k fuel n prev rest cs
    = Some x ->
    exists taken rs pv,
      rest = taken ++ rs
      /\ Forall (fun c => p c = true) taken
      /\ (lo <= n + length taken)%nat
      /\ match hi with
         | Some h => (n + length taken <= Nat.max n h)%nat
         | None => True
         end
      /\ k pv rs cs = Some x.
Proof.
  induction fuel as [|fuel IH]; intros n prev rest H.
  - cbn [grep_iter] in H.
    assert (Hs : (if (lo <=? n)%nat then k prev rest cs else None) = Some x)
      by (destruct greedy; [exact H|];
          destruct (if (lo <=? n)%nat then k prev rest cs else None);
          [exact H | discriminate]).
    destruct (Nat.leb_spec lo n); [|discriminate].
    exists [], rest, prev. repeat split; auto; try lia.
    destruct hi; [simpl; lia | exact I].
  - cbn [grep_iter gmt] in H.
    set (stop := if (lo <=? n)%nat then k prev rest cs else None) in H.
    set (more := if under hi n then _ else None) in H.
    assert (Hcase : stop = Some x \/ more = Some x).
    { destruct greedy.
      - destruct more; [right; exact H | left; exact H].
      - destruct stop; [left; exact H | right; exact H]. }
    destruct Hcase as [Hs|Hm].
    + unfold stop in Hs. destruct (Nat.leb_spec lo n); [|discriminate].
      exists [], rest, prev. repeat split; auto; try lia.
      destruct hi; [simpl; lia | exact I].
    + unfold more in Hm. destruct (under hi n) eqn:Hu; [|discriminate].
      destruct rest as [|c rest]; [discriminate|].
      destruct (p c) eqn:Hp; [|discriminate].
      destruct (length rest <? length (c :: rest))%nat; [|discriminate].
      apply IH in Hm. destruct Hm as [taken [rs [pv [E [F [L [Hh Hk]]]]]]].
      exists (c :: taken), rs, pv. simpl length. repeat split.
      * simpl. now rewrite E.
      * now constructor.
      * lia.
      * destruct hi as [h|]; [|exact I]. simpl in Hu.
        apply Nat.ltb_lt in Hu. lia.
      * exact Hk.
Qed.

End Matcher.

Lemma search_go_inv (ieq : cp -> cp -> bool) (fl : flags) (r : gregex)
    (cs : captures) (rest : str) :
  forall prev : option cp,
    search_go ieq fl r prev rest = Some cs ->
    exists pre rest' prev',
      rest = pre ++ rest'
      /\ gmt ieq fl r prev' rest' [] (fun _ _ c => Some c) = Some cs.
Proof.
  induction rest as [|c rest IH]; intros prev; simpl.
  - destruct (gmt ieq fl r prev [] [] _) eqn:E; [|discriminate].
    intros [= <-]. exists [], [], prev. auto.
  - destruct (gmt ieq fl r prev (c :: rest) [] _) eqn:E.
    + intros [= <-]. exists [], (c :: rest), prev. auto.
    + intros H. apply IH in H as [pre [rest' [prev' [-> H]]]].
      exists (c :: pre), rest', prev'. auto.
Qed.

(** *** Dates *)

(** A number from 0 to 99 is written with two ASCII digits. *)
Lemma format_02d_two_digits (n : Z) :
  0 <= n <= 99 ->
  exists a b, format_02d n = [a; b]
              /\ ascii_digit a = true /\ ascii_digit b = true.
Proof.
  intros Hn.
  assert (F : forallb (fun k => match format_02d (Z.of_nat k) with
                                | [a; b] => ascii_digit a && ascii_digit b
                                | _ => false
                                end) (List.seq 0 100) = true)
    by (vm_compute; reflexivity).
  rewrite forallb_forall in F. specialize (F (Z.to_nat n)).
  rewrite Z2Nat.id in F by lia.
  assert (Hin : In (Z.to_nat n) (List.seq 0 100)) by (apply in_seq; lia).
  apply F in Hin.
  destruct (format_02d n) as [|a [|b [|c l]]]; try discriminate.
  apply andb_prop in Hin as [Ha Hb]. eauto.
Qed.

Section Dates.
Context {U : Unicode} {D : Digits}.

(** One or two digits make a number from 0 to 99. *)
Lemma int_of_digits_range (s : str) :
  Forall (fun c => is_decimal c = true) s -> (length s <= 2)%nat ->
  0 <= int_of_digits s <= 99.
Proof.
  intros F L. unfold int_of_digits.
  destruct s as [|a [|b [|c s]]]; cbn [fold_left length] in *; try lia.
  - inversion F as [|? ? Ha _]; subst.
    pose proof (digit_value_range a Ha). lia.
  - inversion F as [|? ? Ha F']; subst. inversion F' as [|? ? Hb _]; subst.
    pose proof (digit_value_range a Ha).
    pose proof (digit_value_range b Hb). lia.
Qed.

(** A match of the date pattern: a slash, four digits, a slash, one or
    two digits. *)
Lemma date_re_inv (prev : option cp) (rest : str) (cs : captures) :
  gmt ieq no_flags date_re prev rest [] (fun _ _ c => Some c) = Some cs ->
  exists year month tail,
    rest = [slash] ++ year ++ [slash] ++ month ++ tail
    /\ length year = 4%nat /\ Forall (fun c => is_decimal c = true) year
    /\ (1 <= length month <= 2)%nat
    /\ Forall (fun c => is_decimal c = true) month
    /\ group 1 cs = year /\ group 2 cs = month.
Proof.
  unfold date_re. cbn [gseq fold_right gmt].
  destruct rest as [|c0 r0]; [discriminate|].
  unfold chr_eqb at 1. cbn [ignorecase no_flags].
  destruct (slash =? c0)%N eqn:E0; [|discriminate].
  apply N.eqb_eq in E0. subst c0.
  intros H. apply (grep_cls_inv ieq no_flags) in H.
  destruct H as [year [r1 [pv1 [-> [Fy [Ly1 [Ly2 H]]]]]]].
  simpl in Ly1, Ly2.
  destruct r1 as [|c1 r1]; [discriminate|].
  unfold chr_eqb at 1 in H. cbn [ignorecase no_flags] in H.
  destruct (slash =? c1)%N eqn:E1; [|discriminate].
  apply N.eqb_eq in E1. subst c1.
  apply (grep_cls_inv ieq no_flags) in H.
  destruct H as [month [r2 [pv2 [-> [Fm [Lm1 [Lm2 H]]]]]]].
  simpl in Lm1, Lm2.
  assert (Hcs : exists e, cs = [(3%nat, e);
                                (2%nat, firstn (length (month ++ r2)
                                                - length r2) (month ++ r2));
                                (1%nat, firstn (length (year ++ slash
                                                          :: month ++ r2)
                                                - length (slash :: month ++ r2))
                                           (year ++ slash :: month ++ r2))]).
  { match type of H with
    | match ?m with Some x => Some x | None => ?o end = Some cs =>
        destruct m as [x|] eqn:Ha
    end.
    - injection H as <-.
      destruct r2 as [|c2 r2']; [discriminate|].
      destruct (chr_eqb ieq no_flags slash c2); [|discriminate].
      injection Ha as <-. eauto.
    - destruct (at_eol no_flags r2); [|discriminate].
      injection H as <-. eauto. }
  destruct Hcs as [e ->].
  exists year, month, r2. cbn [group Nat.eqb].
  repeat split; auto; try lia.
  - rewrite length_app. simpl length.
    replace (length year + S (length (month ++ r2))
             - S (length (month ++ r2)))%nat with (length year) by lia.
    rewrite firstn_app, firstn_all, Nat.sub_diag. simpl.
    apply app_nil_r.
  - rewrite length_app.
    replace (length month + length r2 - length r2)%nat
      with (length month) by lia.
    rewrite firstn_app, firstn_all, Nat.sub_diag. simpl.
    apply app_nil_r.
Qed.

Lemma extract_date_format_aux (url d : str) :
  extract_date_from_url url = Some d ->
  exists year m1 m2 pre post,
    d = year ++ lit "-" ++ [m1; m2]
    /\ length year = 4%nat
    /\ Forall (fun c => is_decimal c = true) year
    /\ ascii_digit m1 = true /\ ascii_digit m2 = true
    /\ url = pre ++ [slash] ++ year ++ [slash] ++ post.
Proof.
  unfold extract_date_from_url, re_search.
  destruct (search_go ieq no_flags date_re None url) as [cs|] eqn:S;
    [|discriminate].
  intros [= <-].
  apply search_go_inv in S as [pre [rest [prev [-> H]]]].
  apply date_re_inv in H
    as [year [month [tail [-> [Ly [Fy [Lm [Fm [-> ->]]]]]]]]].
  destruct (format_02d_two_digits (int_of_digits month))
    as [a [b [E [Ha Hb]]]].
  { apply int_of_digits_range; [exact Fm | lia]. }
  exists year, a, b, pre, (month ++ tail). rewrite E. repeat split; auto.
Qed.

(** X17. A date that [extract_date_from_url] returns has the form
    [YYYY-MM]: four decimal digits that stand in the URL between two
    slashes, a hyphen, and two ASCII digits. *)
Theorem extract_date_format (url d : str) :
  extract_date_from_url url = Some d ->
  exists year m1 m2 pre post,
    d = year ++ lit "-" ++ [m1; m2]
    /\ length year = 4%nat
    /\ Forall (fun c => is_decimal c = true) year
    /\ ascii_digit m1 = true /\ ascii_digit m2 = true
    /\ url = pre ++ [slash] ++ year ++ [slash] ++ post.
Proof. apply extract_date_format_aux. Qed.

(** *** Titles *)

Lemma prefixb_app_l (a b s : str) :
  prefixb (a ++ b) s = true -> prefixb a s = true.
Proof.
  revert s. induction a as [|x a IH]; intros s; simpl; auto.
  destruct s as [|y s]; [discriminate|].
  intros H. apply andb_prop in H as [-> H]. simpl. auto.
Qed.

(** A text that ends with [a ++ b] ends with [b]. *)
Lemma endswith_app (s a b : str) :
  endswith s (a ++ b) = true -> endswith s b = true.
Proof.
  unfold endswith. rewrite rev_app_distr. apply prefixb_app_l.
Qed.

(** X18. Of the three endings of [extract_title_from_url] only
    " Review" is ever cut off: the loop over the endings drops the last
    seven characters of a title whose lowered form ends with " review" and
    leaves every other title as it is, so that the entries " G Review" and
    " Air Review" never apply. *)
Theorem only_review_is_cut (title : str) :
  strip_ending title common_endings
  = if endswith (lower title) (lower (lit " Review"))
    then slice title 0 (-7) else title.
Proof.
  unfold common_endings. cbn [strip_ending].
  rewrite (lower_ascii (lit " Review")) by reflexivity.
  rewrite (lower_ascii (lit " G Review")) by reflexivity.
  rewrite (lower_ascii (lit " Air Review")) by reflexivity.
  destruct (endswith (lower title) (map ascii_lower (lit " Review"))) eqn:E;
    [reflexivity|].
  destruct (endswith (lower title) (map ascii_lower (lit " G Review")))
    eqn:E1.
  - change (lit " G Review") with (lit " G" ++ lit " Review") in E1.
    rewrite map_app in E1. apply endswith_app in E1. congruence.
  - destruct (endswith (lower title) (map ascii_lower (lit " Air Review")))
      eqn:E2; [|reflexivity].
    change (lit " Air Review") with (lit " Air" ++ lit " Review") in E2.
    rewrite map_app in E2. apply endswith_app in E2. congruence.
Qed.

(** *** The record loop *)

Section Loop.
Variable urlparse_path : str -> result str.
Variable str_title : str -> str.

Lemma extract_title_trimmed (url : str) :
  trimmed (extract_title_from_url urlparse_path str_title url).
Proof.
  unfold extract_title_from_url.
  destruct (urlparse_path url); [|split; exact I].
  destruct (truthy _); [apply strip_trimmed | split; exact I].
Qed.

Lemma first_line_title_trimmed (s : str) : trimmed (first_line_title s).
Proof.
  unfold first_line_title.
  destruct (_ && _); [apply strip_trimmed | split; exact I].
Qed.

Lemma script_fold (data : list element) :
  forall st,
    cleaned_data (fold_left (script_step urlparse_path str_title) data st)
    = cleaned_data st ++ flat_map (kept urlparse_path str_title) data
    /\ processed_count
         (fold_left (script_step urlparse_path str_title) data st)
       = processed_count st
         + Z.of_nat (length (flat_map (kept urlparse_path str_title) data))
    /\ processed_count
         (fold_left (script_step urlparse_path str_title) data st)
       + skipped_count
           (fold_left (script_step urlparse_path str_title) data st)
       = processed_count st + skipped_count st + Z.of_nat (length data).
Proof.
  induction data as [|e data IH]; intros st.
  - simpl. rewrite app_nil_r. repeat split; lia.
  - cbn [fold_left].
    destruct (IH (script_step urlparse_path str_title st e)) as [H1 [H2 H3]].
    rewrite H1, H3, H2. clear IH H1 H2 H3.
    unfold script_step, kept. cbn [flat_map length].
    destruct e as [it|]; [destruct (clean_item urlparse_path str_title it)|];
      cbn [cleaned_data processed_count skipped_count app length];
      rewrite ?length_app; cbn [length];
      rewrite <- ?app_assoc; repeat split; auto; lia.
Qed.

(** X19. The loop of the script keeps the order of the input and leaves
    out the elements that are no dictionary and the items whose cleaned
    text is empty, and nothing else; its two counters add up to the
    number of elements, and [processed_count] is the number of records
    written. *)
Theorem script_loop_counts (data : list element) :
  cleaned_data (script_loop urlparse_path str_title data)
  = flat_map (kept urlparse_path str_title) data
  /\ processed_count (script_loop urlparse_path str_title data)
     = Z.of_nat (length (cleaned_data
                           (script_loop urlparse_path str_title data)))
  /\ processed_count (script_loop urlparse_path str_title data)
     + skipped_count (script_loop urlparse_path str_title data)
     = Z.of_nat (length data).
Proof.
  unfold script_loop.
  destruct (script_fold data (mk_script [] 0 0)) as [H1 [H2 H3]].
  rewrite H3, H2, H1. simpl. repeat split; lia.
Qed.

Lemma title_choice (t : str) :
  trimmed t ->
  (if truthy t then t else lit "Unknown Title") <> []
  /\ trimmed (if truthy t then t else lit "Unknown Title").
Proof.
  intros Htr. destruct (truthy t) eqn:E.
  - split; [now apply truthy_true | exact Htr].
  - split; [discriminate | split; reflexivity].
Qed.

Lemma extract_title_value_trimmed (url : value) :
  trimmed (extract_title_from_value urlparse_path str_title url).
Proof.
  destruct url as [|u]; [split; exact I | apply extract_title_trimmed].
Qed.

Lemma clean_item_record (it : item) (c : cleaned_item) :
  clean_item urlparse_path str_title it = Some c ->
  (exists text url, cleaned_content_text c = clean_review_text text url)
  /\ cleaned_content_text c <> []
  /\ cleaned_title c <> [] /\ trimmed (cleaned_title c)
  /\ cleaned_url c = get_value (item_url it) (Str [])
  /\ (forall d, original_date it = Some d -> cleaned_date c = Some d)
  /\ (forall d, original_date it = None -> cleaned_date c = Some d ->
                year_month d
                /\ exists u, cleaned_url c = Str u
                             /\ extract_date_from_url u = Some d).
Proof.
  unfold clean_item.
  destruct (truthy (clean_value (get_value (item_content_text it) (Str []))
                      (get_value (item_url it) (Str [])))) eqn:T;
    [|discriminate].
  cbn [negb andb]. intros [= <-].
  cbn [cleaned_content_text cleaned_title cleaned_url cleaned_date].
  split.
  { unfold clean_value in *.
    destruct (get_value (item_content_text it) (Str [])) as [|text];
      [discriminate | eauto]. }
  split; [now apply truthy_true|].
  split; [|split; [|split; [reflexivity|split]]].
  - apply title_choice.
    repeat match goal with
           | |- trimmed (if ?b then _ else _) => destruct b
           | |- trimmed (match ?v with Null => _ | Str _ => _ end) =>
               destruct v
           end;
      first [ apply strip_trimmed | apply extract_title_value_trimmed
            | apply first_line_title_trimmed | split; exact I ].
  - apply title_choice.
    repeat match goal with
           | |- trimmed (if ?b then _ else _) => destruct b
           | |- trimmed (match ?v with Null => _ | Str _ => _ end) =>
               destruct v
           end;
      first [ apply strip_trimmed | apply extract_title_value_trimmed
            | apply first_line_title_trimmed | split; exact I ].
  - intros d ->. reflexivity.
  - intros d -> H.
    destruct (get_value (item_url it) (Str [])) as [|u]; [discriminate|].
    destruct (truthy u); [|discriminate].
    split; [|eauto].
    apply extract_date_format_aux in H
      as [year [m1 [m2 [pre [post [E [L [F [A [B _]]]]]]]]]].
    exists year, m1, m2. auto.
Qed.

Lemma kept_in (data : list element) (c : cleaned_item) :
  In c (cleaned_data (script_loop urlparse_path str_title data)) ->
  exists it, In (Dict it) data
             /\ clean_item urlparse_path str_title it = Some c.
Proof.
  unfold script_loop.
  rewrite (proj1 (script_fold data (mk_script [] 0 0))). simpl.
  intros H. apply in_flat_map in H as [e [He Hc]].
  destruct e as [it|]; [|destruct Hc]. simpl in Hc.
  destruct (clean_item urlparse_path str_title it) as [c'|] eqn:E;
    [|destruct Hc].
  destruct Hc as [<-|[]]. eauto.
Qed.

(** X20. Every record that the script writes has a content that is not
    empty, has no white space at its ends, and has nowhere three newlines
    or five underscores in a row; and it has a title that is not empty and
    has no white space at its ends. *)
Theorem cleaned_records_well_formed (data : list element)
    (c : cleaned_item) :
  In c (cleaned_data (script_loop urlparse_path str_title data)) ->
  cleaned_content_text c <> []
  /\ trimmed (cleaned_content_text c)
  /\ (forall pre post,
        cleaned_content_text c <> pre ++ [newline; newline; newline] ++ post)
  /\ (forall pre post,
        cleaned_content_text c <> pre ++ repeat underscore 5 ++ post)
  /\ cleaned_title c <> []
  /\ trimmed (cleaned_title c).
Proof.
  intros H. apply kept_in in H as [it [_ H]].
  apply clean_item_record in H as [[text [url E]] [H1 [H2 [H3 _]]]].
  split; [exact H1|]. rewrite E.
  split; [apply clean_trimmed|]. split; [|split; [|split; assumption]].
  - intros pre post F.
    pose proof (clean_nl_ok text url) as N.
    rewrite F, nl_ok_no_triple in N; [discriminate | lia].
  - intros pre post F.
    pose proof (CleanerMore.clean_run_ok text url) as N.
    rewrite F in N.
    rewrite (CleanerMore.run_ok_no_run underscore 4 4) in N;
      [discriminate | lia].
Qed.

(** X21. Every record that the script writes comes from a dictionary of
    the input and has the URL that [item.get('url', '')] gives there: the
    value under the key, [null] included, or the empty text when the key
    is absent.  Its date is the date of the item when the item has one
    that is not [null], and otherwise, when there is one, a date of the
    form [YYYY-MM] that [extract_date_from_url] reads off the URL, which
    is then a string. *)
Theorem cleaned_records_dates (data : list element) (c : cleaned_item) :
  In c (cleaned_data (script_loop urlparse_path str_title data)) ->
  exists it,
    In (Dict it) data
    /\ cleaned_url c = get_value (item_url it) (Str [])
    /\ (forall d, original_date it = Some d -> cleaned_date c = Some d)
    /\ (forall d, original_date it = None -> cleaned_date c = Some d ->
                  year_month d
                  /\ exists u, cleaned_url c = Str u
                               /\ extract_date_from_url u = Some d).
Proof.
  intros H. apply kept_in in H as [it [Hin H]].
  apply clean_item_record in H as [_ [_ [_ [_ [Hu [Hd1 Hd2]]]]]].
  exists it. auto.
Qed.

End Loop.

End Dates.

#[local] Existing Instance ascii_tables.
#[local] Existing Instance ascii_digits.

Lemma extract_date_format_witness :
  extract_date_from_url (lit "https://dustinabbott.net/2023/7/a-review/")
  = Some (lit "2023-07")
  /\ exists year m1 m2 pre post,
       lit "2023-07" = year ++ lit "-" ++ [m1; m2]
       /\ length year = 4%nat
       /\ Forall (fun c => is_decimal c = true) year
       /\ ascii_digit m1 = true /\ ascii_digit m2 = true
       /\ lit "https://dustinabbott.net/2023/7/a-review/"
          = pre ++ [slash] ++ year ++ [slash] ++ post.
Proof.
  assert (H : extract_date_from_url
                (lit "https://dustinabbott.net/2023/7/a-review/")
              = Some (lit "2023-07")) by (vm_compute; reflexivity).
  exact (conj H (extract_date_format _ _ H)).
Defined.

(** A run of the loop on five elements: a review, an element that is no
    dictionary, a blank review, a review with a title, a date and a URL
    that is [null], and an item whose text is [null]. *)
Example sample_run :
  script_loop path_is_url title_as_is sample_data
  = mk_script
      [mk_cleaned (lit "Great lens. Sharp wide open.")
                  (Str (lit "/2023/7/great-lens-review/"))
                  (lit "great lens") (Some (lit "2023-07"));
       mk_cleaned (lit "Soft corners.") Null (lit "Lens B")
                  (Some (lit "2021-05-01"))]
      2 3.
Proof. vm_compute. reflexivity. Qed.

Lemma cleaned_records_well_formed_witness :
  In (mk_cleaned (lit "Soft corners.") Null (lit "Lens B")
                 (Some (lit "2021-05-01")))
     (cleaned_data (script_loop path_is_url title_as_is sample_data))
  /\ lit "Soft corners." <> [] /\ lit "Lens B" <> [].
Proof.
  assert (H : In (mk_cleaned (lit "Soft corners.") Null (lit "Lens B")
                             (Some (lit "2021-05-01")))
                 (cleaned_data
                    (script_loop path_is_url title_as_is sample_data)))
    by (vm_compute; right; left; reflexivity).
  pose proof (cleaned_records_well_formed path_is_url title_as_is
                sample_data _ H) as [H1 [_ [_ [_ [H2 _]]]]].
  exact (conj H (conj H1 H2)).
Defined.

Lemma cleaned_records_dates_witness :
  In (mk_cleaned (lit "Soft corners.") Null (lit "Lens B")
                 (Some (lit "2021-05-01")))
     (cleaned_data (script_loop path_is_url title_as_is sample_data))
  /\ exists it,
       In (Dict it) sample_data
       /\ Null = get_value (item_url it) (Str []).
Proof.
  assert (H : In (mk_cleaned (lit "Soft corners.") Null (lit "Lens B")
                             (Some (lit "2021-05-01")))
                 (cleaned_data
                    (script_loop path_is_url title_as_is sample_data)))
    by (vm_compute; right; left; reflexivity).
  destruct (cleaned_records_dates path_is_url title_as_is sample_data _ H)
    as [it [H1 [H2 _]]].
  exact (conj H (ex_intro _ it (conj H1 H2))).
Defined.

(** The month is not checked to be a month. *)
Example month_thirteen :
  extract_date_from_url (lit "https://example.org/2021/13/") 
  = Some (lit "2021-13").
Proof. vm_compute. reflexivity. Qed.

End ScriptFacts.

(** ** The chat endpoint *)

Module EndpointFacts.
Import Py PyFacts Exc Answerer AnswererProps Endpoint.

Section Chat.
Variable distance : Type.
Variable collection_query : str -> Z -> result (query_results distance).
Variable chat_completion : str -> str -> result (option str).
Variable print : str -> result unit.
Variable format_distance : distance -> str.

(** X22. For a request whose body is a JSON dictionary the endpoint
    raises nothing, whatever the index query and the chat completion do,
    provided the three prints of [perform_rag] that no handler protects
    succeed for the message.  It answers with status 400 when the request
    is not JSON or has no message, and otherwise with status 200 and, as
    reply, the apology or the trimmed text that the chat completion
    returned for a prompt on that message. *)
Theorem chat_endpoint_responds (req : request) (message : option str) :
  get_json req = JsonDict message ->
  (is_json req = true -> Builder.get message [] <> [] ->
   unprotected_prints_ok distance print format_distance collection_query
     chat_completion (Builder.get message []) 3) ->
  exists resp,
    chat_endpoint distance collection_query chat_completion print
      format_distance req = Ok resp
    /\ (is_json req = false \/ Builder.get message [] = [] ->
        status resp = 400 /\ response_key resp = lit "error")
    /\ (is_json req = true -> Builder.get message [] <> [] ->
        status resp = 200 /\ response_key resp = lit "reply"
        /\ (response_text resp = apology
            \/ exists context_str reply,
                 chat_completion system_prompt
                   (user_prompt context_str (Builder.get message []))
                 = Ok (Some reply)
                 /\ response_text resp = strip reply)).
Proof.
  intros Hb Hp. unfold chat_endpoint. rewrite Hb.
  destruct (is_json req) eqn:J; cbn [negb].
  - destruct (Builder.get message []) as [|c m] eqn:M; cbn [truthy negb].
    + eexists. split; [reflexivity|]. split; [auto | congruence].
    + assert (Hne : c :: m <> []) by discriminate.
      destruct (AnswererMore.perform_rag_serving distance
                  collection_query chat_completion print format_distance
                  (c :: m) 3 (Hp eq_refl Hne))
        as [answer [E Hcase]].
      rewrite E. cbn [bind]. eexists. split; [reflexivity|].
      cbn [status response_key response_text]. split.
      * intros [H|H]; discriminate.
      * intros _ _. split; [reflexivity|]. split; [reflexivity|].
        exact Hcase.
  - eexists. split; [reflexivity|]. split; [auto | congruence].
Qed.

End Chat.

Lemma chat_endpoint_responds_witness :
  get_json (mk_request true (JsonDict (Some (lit "Is it sharp?"))))
  = JsonDict (Some (lit "Is it sharp?"))
  /\ unprotected_prints_ok Z Inputs.console Inputs.four_decimals
       Inputs.index_down Inputs.refusing_model (lit "Is it sharp?") 3
  /\ exists resp,
       chat_endpoint Z Inputs.index_down Inputs.refusing_model
         Inputs.console Inputs.four_decimals
         (mk_request true (JsonDict (Some (lit "Is it sharp?"))))
       = Ok resp.
Proof.
  assert (H : get_json (mk_request true (JsonDict (Some (lit "Is it sharp?"))))
              = JsonDict (Some (lit "Is it sharp?"))) by reflexivity.
  assert (Hp : unprotected_prints_ok Z Inputs.console Inputs.four_decimals
                 Inputs.index_down Inputs.refusing_model
                 (lit "Is it sharp?") 3)
    by (repeat split).
  destruct (chat_endpoint_responds Z Inputs.index_down Inputs.refusing_model
              Inputs.console Inputs.four_decimals _ _ H (fun _ _ => Hp))
    as [resp [E _]].
  exact (conj H (conj Hp (ex_intro _ resp E))).
Defined.

Example index_down_reply :
  chat_endpoint Z Inputs.index_down Inputs.refusing_model
    Inputs.console Inputs.four_decimals
    (mk_request true (JsonDict (Some (lit "Is it sharp?"))))
  = Ok (mk_response (lit "reply") apology 200).
Proof. reflexivity. Qed.

End EndpointFacts.

(** ** The scraper *)

Module ScraperFacts.
Import Py PyFacts Exc Script Scraper.

Lemma mem_In (x : str) (l : list str) : mem x l = true <-> In x l.
Proof.
  induction l as [|y l IH]; simpl; [split; [discriminate | tauto]|].
  destruct (list_eq_dec N.eq_dec x y) as [->|Hne]; simpl.
  - split; auto.
  - rewrite IH. split; [auto | intros [H|H]; [congruence | auto]].
Qed.

Section Site.
Variable urlparse_path : str -> result str.
Variable urljoin_base : str -> str.
Variable list_of_set : list str -> list str.
Variable fetch_list_page : str -> result list_soup.
Variable fetch_review_page : str -> result page_fields.

Lemma is_review_link_true (href : str) :
  is_review_link urlparse_path href = Ok true -> review_link href.
Proof.
  unfold is_review_link, review_link.
  destruct (prefixb BASE_URL href); [|discriminate].
  destruct (urlparse_path href); [|discriminate]. cbn [bind].
  intros [= H]. apply andb_prop in H as [_ H]. auto.
Qed.

Lemma collect_links_spec (hrefs : list str) :
  forall links result,
    collect_links urlparse_path hrefs links = Ok result ->
    Forall review_link links -> Forall review_link result.
Proof.
  induction hrefs as [|href hrefs IH]; intros links result; simpl.
  - intros [= <-]. auto.
  - destruct (is_review_link urlparse_path href) as [keep|] eqn:K;
      [|discriminate].
    cbn [bind]. intros H F. apply IH in H; auto.
    destruct (keep && negb (mem href links)) eqn:E; auto.
    apply andb_prop in E as [-> _].
    apply Forall_app. split; auto. constructor; auto.
    now apply is_review_link_true.
Qed.

(** The inner loop keeps [seen] the list of the URLs of the records,
    without repetition, and adds records of the links only. *)
Lemma scrape_links_spec (links : list str) :
  forall seen all seen' all',
    scrape_links fetch_review_page links seen all = Ok (seen', all') ->
    seen = map scraped_url all -> NoDup seen ->
    seen' = map scraped_url all' /\ NoDup seen'
    /\ (forall r, In r all' -> In r all \/ In (scraped_url r) links).
Proof.
  induction links as [|link links IH]; intros seen all seen' all'; simpl.
  - intros [= <- <-] E N. auto.
  - destruct (mem link seen) eqn:M.
    + intros H E N. destruct (IH _ _ _ _ H E N) as [H1 [H2 H3]].
      repeat split; auto. intros r Hr. destruct (H3 r Hr); auto.
    + destruct (fetch_review_page link) as [rec|]; [|discriminate].
      cbn [bind]. intros H E N.
      destruct (IH _ _ _ _ H) as [H1 [H2 H3]].
      * rewrite map_app, E. reflexivity.
      * apply NoDup_app; auto.
        -- constructor; [tauto | constructor].
        -- intros x Hx [<-|[]]. apply mem_In in Hx. congruence.
      * repeat split; auto. intros r Hr.
        destruct (H3 r Hr) as [Hin|Hin]; auto.
        apply in_app_or in Hin as [Hin|[<-|[]]]; auto.
Qed.

Lemma scrape_pages_spec (fuel : nat) :
  forall next_page seen all reviews,
    scrape_pages urlparse_path urljoin_base list_of_set fetch_list_page
      fetch_review_page fuel next_page seen all = Some (Ok reviews) ->
    seen = map scraped_url all -> NoDup seen ->
    NoDup (map scraped_url reviews)
    /\ ((forall l x, In x (list_of_set l) -> In x l) ->
        Forall (fun r => review_link (scraped_url r)) all ->
        Forall (fun r => review_link (scraped_url r)) reviews).
Proof.
  induction fuel as [|fuel IH]; intros next_page seen all reviews.
  - simpl. destruct next_page as [url|].
    + destruct (negb (truthy url)); [|discriminate].
      intros [= <-] E N. rewrite <- E. auto.
    + intros [= <-] E N. rewrite <- E. auto.
  - cbn [scrape_pages]. destruct next_page as [url|].
    + destruct (negb (truthy url)).
      * intros [= <-] E N. rewrite <- E. auto.
      * destruct (fetch_list_page url) as [soup|]; cbn [bind];
          [|discriminate].
        unfold parse_review_list_page.
        destruct (collect_links urlparse_path (anchors soup) [])
          as [links|] eqn:C; cbn [bind]; [|discriminate].
        destruct (older_reviews soup) as [[href|]|]; cbn [bind];
          try discriminate.
        -- destruct (scrape_links fetch_review_page (list_of_set links)
                       seen all) as [[seen' all']|] eqn:L; [|discriminate].
           intros H E N.
           destruct (scrape_links_spec _ _ _ _ _ L E N) as [E' [N' S]].
           destruct (IH _ _ _ _ H E' N') as [H1 H2].
           split; auto. intros Hset F. apply H2; auto.
           apply Forall_forall. intros r Hr.
           destruct (S r Hr) as [Hin|Hin].
           ++ rewrite Forall_forall in F. now apply F.
           ++ apply Hset in Hin.
              pose proof (collect_links_spec _ _ _ C (Forall_nil _)) as FL.
              rewrite Forall_forall in FL. now apply FL.
        -- destruct (scrape_links fetch_review_page (list_of_set links)
                       seen all) as [[seen' all']|] eqn:L; [|discriminate].
           intros H E N.
           destruct (scrape_links_spec _ _ _ _ _ L E N) as [E' [N' S]].
           destruct (IH _ _ _ _ H E' N') as [H1 H2].
           split; auto. intros Hset F. apply H2; auto.
           apply Forall_forall. intros r Hr.
           destruct (S r Hr) as [Hin|Hin].
           ++ rewrite Forall_forall in F. now apply F.
           ++ apply Hset in Hin.
              pose proof (collect_links_spec _ _ _ C (Forall_nil _)) as FL.
              rewrite Forall_forall in FL. now apply FL.
    + intros [= <-] E N. rewrite <- E. auto.
Qed.

(** X23. When [scrape_all_reviews] returns, the records it returns have
    pairwise distinct URLs: a review linked from several list pages, or
    several times from one, is fetched and recorded once. *)
Theorem scraped_urls_distinct (fuel : nat) (reviews : list scraped) :
  scrape_all_reviews urlparse_path urljoin_base list_of_set fetch_list_page
    fetch_review_page fuel = Some (Ok reviews) ->
  NoDup (map scraped_url reviews).
Proof.
  intros H. unfold scrape_all_reviews in H.
  apply scrape_pages_spec in H; [tauto | reflexivity | constructor].
Qed.

(** X24. When [list(links)] lists elements of the set only, every record
    that [scrape_all_reviews] returns has the URL of a review of the site:
    it starts with the base URL and ends with [-review/]. *)
Theorem scraped_urls_are_review_links (fuel : nat) (reviews : list scraped) :
  (forall l x, In x (list_of_set l) -> In x l) ->
  scrape_all_reviews urlparse_path urljoin_base list_of_set fetch_list_page
    fetch_review_page fuel = Some (Ok reviews) ->
  Forall (fun r => prefixb BASE_URL (scraped_url r) = true
                   /\ endswith (scraped_url r) (lit "-review/") = true)
         reviews.
Proof.
  intros Hset H. unfold scrape_all_reviews in H.
  apply scrape_pages_spec in H; [|reflexivity | constructor].
  apply (proj2 H Hset). constructor.
Qed.

End Site.

Import ScraperInputs.

Lemma site_run :
  scrape_all_reviews path_after_base join_absolute in_insertion_order
    site_list_page site_review_page 5
  = Some (Ok (map (mk_scraped (mk_page_fields (lit "No Title") None
                                 (lit "Sharp.")))
                  [review_1; review_2; review_3])).
Proof. vm_compute. reflexivity. Qed.

Lemma scraped_urls_distinct_witness :
  scrape_all_reviews path_after_base join_absolute in_insertion_order
    site_list_page site_review_page 5
  = Some (Ok (map (mk_scraped (mk_page_fields (lit "No Title") None
                                 (lit "Sharp.")))
                  [review_1; review_2; review_3]))
  /\ NoDup (map scraped_url
              (map (mk_scraped (mk_page_fields (lit "No Title") None
                                  (lit "Sharp.")))
                   [review_1; review_2; review_3])).
Proof.
  exact (conj site_run
           (scraped_urls_distinct path_after_base join_absolute
              in_insertion_order site_list_page site_review_page 5 _
              site_run)).
Defined.

Lemma scraped_urls_are_review_links_witness :
  (forall l x, In x (in_insertion_order l) -> In x l)
  /\ Forall (fun r => prefixb BASE_URL (scraped_url r) = true
                      /\ endswith (scraped_url r) (lit "-review/") = true)
            (map (mk_scraped (mk_page_fields (lit "No Title") None
                                (lit "Sharp.")))
                 [review_1; review_2; review_3]).
Proof.
  assert (H : forall l x, In x (in_insertion_order l) -> In x l)
    by (intros l x Hx; exact Hx).
  exact (conj H
           (scraped_urls_are_review_links path_after_base join_absolute
              in_insertion_order site_list_page site_review_page 5 _ H
              site_run)).
Defined.

End ScraperFacts.
